(** * clevergo: the request dispatcher of router.go

    A shallow embedding of [Router] (router.go): registration ([Handle],
    [HandleFunc]), manual lookup ([Lookup]), the Allow-header computation
    ([allowed]), the parameter-buffer pool ([getParams], [putParams]) and
    the dispatch policy ([ServeHTTP]).

    Go strings are byte strings and are modelled by [string]; the [trees]
    and [routes] maps are finite maps; everything reachable through a
    pointer that the dispatcher shares between requests (the pooled
    [*Params] buffers) lives in an explicit store. *)

From Stdlib Require Import ZArith Lia Permutation Sorted Ascii.
From stdpp Require Import base option list sorting gmap strings.

Local Open Scope string_scope.
Local Open Scope list_scope.
Local Open Scope Z_scope.

(** ** Go strings *)

Module GoString.

(** [a < b] on Go strings: bytewise lexicographic order. *)
Definition lt (a b : string) : bool := String.ltb a b.
Definition le (a b : string) : bool := String.leb a b.

(** [len(s)] *)
Definition len (s : string) : nat := String.length s.

(** [s[len(s)-1]], when [s] is not empty. *)
Fixpoint last (s : string) : option ascii :=
  match s with
  | EmptyString => None
  | String c EmptyString => Some c
  | String _ rest => last rest
  end.

(** [s[0]], when [s] is not empty. *)
Definition first (s : string) : option ascii :=
  match s with
  | EmptyString => None
  | String c _ => Some c
  end.

(** [s[:len(s)-1]] *)
Fixpoint init (s : string) : string :=
  match s with
  | EmptyString => EmptyString
  | String _ EmptyString => EmptyString
  | String c rest => String c (init rest)
  end.

(** [strings.Join(l, sep)] *)
Fixpoint Join (l : list string) (sep : string) : string :=
  match l with
  | [] => ""
  | [x] => x
  | x :: rest => x +:+ sep +:+ Join rest sep
  end.

End GoString.

(** ** net/http constants used by the dispatcher *)

Module http.
Definition MethodGet : string := "GET".
Definition MethodOptions : string := "OPTIONS".
Definition MethodConnect : string := "CONNECT".
Definition StatusMovedPermanently : Z := 301.
Definition StatusPermanentRedirect : Z := 308.
Definition StatusMethodNotAllowed : Z := 405.
Definition StatusNotFound : Z := 404.

(** [http.StatusText], on the codes the dispatcher passes to it. *)
Definition StatusText (code : Z) : string :=
  if (code =? 405)%Z then "Method Not Allowed"
  else if (code =? 404)%Z then "Not Found"
  else "".
End http.

(** ** The in-place sort of [allowed]

    <<
    for i, l := 1, len(allowed); i < l; i++ {
        for j := i; j > 0 && allowed[j] < allowed[j-1]; j-- {
            allowed[j], allowed[j-1] = allowed[j-1], allowed[j]
        }
    }
    >>
    The slice is a list updated by index.  An index out of range would be a
    run-time panic in Go; the loops never produce one ([j < len(allowed)]
    throughout), and the model leaves the list unchanged there. *)

Fixpoint sort_inner (j : nat) (a : list string) : list string :=
  match j with
  | O => a
  | S j' =>
      match a !! j, a !! j' with
      | Some x, Some y =>
          if GoString.lt x y
          then sort_inner j' (<[j' := x]> (<[j := y]> a))
          else a
      | _, _ => a
      end
  end.

(** [sort_outer n i a]: the [n] remaining iterations of the outer loop,
    the next one at index [i]. *)
Fixpoint sort_outer (n i : nat) (a : list string) : list string :=
  match n with
  | O => a
  | S n' => sort_outer n' (S i) (sort_inner i a)
  end.

Definition sort_allowed (a : list string) : list string :=
  sort_outer (length a - 1) 1 a.

(** Ascending order of method names, [a <= b] on Go strings. *)
Definition str_le (a b : string) : Prop := GoString.le a b = true.

(** ** The store shared between requests *)

(** [Param] (router.go). *)
Record Param := { Key : string; Value : string }.

Definition loc := nat.

(** A non-nil value of the slice type [Params]: a header over a backing
    array.  The nil slice is [None] in [option Params]. *)
Record Params := { data : loc; len : nat; cap : nat }.

(** The store: backing arrays, the cells that [*Params] pointers point to,
    and the items currently held by [Router.paramsPool]. *)
Record Mem := {
  arrays : gmap loc (list Param);
  cells : gmap loc Params;
  pool : list loc;
  next : loc
}.

(** What a holder of the slice value [s] reads from it in store [m]. *)
Definition view (m : Mem) (s : Params) : list Param :=
  take (len s) (default [] (arrays m !! data s)).

(** [ps.Get(name)], reading through the store. *)
Fixpoint Params_Get_list (ps : list Param) (name : string) : string :=
  match ps with
  | [] => ""
  | p :: rest => if String.eqb (Key p) name then Value p else Params_Get_list rest name
  end.

Definition Params_Get (m : Mem) (ps : option Params) (name : string) : string :=
  match ps with
  | None => ""
  | Some s => Params_Get_list (view m s) name
  end.

(** Computations over the store that may panic. *)
Inductive res (A : Type) : Type :=
| Ok (a : A)
| Panic (msg : string).
Arguments Ok {A} a.
Arguments Panic {A} msg.

Definition M (A : Type) : Type := Mem -> res A * Mem.

Definition ret {A} (a : A) : M A := fun m => (Ok a, m).
Definition panic {A} (msg : string) : M A := fun m => (Panic msg, m).
Definition bind {A B} (c : M A) (k : A -> M B) : M B :=
  fun m => match c m with
           | (Ok a, m') => k a m'
           | (Panic msg, m') => (Panic msg, m')
           end.

Notation "'let!' x ':=' c 'in' k" := (bind c (fun x => k))
  (at level 10, x pattern, c at level 100, k at level 200).

(** Pointer operations on [*Params] cells and on backing arrays.  A
    dangling pointer cannot arise from the code below; reading one is
    modelled as Go's nil-dereference panic so that every operation is
    total. *)
Definition nil_deref : string := "invalid memory address or nil pointer dereference".

Definition load (ps : loc) : M Params :=
  fun m => match cells m !! ps with
           | Some s => (Ok s, m)
           | None => (Panic nil_deref, m)
           end.

Definition store (ps : loc) (s : Params) : M unit :=
  fun m => (Ok tt, {| arrays := arrays m; cells := <[ps := s]> (cells m);
                      pool := pool m; next := next m |}).

Definition load_array (a : loc) : M (list Param) :=
  fun m => match arrays m !! a with
           | Some l => (Ok l, m)
           | None => (Panic nil_deref, m)
           end.

Definition store_array (a : loc) (l : list Param) : M unit :=
  fun m => (Ok tt, {| arrays := <[a := l]> (arrays m); cells := cells m;
                      pool := pool m; next := next m |}).

(** A fresh location. *)
Definition alloc : M loc :=
  fun m => (Ok (next m), {| arrays := arrays m; cells := cells m;
                            pool := pool m; next := S (next m) |}).

(** [make(Params, 0, n)] followed by taking the address of the result:
    a zeroed backing array of capacity [n] and a cell holding the empty
    slice over it. *)
Definition zero_Param : Param := {| Key := ""; Value := "" |}.

Definition new_Params (n : nat) : M loc :=
  let! a := alloc in
  let! _ := store_array a (replicate n zero_Param) in
  let! ps := alloc in
  let! _ := store ps {| data := a; len := 0; cap := n |} in
  ret ps.

(** Go's panic on a slice expression that reaches past the capacity. *)
Definition slice_bounds : string := "runtime error: slice bounds out of range".

(** Modelled from the spec: the writes of [node.getValue] into the
    buffer are in tree.go, which is absent.  The design document has
    the buffer come from "a pool sized to the maximum wildcard count
    across all registered patterns": a pair is written in place, into
    the slice that [ps] points to, extended by one element within its
    capacity.  The buffer never grows; extending it past its capacity
    is Go's slice-bounds panic. *)
Definition append_Param (ps : loc) (p : Param) : M unit :=
  let! s := load ps in
  let! a := load_array (data s) in
  if (len s <? cap s)%nat
  then
    let! _ := store_array (data s) (<[len s := p]> a) in
    store ps {| data := data s; len := S (len s); cap := cap s |}
  else panic slice_bounds.

Fixpoint append_Params (ps : loc) (kvs : list Param) : M unit :=
  match kvs with
  | [] => ret tt
  | p :: rest => let! _ := append_Param ps p in append_Params ps rest
  end.

(** [*url.URL], as far as the dispatcher touches it: it assigns [Path] and
    passes the whole URL on to [http.Redirect]. *)
Record URL := { Path : string; RawQuery : string }.

(** ** The dispatcher *)

(** What router.go takes from the rest of the package and from net/http:
    handler values, the [Route] type with the two fields it reads
    (route.go), and the trie operations of tree.go and path.go. *)
Class Package := {
  Handler : Type;
  HandlerFunc : Type;
  RouteOption : Type;
  Route : Type;
  node : Type;
  (** The conversion [http.HandlerFunc(handle)]. *)
  HandlerFunc_conv : HandlerFunc -> Handler;
  (** [route.name] and [route.handler]; a handler may be a nil interface. *)
  Route_name : Route -> string;
  Route_handler : Route -> option Handler;
  (** [newRoute(path, handler, opts...)] *)
  newRoute : string -> option Handler -> list RouteOption -> Route;
  (** [new(node)] *)
  new_node : node;
  (** [root.addRoute(path, route)]: the trie afterwards and, when the
      insertion panics, the panic's message. *)
  addRoute : node -> string -> Route -> node * option string;
  (** [countParams(path)], a uint16. *)
  countParams : string -> Z;
  (** The walk of [node.getValue] over the (read-only) trie: the route
      found, the parameters bound on the way in pattern order, and the
      trailing-slash hint. *)
  lookup : node -> string -> option Route * list Param * bool;
  (** [root.findCaseInsensitivePath(path, fixTrailingSlash)] *)
  findCaseInsensitivePath : node -> string -> bool -> string * bool;
  (** [CleanPath(path)] *)
  CleanPath : string -> string
}.

(** [sync.Pool.Get] may hand out any item that was put and not yet taken,
    or none of them: [pick] is the runtime's choice, an index into the
    pooled items. *)
Class Runtime := pick : Mem -> option nat.

Section Dispatcher.

Context `{Pkg : Package} `{Rt : Runtime}.

(** [Router] (router.go).  [paramsPool_New] records whether
    [paramsPool.New] has been set; the pooled items are in the store. *)
Record Router := {
  trees : gmap string node;
  routes : gmap string Route;
  paramsPool_New : bool;
  maxParams : Z;
  SaveMatchedRoute : bool;
  RedirectTrailingSlash : bool;
  RedirectFixedPath : bool;
  HandleMethodNotAllowed : bool;
  HandleOPTIONS : bool;
  GlobalOPTIONS : option Handler;
  globalAllowed : string;
  NotFound : option Handler;
  MethodNotAllowed : option Handler
}.

Definition NewRouter : Router := {|
  trees := ∅; routes := ∅; paramsPool_New := false; maxParams := 0;
  SaveMatchedRoute := false;
  RedirectTrailingSlash := true;
  RedirectFixedPath := true;
  HandleMethodNotAllowed := true;
  HandleOPTIONS := true;
  GlobalOPTIONS := None; globalAllowed := "";
  NotFound := None; MethodNotAllowed := None
|}.

(** Assignments to the fields that [Handle] writes. *)
Definition set_trees (t : gmap string node) (r : Router) : Router :=
  {| trees := t; routes := routes r; paramsPool_New := paramsPool_New r;
     maxParams := maxParams r; SaveMatchedRoute := SaveMatchedRoute r;
     RedirectTrailingSlash := RedirectTrailingSlash r;
     RedirectFixedPath := RedirectFixedPath r;
     HandleMethodNotAllowed := HandleMethodNotAllowed r;
     HandleOPTIONS := HandleOPTIONS r; GlobalOPTIONS := GlobalOPTIONS r;
     globalAllowed := globalAllowed r; NotFound := NotFound r;
     MethodNotAllowed := MethodNotAllowed r |}.

Definition set_routes (t : gmap string Route) (r : Router) : Router :=
  {| trees := trees r; routes := t; paramsPool_New := paramsPool_New r;
     maxParams := maxParams r; SaveMatchedRoute := SaveMatchedRoute r;
     RedirectTrailingSlash := RedirectTrailingSlash r;
     RedirectFixedPath := RedirectFixedPath r;
     HandleMethodNotAllowed := HandleMethodNotAllowed r;
     HandleOPTIONS := HandleOPTIONS r; GlobalOPTIONS := GlobalOPTIONS r;
     globalAllowed := globalAllowed r; NotFound := NotFound r;
     MethodNotAllowed := MethodNotAllowed r |}.

Definition set_globalAllowed (a : string) (r : Router) : Router :=
  {| trees := trees r; routes := routes r; paramsPool_New := paramsPool_New r;
     maxParams := maxParams r; SaveMatchedRoute := SaveMatchedRoute r;
     RedirectTrailingSlash := RedirectTrailingSlash r;
     RedirectFixedPath := RedirectFixedPath r;
     HandleMethodNotAllowed := HandleMethodNotAllowed r;
     HandleOPTIONS := HandleOPTIONS r; GlobalOPTIONS := GlobalOPTIONS r;
     globalAllowed := a; NotFound := NotFound r;
     MethodNotAllowed := MethodNotAllowed r |}.

Definition set_maxParams (n : Z) (r : Router) : Router :=
  {| trees := trees r; routes := routes r; paramsPool_New := paramsPool_New r;
     maxParams := n; SaveMatchedRoute := SaveMatchedRoute r;
     RedirectTrailingSlash := RedirectTrailingSlash r;
     RedirectFixedPath := RedirectFixedPath r;
     HandleMethodNotAllowed := HandleMethodNotAllowed r;
     HandleOPTIONS := HandleOPTIONS r; GlobalOPTIONS := GlobalOPTIONS r;
     globalAllowed := globalAllowed r; NotFound := NotFound r;
     MethodNotAllowed := MethodNotAllowed r |}.

Definition set_paramsPool_New (b : bool) (r : Router) : Router :=
  {| trees := trees r; routes := routes r; paramsPool_New := b;
     maxParams := maxParams r; SaveMatchedRoute := SaveMatchedRoute r;
     RedirectTrailingSlash := RedirectTrailingSlash r;
     RedirectFixedPath := RedirectFixedPath r;
     HandleMethodNotAllowed := HandleMethodNotAllowed r;
     HandleOPTIONS := HandleOPTIONS r; GlobalOPTIONS := GlobalOPTIONS r;
     globalAllowed := globalAllowed r; NotFound := NotFound r;
     MethodNotAllowed := MethodNotAllowed r |}.

(** *** The parameter-buffer pool *)

(** [r.paramsPool.Get()]: a pooled item of the runtime's choice, else
    the result of [New] when it is set, else nil. *)
Definition paramsPool_Get (r : Router) : M (option loc) :=
  fun m =>
    match pick m with
    | Some i =>
        match pool m !! i with
        | Some ps =>
            (Ok (Some ps), {| arrays := arrays m; cells := cells m;
                              pool := delete i (pool m); next := next m |})
        | None =>
            if paramsPool_New r
            then (let! ps := new_Params (Z.to_nat (maxParams r)) in ret (Some ps)) m
            else (Ok None, m)
        end
    | None =>
        if paramsPool_New r
        then (let! ps := new_Params (Z.to_nat (maxParams r)) in ret (Some ps)) m
        else (Ok None, m)
    end.

(** [r.paramsPool.Put(ps)] *)
Definition paramsPool_Put (ps : loc) : M unit :=
  fun m => (Ok tt, {| arrays := arrays m; cells := cells m;
                      pool := ps :: pool m; next := next m |}).

(** [getParams]: take an item from the pool, asserting that it is a
    [*Params] (a nil interface fails the assertion), reslice what it
    points to to [[0:0]], which keeps the backing array and the
    capacity, and return the pointer. *)
Definition getParams (r : Router) : M loc :=
  let! got := paramsPool_Get r in
  match got with
  | None => panic "interface conversion: interface {} is nil, not *clevergo.Params"
  | Some ps =>
      let! s := load ps in
      let! _ := store ps {| data := data s; len := 0; cap := cap s |} in
      ret ps
  end.

(** [putParams]: the buffer goes back into the pool as it is. *)
Definition putParams (r : Router) (ps : loc) : M unit := paramsPool_Put ps.

(** *** Matching *)

(** Modelled from the spec: [node.getValue(path, params)] is defined in
    tree.go, which is absent.  The walk itself is the parameter
    [lookup]; the buffer is taken from the callback when the first
    wildcard value is bound, and each (name, value) pair is appended to
    it in pattern order.  With a nil callback nothing is bound and no
    buffer is returned. *)
Definition getValue (root : node) (path : string) (params : option (M loc))
  : M (option Route * option loc * bool) :=
  let '(route, kvs, tsr) := lookup root path in
  match params, kvs with
  | Some get, _ :: _ =>
      let! ps := get in
      let! _ := append_Params ps kvs in
      ret (route, Some ps, tsr)
  | _, _ => ret (route, None, tsr)
  end.

(** [root.getValue(path, nil)], which has no access to the store. *)
Definition getValue_nil (root : node) (path : string)
  : option Route * option loc * bool :=
  let '(route, _, tsr) := lookup root path in (route, None, tsr).

(** [Router.Lookup] *)
Definition Lookup (r : Router) (method path : string)
  : M (option Route * option Params * bool) :=
  match trees r !! method with
  | Some root =>
      let! (route, ps, tsr) := getValue root path (Some (getParams r)) in
      match route with
      | None => ret (None, None, tsr)
      | Some route =>
          match ps with
          | None => ret (Some route, None, tsr)
          | Some ps => let! s := load ps in ret (Some route, Some s, tsr)
          end
      end
  | None => ret (None, None, false)
  end.

(** *** Allowed methods *)

(** The server-wide loop of [allowed]: every key of [r.trees] but
    OPTIONS, in the order [ks] in which [range] yields them. *)
Fixpoint allowed_global (ks : list string) (allowed : list string) : list string :=
  match ks with
  | [] => allowed
  | method :: ks' =>
      if String.eqb method http.MethodOptions
      then allowed_global ks' allowed
      else allowed_global ks' (allowed ++ [method])
  end.

(** The loop of [allowed] for a specific path. *)
Fixpoint allowed_path (r : Router) (path reqMethod : string)
    (ks : list string) (allowed : list string) : list string :=
  match ks with
  | [] => allowed
  | method :: ks' =>
      if String.eqb method reqMethod || String.eqb method http.MethodOptions
      then allowed_path r path reqMethod ks' allowed
      else
        match trees r !! method with
        | Some root =>
            match getValue_nil root path with
            | (Some _, _, _) => allowed_path r path reqMethod ks' (allowed ++ [method])
            | (None, _, _) => allowed_path r path reqMethod ks' allowed
            end
        | None => allowed_path r path reqMethod ks' allowed
        end
  end.

(** [Router.allowed]; [ks] is the order in which this call's [range
    r.trees] yields the keys of the map. *)
Definition allowed (ks : list string) (r : Router) (path reqMethod : string) : string :=
  let collected :=
    if String.eqb path "*"
    then
      if String.eqb reqMethod ""
      then Some (allowed_global ks [])
      else None
    else Some (allowed_path r path reqMethod ks [])
  in
  match collected with
  | None => globalAllowed r
  | Some allowed =>
      if (0 <? length allowed)%nat
      then GoString.Join (sort_allowed (allowed ++ [http.MethodOptions])) ", "
      else ""
  end.

(** *** Registration *)

(** Where a registration panicked. *)
Inductive panic_site := in_HandleFunc | in_Handle | in_addRoute.

Inductive registration :=
| Registered
| Panicked (site : panic_site) (msg : string).

(** [len(path) < 1 || path[0] != '/'] *)
Definition bad_path (path : string) : bool :=
  match GoString.first path with
  | Some c => negb (Ascii.eqb c "/"%char)
  | None => true
  end.

(** [Router.Handle].  The router is updated in place, so a panic leaves
    the assignments made before it; [ks] is the key order of the
    [range] inside [allowed]. *)
Definition Handle (ks : list string) (method path : string)
    (handler : option Handler) (opts : list RouteOption) (r : Router)
  : registration * Router :=
  if String.eqb method "" then (Panicked in_Handle "method must not be empty", r)
  else if bad_path path
  then (Panicked in_Handle ("path must begin with '/' in path '" +:+ path +:+ "'"), r)
  else
    let '(root, r) :=
      match trees r !! method with
      | Some root => (root, r)
      | None =>
          let r := set_trees (<[method := new_node]> (trees r)) r in
          (new_node, set_globalAllowed (allowed ks r "*" "") r)
      end in
    let route := newRoute path handler opts in
    let named :=
      if negb (String.eqb (Route_name route) "")
      then
        match routes r !! Route_name route with
        | Some _ => None
        | None => Some (set_routes (<[Route_name route := route]> (routes r)) r)
        end
      else Some r in
    match named with
    | None =>
        (Panicked in_Handle
           ("route name " +:+ Route_name route +:+ " is already registered"), r)
    | Some r =>
        let '(root', failure) := addRoute root path route in
        let r := set_trees (<[method := root']> (trees r)) r in
        match failure with
        | Some msg => (Panicked in_addRoute msg, r)
        | None =>
            let r :=
              if (maxParams r <? countParams path)%Z
              then set_maxParams (countParams path) r else r in
            let r :=
              if negb (paramsPool_New r) && (0 <? maxParams r)%Z
              then set_paramsPool_New true r else r in
            (Registered, r)
        end
    end.

(** [Router.HandleFunc] *)
Definition HandleFunc (ks : list string) (method path : string)
    (handle : option HandlerFunc) (opts : list RouteOption) (r : Router)
  : registration * Router :=
  match handle with
  | None => (Panicked in_HandleFunc "handle must not be nil", r)
  | Some f => Handle ks method path (Some (HandlerFunc_conv f)) opts r
  end.

(** *** Dispatch *)

(** [*http.Request]: method, URL, and the two values the dispatcher
    binds in the request context ([paramsKey], [routeKey]).  The value
    under [paramsKey] is the slice value, not a copy of its elements. *)
Record Request := {
  Method : string;
  url : URL;
  ctx_params : option Params;
  ctx_route : option Route
}.

Definition with_Path (req : Request) (path : string) : Request :=
  {| Method := Method req;
     url := {| Path := path; RawQuery := RawQuery (url req) |};
     ctx_params := ctx_params req; ctx_route := ctx_route req |}.

Definition with_params (req : Request) (ps : Params) : Request :=
  {| Method := Method req; url := url req;
     ctx_params := Some ps; ctx_route := ctx_route req |}.

Definition with_route (req : Request) (route : Route) : Request :=
  {| Method := Method req; url := url req;
     ctx_params := ctx_params req; ctx_route := Some route |}.

(** [GetParams(req)] and [GetRoute(req)] *)
Definition GetParams (req : Request) : option Params := ctx_params req.
Definition GetRoute (req : Request) : option Route := ctx_route req.

(** What [ServeHTTP] does to the response writer and which handler it
    hands the request to, in order. *)
Inductive Action :=
| Header_Set (key value : string)
    (* w.Header().Set(key, value) *)
| Handler_ServeHTTP (h : Handler) (req : Request)
    (* h.ServeHTTP(w, req) *)
| http_Redirect (req : Request) (code : Z)
    (* http.Redirect(w, req, req.URL.String(), code) *)
| http_Error (body : string) (code : Z)
    (* http.Error(w, body, code) *)
| http_NotFound (req : Request).
    (* http.NotFound(w, req) *)

(** The status of a redirect: 301, and 308 when the method is not GET. *)
Definition redirect_code (method : string) : Z :=
  if negb (String.eqb method http.MethodGet)
  then http.StatusPermanentRedirect
  else http.StatusMovedPermanently.

(** The path a trailing-slash redirect points to. *)
Definition toggle_slash (path : string) : string :=
  if (1 <? GoString.len path)%nat
     && bool_decide (GoString.last path = Some "/"%char)
  then GoString.init path
  else path +:+ "/".

(** The first block of [ServeHTTP] (the [if root := r.trees[req.Method]]
    statement): [Some] of what was done when the block returns, [None]
    when control falls out of it. *)
Definition ServeHTTP_tree (r : Router) (req : Request) : M (option (list Action)) :=
  let path := Path (url req) in
  match trees r !! Method req with
  | Some root =>
      let! (route, ps, tsr) := getValue root path (Some (getParams r)) in
      match route with
      | Some route =>
          let! req :=
            match ps with
            | Some ps =>
                let! s := load ps in
                let req := with_params req s in
                let! _ := putParams r ps in
                ret req
            | None => ret req
            end in
          let req := if SaveMatchedRoute r then with_route req route else req in
          match Route_handler route with
          | Some h => ret (Some [Handler_ServeHTTP h req])
          | None => panic nil_deref
          end
      | None =>
          if negb (String.eqb (Method req) http.MethodConnect)
             && negb (String.eqb path "/")
          then
            let code := redirect_code (Method req) in
            if tsr && RedirectTrailingSlash r
            then ret (Some [http_Redirect (with_Path req (toggle_slash path)) code])
            else
              if RedirectFixedPath r
              then
                let '(fixedPath, found) :=
                  findCaseInsensitivePath root (CleanPath path)
                    (RedirectTrailingSlash r) in
                if found
                then ret (Some [http_Redirect (with_Path req fixedPath) code])
                else ret None
              else ret None
          else ret None
      end
  | None => ret None
  end.

(** The automatic OPTIONS reply and the 405 reply: [Some] when one of
    them returns, [None] when control reaches the 404 part. *)
Definition ServeHTTP_allow (ks : list string) (r : Router) (req : Request)
  : option (list Action) :=
  let path := Path (url req) in
  if String.eqb (Method req) http.MethodOptions && HandleOPTIONS r
  then
    let allow := allowed ks r path http.MethodOptions in
    if negb (String.eqb allow "")
    then Some (Header_Set "Allow" allow ::
               match GlobalOPTIONS r with
               | Some h => [Handler_ServeHTTP h req]
               | None => []
               end)
    else None
  else
    if HandleMethodNotAllowed r
    then
      let allow := allowed ks r path (Method req) in
      if negb (String.eqb allow "")
      then Some [Header_Set "Allow" allow;
                 match MethodNotAllowed r with
                 | Some h => Handler_ServeHTTP h req
                 | None =>
                     http_Error (http.StatusText http.StatusMethodNotAllowed)
                                http.StatusMethodNotAllowed
                 end]
      else None
    else None.

Definition ServeHTTP_404 (r : Router) (req : Request) : list Action :=
  match NotFound r with
  | Some h => [Handler_ServeHTTP h req]
  | None => [http_NotFound req]
  end.

(** [Router.ServeHTTP] *)
Definition ServeHTTP (ks : list string) (r : Router) (req : Request)
  : M (list Action) :=
  let! done := ServeHTTP_tree r req in
  match done with
  | Some acts => ret acts
  | None =>
      match ServeHTTP_allow ks r req with
      | Some acts => ret acts
      | None => ret (ServeHTTP_404 r req)
      end
  end.

(** *** Vocabulary for the statements *)

(** [ks] is an order in which [range r.trees] can yield the keys of
    the map: each key once. *)
Definition range_keys (r : Router) (ks : list string) : Prop :=
  NoDup ks /\ forall method, method ∈ ks <-> is_Some (trees r !! method).

(** The keys of [r.trees], in the order of the map's own listing. *)
Definition keys (r : Router) : list string := (map_to_list (trees r)).*1.

(** The trie of [method] has a handler for exactly [path]. *)
Definition matches (r : Router) (path method : string) : bool :=
  match trees r !! method with
  | Some root =>
      match getValue_nil root path with
      | (Some _, _, _) => true
      | (None, _, _) => false
      end
  | None => false
  end.

(** [method] is probed for [path] on behalf of [reqMethod], and matches. *)
Definition probed (r : Router) (path reqMethod method : string) : bool :=
  negb (String.eqb method reqMethod || String.eqb method http.MethodOptions)
  && matches r path method.

(** One registration call, whatever its outcome, or an assignment to
    exported fields of the router between two registrations. *)
Inductive registration_step : Router -> Router -> Prop :=
| step_Handle ks method path handler opts r out r' :
    range_keys (set_trees (<[method := new_node]> (trees r)) r) ks ->
    Handle ks method path handler opts r = (out, r') ->
    registration_step r r'
| step_HandleFunc ks method path handle opts r out r' :
    range_keys (set_trees (<[method := new_node]> (trees r)) r) ks ->
    HandleFunc ks method path handle opts r = (out, r') ->
    registration_step r r'
| step_configure r r' :
    trees r' = trees r ->
    routes r' = routes r ->
    paramsPool_New r' = paramsPool_New r ->
    maxParams r' = maxParams r ->
    globalAllowed r' = globalAllowed r ->
    registration_step r r'.

(** A router after any sequence of registrations, from one that has no
    trie yet. *)
Definition registered (r : Router) : Prop :=
  exists r0, trees r0 = ∅ /\ globalAllowed r0 = ""
             /\ rtc registration_step r0 r.

Definition panics_in (site : panic_site) (out : registration) : Prop :=
  exists msg, out = Panicked site msg.

(** The cache is what a fresh [allowed("*", "")] computes. *)
Definition cache_fresh (r : Router) : Prop :=
  forall ks, range_keys r ks -> globalAllowed r = allowed ks r "*" "".

(** Every pooled pointer points to a cell. *)
Definition pool_valid (m : Mem) : Prop :=
  forall ps, ps ∈ pool m -> is_Some (cells m !! ps).

(** The fallback decided by the Allow set without the request method,
    that is, by the methods other than the request method and OPTIONS
    that have a handler for the path: a request that the first block
    neither routed nor redirected and the automatic OPTIONS reply did
    not answer gets the 405 part when method-not-allowed handling is
    on and there is such a method, and the 404 part otherwise. *)
Definition fallback_by_other_methods (ks : list string) (r : Router)
    (req : Request) (m : Mem) : Prop :=
  forall m',
    ServeHTTP_tree r req m = (Ok None, m') ->
    ~ (Method req = http.MethodOptions /\ HandleOPTIONS r = true
       /\ allowed ks r (Path (url req)) http.MethodOptions <> "") ->
    let others :=
      exists method, probed r (Path (url req)) (Method req) method = true in
    (HandleMethodNotAllowed r = true /\ others ->
     exists allow,
       ServeHTTP ks r req m =
         (Ok [Header_Set "Allow" allow;
              match MethodNotAllowed r with
              | Some h => Handler_ServeHTTP h req
              | None =>
                  http_Error (http.StatusText http.StatusMethodNotAllowed)
                             http.StatusMethodNotAllowed
              end], m'))
    /\ (~ (HandleMethodNotAllowed r = true /\ others) ->
        ServeHTTP ks r req m = (Ok (ServeHTTP_404 r req), m')).

(** Fixed-path redirection without regard to the method and the path:
    whenever the trie has no route, no trailing-slash redirect is due
    and the corrector finds a path, the answer is a redirect to it. *)
Definition fixed_path_redirect_unguarded (ks : list string) (r : Router)
    (req : Request) (m : Mem) : Prop :=
  forall root ps tsr m' fixedPath,
    trees r !! Method req = Some root ->
    getValue root (Path (url req)) (Some (getParams r)) m = (Ok (None, ps, tsr), m') ->
    tsr && RedirectTrailingSlash r = false ->
    RedirectFixedPath r = true ->
    findCaseInsensitivePath root (CleanPath (Path (url req))) (RedirectTrailingSlash r)
      = (fixedPath, true) ->
    ServeHTTP ks r req m =
      (Ok [http_Redirect (with_Path req fixedPath) (redirect_code (Method req))], m').

(** [Handle] panicking in its own body for no other reason than an
    empty method or a pattern that does not begin with ['/']. *)
Definition Handle_checks_method_and_path_only (ks : list string)
    (method path : string) (handler : option Handler)
    (opts : list RouteOption) (r : Router) : Prop :=
  panics_in in_Handle (Handle ks method path handler opts r).1
  <-> method = "" \/ bad_path path = true.

(** The call [Handle(method, path, ...)] passes its two checks and
    finds no trie for [method]. *)
Definition creates_trie (method path : string) (r : Router) : bool :=
  negb (String.eqb method "") && negb (bad_path path)
  && bool_decide (trees r !! method = None).

End Dispatcher.

(** ** The rest of router.go *)

(** [s[n:]], for [n] up to [len(s)]. *)
Fixpoint string_from (n : nat) (s : string) : string :=
  match n, s with
  | O, _ => s
  | S n', String _ s' => string_from n' s'
  | S _, EmptyString => EmptyString
  end.

(** Further net/http method names, for the shortcuts of the router. *)
Module httpMethod.
Definition Head : string := "HEAD".
Definition Post : string := "POST".
Definition Put : string := "PUT".
Definition Patch : string := "PATCH".
Definition Delete : string := "DELETE".
End httpMethod.

(** What [Router.URL] takes from route.go and from fmt: [route.URL(args...)],
    which returns a URL or an error, and the quoting of the verb [%q]. *)
Class RouteURLs `{Pkg : Package} := {
  URLValue : Type;
  Route_URL : Route -> list string -> URLValue + string;
  Quote : string -> string
}.

(** What [Router.ServeFiles] takes from net/http: file systems, and the
    function literal it registers, as a handler function over the file
    server of a file system. *)
Class FileServing `{Pkg : Package} := {
  FileSystem : Type;
  ServeFiles_func : FileSystem -> HandlerFunc
}.

Section RouterRest.

Context `{Pkg : Package} `{Rt : Runtime}.
Context `{Urls : !RouteURLs} `{Files : !FileServing}.

(** The parameters read in store [m] through the slice that a request
    carries; a nil slice has none. *)
Definition params_of (m : Mem) (ps : option Params) : list Param :=
  match ps with
  | None => []
  | Some s => view m s
  end.

(** [Router.URL] *)
Definition Router_URL (r : Router) (name : string) (args : list string)
  : URLValue + string :=
  match routes r !! name with
  | Some route => Route_URL route args
  | None => inr ("route " +:+ Quote name +:+ " does not exist")
  end.

(** [Router.Get]: the only shortcut that passes its options on. *)
Definition Router_Get (ks : list string) (path : string)
    (handle : option HandlerFunc) (opts : list RouteOption) (r : Router)
  : registration * Router :=
  HandleFunc ks http.MethodGet path handle opts r.

(** [Router.Head], [Options], [Post], [Put], [Patch] and [Delete] call
    [HandleFunc] without their options. *)
Definition Router_Head (ks : list string) (path : string)
    (handle : option HandlerFunc) (opts : list RouteOption) (r : Router)
  : registration * Router :=
  HandleFunc ks httpMethod.Head path handle [] r.

Definition Router_Options (ks : list string) (path : string)
    (handle : option HandlerFunc) (opts : list RouteOption) (r : Router)
  : registration * Router :=
  HandleFunc ks http.MethodOptions path handle [] r.

Definition Router_Post (ks : list string) (path : string)
    (handle : option HandlerFunc) (opts : list RouteOption) (r : Router)
  : registration * Router :=
  HandleFunc ks httpMethod.Post path handle [] r.

Definition Router_Put (ks : list string) (path : string)
    (handle : option HandlerFunc) (opts : list RouteOption) (r : Router)
  : registration * Router :=
  HandleFunc ks httpMethod.Put path handle [] r.

Definition Router_Patch (ks : list string) (path : string)
    (handle : option HandlerFunc) (opts : list RouteOption) (r : Router)
  : registration * Router :=
  HandleFunc ks httpMethod.Patch path handle [] r.

Definition Router_Delete (ks : list string) (path : string)
    (handle : option HandlerFunc) (opts : list RouteOption) (r : Router)
  : registration * Router :=
  HandleFunc ks httpMethod.Delete path handle [] r.

(** [len(path) < 10 || path[len(path)-10:] != "/*filepath"] *)
Definition bad_files_path (path : string) : bool :=
  (GoString.len path <? 10)%nat
  || negb (String.eqb (string_from (GoString.len path - 10) path) "/*filepath").

(** [Router.ServeFiles]: [inl] of the message when it panics itself,
    [inr] of the outcome of [r.Get] otherwise. *)
Definition ServeFiles (ks : list string) (path : string) (root : FileSystem)
    (r : Router) : (string + registration) * Router :=
  if bad_files_path path
  then (inl ("path must end with /*filepath in path '" +:+ path +:+ "'"), r)
  else
    let '(out, r') := Router_Get ks path (Some (ServeFiles_func root)) [] r in
    (inr out, r').

(** *** The stages of [Handle] *)

(** The trie of the method, created when it is not there yet, with the
    refresh of the cache that goes with the creation. *)
Definition Handle_tree (ks : list string) (method : string) (r : Router)
  : node * Router :=
  match trees r !! method with
  | Some root => (root, r)
  | None =>
      let r := set_trees (<[method := new_node]> (trees r)) r in
      (new_node, set_globalAllowed (allowed ks r "*" "") r)
  end.

(** The entry of a named route into [r.routes]; [None] when the name is
    taken. *)
Definition Handle_name (route : Route) (r : Router) : option Router :=
  if negb (String.eqb (Route_name route) "")
  then
    match routes r !! Route_name route with
    | Some _ => None
    | None => Some (set_routes (<[Route_name route := route]> (routes r)) r)
    end
  else Some r.

(** The update of [maxParams] and of [paramsPool.New]. *)
Definition Handle_pool (path : string) (r : Router) : Router :=
  let r :=
    if (maxParams r <? countParams path)%Z
    then set_maxParams (countParams path) r else r in
  if negb (paramsPool_New r) && (0 <? maxParams r)%Z
  then set_paramsPool_New true r else r.

(** [Handle], stage by stage. *)
Definition Handle_staged (ks : list string) (method path : string)
    (handler : option Handler) (opts : list RouteOption) (r : Router)
  : registration * Router :=
  if String.eqb method "" then (Panicked in_Handle "method must not be empty", r)
  else if bad_path path
  then (Panicked in_Handle ("path must begin with '/' in path '" +:+ path +:+ "'"), r)
  else
    let '(root, r) := Handle_tree ks method r in
    let route := newRoute path handler opts in
    match Handle_name route r with
    | None =>
        (Panicked in_Handle
           ("route name " +:+ Route_name route +:+ " is already registered"), r)
    | Some r =>
        let '(root', failure) := addRoute root path route in
        let r := set_trees (<[method := root']> (trees r)) r in
        match failure with
        | Some msg => (Panicked in_addRoute msg, r)
        | None => (Registered, Handle_pool path r)
        end
    end.

(** *** Well-formed stores *)

(** The cell [ps] holds a slice within its capacity over an array that
    is there and long enough. *)
Definition cell_ok (m : Mem) (ps : loc) : Prop :=
  exists s arr,
    cells m !! ps = Some s /\ arrays m !! data s = Some arr
    /\ (len s <= cap s)%nat /\ (cap s <= length arr)%nat.

(** The store with [ps] put into the pool as well. *)
Definition with_pooled (ps : loc) (m : Mem) : Mem := (paramsPool_Put ps m).2.

(** Locations in use lie below [next]; the pool holds every buffer
    once, each pooled cell is good, and no two pooled cells share a
    backing array. *)
Definition store_ok (m : Mem) : Prop :=
  (forall a, is_Some (arrays m !! a) -> (a < next m)%nat)
  /\ (forall c, is_Some (cells m !! c) -> (c < next m)%nat)
  /\ (forall ps, ps ∈ pool m -> cell_ok m ps)
  /\ NoDup (pool m)
  /\ (forall p q sp sq,
        p ∈ pool m -> q ∈ pool m ->
        cells m !! p = Some sp -> cells m !! q = Some sq ->
        data sp = data sq -> p = q).

(** The location [a] is in use and is not the backing array of a
    pooled buffer. *)
Definition unpooled (m : Mem) (a : loc) : Prop :=
  (a < next m)%nat
  /\ forall ps s, ps ∈ pool m -> cells m !! ps = Some s -> data s <> a.

(** What is read through the slice in cell [ps]. *)
Definition cell_view (m : Mem) (ps : loc) : list Param :=
  match cells m !! ps with
  | Some s => view m s
  | None => []
  end.

(** Every buffer that [getParams] can hand out has room for [n]
    parameters: the pooled ones, and the ones that [paramsPool.New]
    makes with capacity [maxParams]. *)
Definition buffers_hold (r : Router) (m : Mem) (n : nat) : Prop :=
  (n <= Z.to_nat (maxParams r))%nat
  /\ forall ps s, ps ∈ pool m -> cells m !! ps = Some s -> (n <= cap s)%nat.

(** The step from [m] to [m'] leaves alone every array that is not the
    backing array of a pooled buffer, and pools none of them. *)
Definition keeps_unpooled (m m' : Mem) : Prop :=
  forall a, unpooled m a -> unpooled m' a /\ arrays m' !! a = arrays m !! a.

(** One call of [ServeHTTP] or of [Lookup] over the store, with any
    router and request and whatever its outcome. *)
Inductive dispatch_step : Mem -> Mem -> Prop :=
| step_ServeHTTP ks r req out m m' :
    ServeHTTP ks r req m = (out, m') -> dispatch_step m m'
| step_Lookup r method path out m m' :
    Lookup r method path m = (out, m') -> dispatch_step m m'.

End RouterRest.


(** * The trie of tree.go and the normalizer of path.go

    router.go calls into tree.go, route.go and path.go, none of which is
    at hand.  Every definition of this module is modelled from the design
    document of the package (its sections 3, 4.1 to 4.4 and 7); together
    they give the dispatcher a concrete trie to run on. *)

Module Trie.

(** Modelled from the spec: the [Route] of route.go, with the two
    fields router.go reads and the registered pattern.  Handlers are
    opaque to the router and are named by numbers. *)
Record Route := {
  route_path : string;
  route_name : string;
  route_handler : option nat
}.

(** Modelled from the spec: the route options of route.go; naming a
    route is the one option router.go depends on. *)
Inductive RouteOption := RouteName (name : string).

(** Modelled from the spec: [newRoute] of route.go, which applies the
    options to a route for [path] and [handler]. *)
Definition newRoute (path : string) (handler : option nat)
    (opts : list RouteOption) : Route :=
  fold_left
    (fun rt opt =>
       match opt with
       | RouteName name =>
           {| route_path := route_path rt; route_name := name;
              route_handler := route_handler rt |}
       end)
    opts
    {| route_path := path; route_name := ""; route_handler := handler |}.

(** *** Byte-string helpers *)

(** Modelled from the spec: a step of the matcher of tree.go (section
    4.2, the fragment as a required literal prefix).  [strip_prefix f p] is
    the rest of [p] when [f] is a prefix of it. *)
Fixpoint strip_prefix (f p : string) : option string :=
  match f, p with
  | EmptyString, _ => Some p
  | String a f', String b p' => if Ascii.eqb a b then strip_prefix f' p' else None
  | String _ _, EmptyString => None
  end.

(** Modelled from the spec: a step of the insertion of tree.go (section
    4.1): the longest common prefix of [a] and [b], with what is left of
    each. *)
Fixpoint lcp (a b : string) : string * string * string :=
  match a, b with
  | String x a', String y b' =>
      if Ascii.eqb x y
      then let '(c, ra, rb) := lcp a' b' in (String x c, ra, rb)
      else (EmptyString, a, b)
  | _, _ => (EmptyString, a, b)
  end.

(** Modelled from the spec: a step of the matcher of tree.go (section
    4.2, a parameter's value): the bytes up to (not including) the next
    ['/'], and the rest. *)
Fixpoint span_segment (p : string) : string * string :=
  match p with
  | EmptyString => (EmptyString, EmptyString)
  | String c p' =>
      if Ascii.eqb c "/"%char then (EmptyString, p)
      else let '(v, rest) := span_segment p' in (String c v, rest)
  end.

(** Modelled from the spec: the case folding of tree.go's corrector
    (section 4.3), on ASCII letters. *)
Definition lower (c : ascii) : ascii :=
  let n := N_of_ascii c in
  if ((65 <=? n) && (n <=? 90))%N then ascii_of_N (n + 32) else c.

(** Modelled from the spec: [lower] on every byte (tree.go, section 4.3). *)
Fixpoint lower_string (s : string) : string :=
  match s with
  | EmptyString => EmptyString
  | String c s' => String (lower c) (lower_string s')
  end.

(** Modelled from the spec: [strip_prefix] ignoring case (tree.go,
    section 4.3). *)
Fixpoint strip_prefix_fold (f p : string) : option string :=
  match f, p with
  | EmptyString, _ => Some p
  | String a f', String b p' =>
      if Ascii.eqb (lower a) (lower b) then strip_prefix_fold f' p' else None
  | String _ _, EmptyString => None
  end.

(** *** Nodes *)

(** Modelled from the spec: the node kinds of tree.go (section 3). *)
Inductive kind := static | param | catchAll | root.

(** Modelled from the spec: the trie node of tree.go (data model,
    section 3): the static children are [children], indexed by the
    first byte of their fragments in [staticIndex]; the wildcard child,
    when there is one, is [wildChild]. *)
Inductive Node := mkNode {
  fragment : string;
  nkind : kind;
  paramName : string;
  priority : nat;
  staticIndex : list ascii;
  children : list Node;
  wildChild : option Node;
  handler : option Route;
  pattern : string
}.

(** Modelled from the spec: the zero node of tree.go that [new(node)]
    yields, the root of an empty trie. *)
Definition new_node : Node :=
  mkNode "" root "" 0 [] [] None None "".

(** Modelled from the spec: whether a route ends at the node (tree.go,
    section 3, [handler]). *)
Definition has_handler (n : Node) : bool :=
  match handler n with Some _ => true | None => false end.

(** Modelled from the spec: trailing-slash hint (b) of tree.go (section
    4.2): appending ['/'] lands on a child of [n] that carries a handler,
    a static child whose fragment is ["/"] or a catch-all. *)
Definition slash_child (n : Node) : bool :=
  existsb (fun c => String.eqb (fragment c) "/" && has_handler c) (children n)
  || match wildChild n with
     | Some w => match nkind w with catchAll => has_handler w | _ => false end
     | None => false
     end.

(** *** Matcher *)

(** Modelled from the spec: trailing-slash hint (a) of tree.go (section
    4.2): the lookup below failed, the path that remained here was
    exactly ["/"] and this node carries a handler. *)
Definition or_slash_here (rest : string) (here : bool)
    (out : option Route * list Param * bool) : option Route * list Param * bool :=
  match out with
  | (None, ps, tsr) => (None, ps, tsr || (String.eqb rest "/" && here))
  | found => found
  end.

(** Modelled from the spec: the walk of [node.getValue] (section 4.2).
    [walk n path ps] matches [path] from node [n] on, [ps] holding the
    parameters bound so far.  The result is the route, the parameters
    and the trailing-slash hint. *)
Fixpoint walk (n : Node) (path : string) (ps : list Param)
  {struct n} : option Route * list Param * bool :=
  match n with
  | mkNode frag k name _ idx cs wild h _ =>
      let here := match h with Some _ => true | None => false end in
      (* what this node consumes of the path *)
      let entered : (string * list Param) + (option Route * list Param * bool) :=
        match k with
        | param =>
            let '(v, rest) := span_segment path in
            inl (rest, ps ++ [{| Key := name; Value := v |}])
        | catchAll =>
            inr (h, ps ++ [{| Key := name; Value := path |}], false)
        | _ =>
            match strip_prefix frag path with
            | Some rest => inl (rest, ps)
            | None =>
                (* hint (b): one more ['/'] lands exactly on this node *)
                inr (None, ps, String.eqb (path +:+ "/") frag && here)
            end
        end in
      match entered with
      | inr out => out
      | inl (rest, ps) =>
          match rest with
          | EmptyString =>
              match h with
              | Some rt => (Some rt, ps, false)
              | None => (None, ps, slash_child n)
              end
          | String c _ =>
              let fix dispatch (cs : list Node) (idx : list ascii) {struct cs}
                : option (option Route * list Param * bool) :=
                match cs, idx with
                | ch :: cs', i :: idx' =>
                    if Ascii.eqb i c then Some (walk ch rest ps)
                    else dispatch cs' idx'
                | _, _ => None
                end in
              or_slash_here rest here
                (match dispatch cs idx with
                 | Some out => out
                 | None =>
                     match wild with
                     | Some w => walk w rest ps
                     | None => (None, ps, false)
                     end
                 end)
          end
      end
  end.

(** Modelled from the spec: the walk of tree.go's [getValue] from the
    root, with no parameter bound yet. *)
Definition lookup (n : Node) (path : string) : option Route * list Param * bool :=
  walk n path [].

(** *** Registration *)

(** Modelled from the spec: the registration-time failures of tree.go
    (section 7). *)
Inductive ConfigurationError :=
| DuplicateRoute
| WildcardConflict
| InvalidCatchAllPosition
| AmbiguousBranch.

(** Modelled from the spec: the text of a registration panic of
    tree.go (section 7 names the failures, not their wording). *)
Definition error_text (e : ConfigurationError) : string :=
  match e with
  | DuplicateRoute => "duplicate route"
  | WildcardConflict => "wildcard conflict"
  | InvalidCatchAllPosition => "catch-all is not the final segment"
  | AmbiguousBranch => "static and wildcard children at one branch"
  end.

(** Modelled from the spec: the pieces of a pattern as tree.go reads it
    (section 4.1): static text, [:name] and [*name].  A catch-all takes
    the ['/'] in front of it along, so that its value starts at that
    separator (section 8). *)
Inductive token := Lit (s : string) | Par (name : string) | All (name : string).

(** Modelled from the spec: the two wildcard markers of tree.go
    (section 4.1). *)
Definition is_wild (c : ascii) : bool :=
  Ascii.eqb c ":"%char || Ascii.eqb c "*"%char.

(** Modelled from the spec: whether a wildcard of the pattern starts
    here (tree.go, section 4.1). *)
Definition wild_start (p : string) : bool :=
  match p with
  | String c (String d _) => is_wild c || (Ascii.eqb c "/"%char && Ascii.eqb d "*"%char)
  | String c EmptyString => is_wild c
  | EmptyString => false
  end.

(** Modelled from the spec: a scanned piece in front of the others,
    empty static text left out (tree.go, section 4.1). *)
Definition emit (t : token) (ts : list token) : list token :=
  match t with
  | Lit EmptyString => ts
  | _ => t :: ts
  end.

(** Modelled from the spec: one more byte of the piece under way
    (tree.go, section 4.1). *)
Definition snoc (s : string) (c : ascii) : string := s +:+ String c EmptyString.

(** Modelled from the spec: the static text in front of a catch-all,
    without the separator the catch-all takes along (tree.go, sections
    4.1 and 8). *)
Definition drop_slash (s : string) : string :=
  if bool_decide (GoString.last s = Some "/"%char) then GoString.init s else s.

(** Modelled from the spec: the reading of a pattern by tree.go (section
    4.1, with conflict rule 3).  [scan p cur] is the tokens of [p], [cur]
    being the token under way. *)
Fixpoint scan (p : string) (cur : token) : list token + ConfigurationError :=
  match p with
  | EmptyString =>
      match cur with
      | Par EmptyString | All EmptyString => inr WildcardConflict
      | _ => inl (emit cur [])
      end
  | String c p' =>
      match cur with
      | Lit acc =>
          if Ascii.eqb c ":"%char
          then match scan p' (Par "") with
               | inl ts => inl (emit (Lit acc) ts)
               | inr e => inr e
               end
          else if Ascii.eqb c "*"%char
          then match scan p' (All "") with
               | inl ts => inl (emit (Lit (drop_slash acc)) ts)
               | inr e => inr e
               end
          else scan p' (Lit (snoc acc c))
      | Par acc =>
          if is_wild c then inr WildcardConflict
          else if Ascii.eqb c "/"%char
          then match acc with
               | EmptyString => inr WildcardConflict
               | _ => match scan p' (Lit "/") with
                      | inl ts => inl (Par acc :: ts)
                      | inr e => inr e
                      end
               end
          else scan p' (Par (snoc acc c))
      | All acc =>
          if is_wild c then inr WildcardConflict
          else if Ascii.eqb c "/"%char then inr InvalidCatchAllPosition
          else scan p' (All (snoc acc c))
      end
  end.

(** Modelled from the spec: the fresh nodes of tree.go's insertion
    (section 4.1) for the tokens of a new branch; [None] for no tokens.
    The last node carries the handler. *)
Fixpoint build (ts : list token) (full : string) (rt : Route) : option Node :=
  match ts with
  | [] => None
  | Lit s :: ts' =>
      match build ts' full rt with
      | None => Some (mkNode s static "" 1 [] [] None (Some rt) full)
      | Some w => Some (mkNode s static "" 1 [] [] (Some w) None "")
      end
  | Par name :: ts' =>
      match build ts' full rt with
      | None => Some (mkNode "" param name 1 [] [] None (Some rt) full)
      | Some c => Some (mkNode "" param name 1 ["/"%char] [c] None None "")
      end
  | All name :: _ => Some (mkNode "" catchAll name 1 [] [] None (Some rt) full)
  end.

(** Modelled from the spec: the priority bookkeeping of tree.go (section
    4.1): stable insertion of a child into siblings that are in
    descending order of priority. *)
Fixpoint place (x : ascii * Node) (l : list (ascii * Node)) : list (ascii * Node) :=
  match l with
  | [] => [x]
  | y :: l' =>
      if (priority (snd y) <? priority (snd x))%nat then x :: l
      else y :: place x l'
  end.

(** Modelled from the spec: the children re-sorted by descending
    priority (tree.go, section 4.1). *)
Definition by_priority (l : list (ascii * Node)) : list (ascii * Node) :=
  fold_left (fun sorted x => place x sorted) l [].

(** Modelled from the spec: tree.go's insertion where no child takes
    the remaining pattern [rest] (section 4.1, conflict rules 2 and 4):
    a new branch below [n]. *)
Definition attach (n : Node) (rest full : string) (rt : Route)
  : Node + ConfigurationError :=
  match scan rest (Lit "") with
  | inr e => inr e
  | inl ts =>
      match build ts full rt with
      | None => inr DuplicateRoute
      | Some b =>
          if wild_start rest
          then match children n, wildChild n with
               | [], None =>
                   inl (mkNode (fragment n) (nkind n) (paramName n) (S (priority n))
                          [] [] (Some b) (handler n) (pattern n))
               | _ :: _, _ => inr AmbiguousBranch
               | [], Some _ => inr WildcardConflict
               end
          else match wildChild n, GoString.first rest with
               | None, Some c =>
                   inl (mkNode (fragment n) (nkind n) (paramName n) (S (priority n))
                          (staticIndex n ++ [c]) (children n ++ [b])
                          None (handler n) (pattern n))
               | _, _ => inr WildcardConflict
               end
      end
  end.

(** Modelled from the spec: [node.addRoute] of tree.go (section 4.1).
    [insert_at n p full rt] registers the remaining pattern [p] of the
    pattern [full] at node [n]. *)
Fixpoint insert_at (n : Node) (p full : string) (rt : Route) {struct n}
  : Node + ConfigurationError :=
  match n with
  | mkNode frag k name prio idx cs wild h pat =>
      (* what the node takes of the pattern: [inl] of the pattern left
         below this node, or the result when the node is split or in
         conflict *)
      let entered : string + (Node + ConfigurationError) :=
        match k with
        | param =>
            let '(seg, rest) := span_segment p in
            if String.eqb seg (":" +:+ name) then inl rest
            else inr (inr WildcardConflict)
        | catchAll =>
            if String.eqb p ("*" +:+ name) || String.eqb p ("/*" +:+ name)
            then inr (inr DuplicateRoute)
            else inr (inr WildcardConflict)
        | _ =>
            let '(common, prest, frest) := lcp p frag in
            match frest with
            | EmptyString => inl prest
            | String fc _ =>
                let lower_half := mkNode frest static "" prio idx cs wild h pat in
                match prest with
                | EmptyString =>
                    inr (inl (mkNode common k "" (S prio) [fc] [lower_half]
                                None (Some rt) full))
                | _ =>
                    inr (attach (mkNode common k "" prio [fc] [lower_half]
                                   None None "")
                                prest full rt)
                end
            end
        end in
      match entered with
      | inr out => out
      | inl EmptyString =>
          match h with
          | Some _ => inr DuplicateRoute
          | None => inl (mkNode frag k name (S prio) idx cs wild (Some rt) full)
          end
      | inl (String c _ as rest) =>
          if wild_start rest
          then
            match wild with
            | Some w =>
                match insert_at w rest full rt with
                | inl w' => inl (mkNode frag k name (S prio) idx cs (Some w') h pat)
                | inr e => inr e
                end
            | None => attach n rest full rt
            end
          else
            let fix update (cs : list Node) (idx : list ascii) {struct cs}
              : option (list Node + ConfigurationError) :=
              match cs, idx with
              | ch :: cs', i :: idx' =>
                  if Ascii.eqb i c
                  then Some match insert_at ch rest full rt with
                            | inl ch' => inl (ch' :: cs')
                            | inr e => inr e
                            end
                  else match update cs' idx' with
                       | Some (inl l) => Some (inl (ch :: l))
                       | other => other
                       end
              | _, _ => None
              end in
            match wild, update cs idx with
            | Some _, _ => inr WildcardConflict
            | None, Some (inr e) => inr e
            | None, Some (inl cs') =>
                let sorted := by_priority (zip idx cs') in
                inl (mkNode frag k name (S prio) (sorted.*1) (sorted.*2) None h pat)
            | None, None => attach n rest full rt
            end
      end
  end.

(** Modelled from the spec: [node.addRoute] of tree.go as router.go
    calls it.  The pattern is checked as a whole before it is inserted; a
    failed registration leaves the trie as it was. *)
Definition addRoute (n : Node) (path : string) (rt : Route) : Node * option string :=
  let result :=
    match scan path (Lit "") with
    | inr e => inr e
    | inl _ => insert_at n path path rt
    end in
  match result with
  | inl n' => (n', None)
  | inr e => (n, Some (error_text e +:+ " in path '" +:+ path +:+ "'"))
  end.

(** Modelled from the spec: the wildcards of a pattern, counted for
    tree.go's [countParams] (section 3, the pool's size). *)
Fixpoint count_wild (p : string) : nat :=
  match p with
  | EmptyString => 0
  | String c p' => if is_wild c then S (count_wild p') else count_wild p'
  end.

(** Modelled from the spec: [countParams] of tree.go, the number of
    wildcards of a pattern, as a uint16. *)
Definition countParams (p : string) : Z := Z.of_nat (count_wild p) mod 65536.

(** *** Case-insensitive correction *)

(** Modelled from the spec: the corrector of tree.go finding nothing
    (section 4.3). *)
Definition not_found : string * bool := (EmptyString, false).

(** Modelled from the spec: [node.findCaseInsensitivePath] of tree.go
    (section 4.3).  [fold_walk n path acc fixTS] walks like the matcher
    but compares fragments ignoring case; [acc] is the corrected path
    so far, in the casing stored in the trie.  With [fixTS] one
    trailing slash may be added or dropped at the point of failure. *)
Fixpoint fold_walk (n : Node) (path acc : string) (fixTS : bool)
  {struct n} : string * bool :=
  match n with
  | mkNode frag k name _ idx cs wild h _ =>
      let here := match h with Some _ => true | None => false end in
      let entered : (string * string) + (string * bool) :=
        match k with
        | param =>
            let '(v, rest) := span_segment path in inl (rest, acc +:+ v)
        | catchAll =>
            inr (if here then (acc +:+ path, true) else not_found)
        | _ =>
            match strip_prefix_fold frag path with
            | Some rest => inl (rest, acc +:+ frag)
            | None =>
                inr (if fixTS && here
                        && String.eqb (lower_string (path +:+ "/")) (lower_string frag)
                     then (acc +:+ frag, true) else not_found)
            end
        end in
      match entered with
      | inr out => out
      | inl (rest, acc) =>
          match rest with
          | EmptyString =>
              if here then (acc, true)
              else if fixTS && slash_child n then (acc +:+ "/", true)
              else not_found
          | String c _ =>
              let fix dispatch (cs : list Node) (idx : list ascii) {struct cs}
                : option (string * bool) :=
                match cs, idx with
                | ch :: cs', i :: idx' =>
                    if Ascii.eqb (lower i) (lower c)
                    then Some (fold_walk ch rest acc fixTS)
                    else dispatch cs' idx'
                | _, _ => None
                end in
              let below :=
                match dispatch cs idx with
                | Some out => out
                | None =>
                    match wild with
                    | Some w => fold_walk w rest acc fixTS
                    | None => not_found
                    end
                end in
              match below with
              | (_, true) => below
              | (_, false) =>
                  if fixTS && here && String.eqb rest "/" then (acc, true)
                  else not_found
              end
          end
      end
  end.

(** Modelled from the spec: [node.findCaseInsensitivePath] of tree.go,
    the corrector from the root with nothing accumulated yet. *)
Definition findCaseInsensitivePath (n : Node) (path : string) (fixTrailingSlash : bool)
  : string * bool :=
  fold_walk n path "" fixTrailingSlash.

(** *** Path normalization *)

(** Modelled from the spec: a step of [CleanPath] of path.go (section
    4.4): the segments of [p] between its ['/'] separators. *)
Fixpoint split_slash (p cur : string) : list string :=
  match p with
  | EmptyString => [cur]
  | String c p' =>
      if Ascii.eqb c "/"%char then cur :: split_slash p' ""
      else split_slash p' (snoc cur c)
  end.

(** Modelled from the spec: a step of [CleanPath] of path.go (section
    4.4): [.] and empty segments vanish, [..] takes the last segment
    back. *)
Definition resolve (stack : list string) (seg : string) : list string :=
  if String.eqb seg "" || String.eqb seg "." then stack
  else if String.eqb seg ".." then removelast stack
  else stack ++ [seg].

(** Modelled from the spec: [CleanPath] of path.go (section 4.4):
    repeated separators collapse, [.] and [..] are resolved lexically,
    the result begins with ['/'] and keeps a trailing separator that
    the input had unless the result is the root. *)
Definition CleanPath (p : string) : string :=
  let segs := split_slash p "" in
  let stack := fold_left resolve segs [] in
  let trailing :=
    match List.last segs "x" with
    | EmptyString => negb (String.eqb p "")
    | seg => String.eqb seg "."
    end in
  match stack with
  | [] => "/"
  | _ => "/" +:+ GoString.Join stack "/" +:+ (if trailing then "/" else "")
  end.

End Trie.

(** ** The package, as router.go sees it *)

#[export] Instance trie_package : Package := {|
  Handler := nat;
  HandlerFunc := nat;
  RouteOption := Trie.RouteOption;
  Route := Trie.Route;
  node := Trie.Node;
  HandlerFunc_conv := fun f => f;
  Route_name := Trie.route_name;
  Route_handler := Trie.route_handler;
  newRoute := Trie.newRoute;
  new_node := Trie.new_node;
  addRoute := Trie.addRoute;
  countParams := Trie.countParams;
  lookup := Trie.lookup;
  findCaseInsensitivePath := Trie.findCaseInsensitivePath;
  CleanPath := Trie.CleanPath
|}.

(** A pool that hands out the item put last, as a goroutine finds it in
    its own slot of a [sync.Pool]. *)
#[export] Instance last_put : Runtime :=
  fun m => match pool m with [] => None | _ :: _ => Some 0%nat end.


(** Modelled from the spec: [Route.URL] is in route.go, which is absent,
    and the design document leaves URL generation to it.  The stand-in
    that [Router.URL] is run with returns the pattern of the route as
    the path, whatever the arguments; the verb [%q] puts the name
    between double quotes. *)
#[export] Instance pattern_urls : RouteURLs := {|
  URLValue := URL;
  Route_URL := fun route _ => inl {| Path := Trie.route_path route; RawQuery := "" |};
  Quote := fun name =>
    String (ascii_of_nat 34) (name +:+ String (ascii_of_nat 34) "")
|}.

(** File systems named by numbers, as handlers are: the function literal
    that [ServeFiles] makes for the file system [n] is the handler [n]. *)
#[export] Instance numbered_files : FileServing := {|
  FileSystem := nat;
  ServeFiles_func := fun root => root
|}.

(** ** A trie and a router to run *)

Module Demo.

(** A route for [path] without options, its handler named [h]. *)
Definition route (path : string) (h : nat) : Trie.Route :=
  Trie.newRoute path (Some h) [].

(** [n.addRoute(path, route)], the trie afterwards. *)
Definition add (path : string) (h : nat) (n : Trie.Node) : Trie.Node :=
  (Trie.addRoute n path (route path h)).1.

(** The patterns of the examples of the design document. *)
Definition trie : Trie.Node :=
  add "/Foo" 6 (add "/bar/" 5 (add "/qux" 4 (add "/static/*filepath" 3
    (add "/users/:id/books/:bookId" 2 (add "/users" 1 Trie.new_node))))).

(** The store before any request. *)
Definition mem0 : Mem :=
  {| arrays := ∅; cells := ∅; pool := []; next := 0%nat |}.

(** [r.Handle(method, path, handler, opts...)], when it does not panic. *)
Definition handle (method path : string) (handler : nat)
    (opts : list Trie.RouteOption) (r : Router) : Router :=
  (Handle (keys (set_trees (<[method := new_node]> (trees r)) r))
          method path (Some handler) opts r).2.

(** <<
    router := NewRouter()
    router.Handle("GET", "/foo", h1)
    router.Handle("POST", "/foo", h2)
    router.Handle("GET", "/users/:id", h3, RouteName("user"))
    router.Handle("CONNECT", "/tunnel", h4)
    >> *)
Definition site : Router :=
  handle "CONNECT" "/tunnel" 4 []
    (handle "GET" "/users/:id" 3 [Trie.RouteName "user"]
       (handle "POST" "/foo" 2 []
          (handle "GET" "/foo" 1 [] NewRouter))).

Definition site_GET : Trie.Node :=
  Eval vm_compute in default Trie.new_node (trees site !! "GET").

Definition site_CONNECT : Trie.Node :=
  Eval vm_compute in default Trie.new_node (trees site !! "CONNECT").

Definition request (method path : string) : Request :=
  {| Method := method; url := {| Path := path; RawQuery := "" |};
     ctx_params := None; ctx_route := None |}.

(** A store in which the pool holds one buffer that its last user left
    with two parameters in it. *)
Definition used : Mem :=
  {| arrays := {[ 0%nat := [ {| Key := "id"; Value := "42" |};
                            {| Key := "bookId"; Value := "7" |} ] ]};
     cells := {[ 1%nat := {| data := 0%nat; len := 2%nat; cap := 2%nat |} ]};
     pool := [1%nat];
     next := 2%nat |}.

(** The slice value that the dispatch of GET /users/:id binds in the
    request context, and the store after one and after two such
    dispatches. *)
Definition held : Params := {| data := 0%nat; len := 1%nat; cap := 1%nat |}.

Definition after_first : Mem :=
  Eval vm_compute in
    (ServeHTTP (keys site) site (request "GET" "/users/42") mem0).2.

Definition after_second : Mem :=
  Eval vm_compute in
    (ServeHTTP (keys site) site (request "GET" "/users/7") after_first).2.

(** The store after a [Lookup] of GET /users/42 from the empty store,
    and after the dispatch of GET /users/7 that follows it. *)
Definition after_Lookup : Mem :=
  Eval vm_compute in (Lookup site "GET" "/users/42" mem0).2.

Definition after_Lookup_and_dispatch : Mem :=
  Eval vm_compute in
    (ServeHTTP (keys site) site (request "GET" "/users/7") after_Lookup).2.

(** <<
    router := NewRouter()
    router.Handle("GET", "/foo", h1)
    >> *)
Definition only_GET : Router := handle "GET" "/foo" 1 [] NewRouter.


End Demo.

(** * Properties *)

(** ** The trie on the examples of the design document (section 8) *)

Module TrieExamples.
Import Trie Demo.

Example exact_literal_match :
  lookup trie "/users" = (Some (route "/users" 1), [], false).
Proof. vm_compute. reflexivity. Qed.

Example duplicate_registration :
  (addRoute trie "/users" (route "/users" 7)).2
  = Some "duplicate route in path '/users'".
Proof. vm_compute. reflexivity. Qed.

Example parameter_ordering :
  lookup trie "/users/42/books/7"
  = (Some (route "/users/:id/books/:bookId" 2),
     [ {| Key := "id"; Value := "42" |}; {| Key := "bookId"; Value := "7" |} ],
     false).
Proof. vm_compute. reflexivity. Qed.

Example catch_all :
  lookup trie "/static/css/a.css"
  = (Some (route "/static/*filepath" 3),
     [ {| Key := "filepath"; Value := "/css/a.css" |} ], false).
Proof. vm_compute. reflexivity. Qed.

Example trailing_slash_hints :
  lookup trie "/qux/" = (None, [], true)
  /\ lookup trie "/bar" = (None, [], true)
  /\ lookup trie "/nothing/" = (None, [], false).
Proof. vm_compute. done. Qed.

Example case_correction :
  findCaseInsensitivePath trie "/foo" false = ("/Foo", true)
  /\ findCaseInsensitivePath trie "/BAR" false = ("", false)
  /\ findCaseInsensitivePath trie "/BAR" true = ("/bar/", true).
Proof. vm_compute. done. Qed.

Example path_normalization :
  CleanPath "/a/./b/../c//d" = "/a/c/d" /\ CleanPath "/.." = "/".
Proof. vm_compute. done. Qed.

Example catch_all_must_be_last :
  (addRoute trie "/files/*path/more" (route "/files/*path/more" 8)).2
  = Some "catch-all is not the final segment in path '/files/*path/more'".
Proof. vm_compute. reflexivity. Qed.

End TrieExamples.

(** ** The order on method names *)

Lemma ascii_compare_N (a b : ascii) :
  Ascii.compare a b = N.compare (N_of_ascii a) (N_of_ascii b).
Proof. reflexivity. Qed.

Lemma string_compare_refl (s : string) : String.compare s s = Eq.
Proof.
  induction s as [|c s IH]; simpl; [reflexivity|].
  rewrite ascii_compare_N, N.compare_refl. exact IH.
Qed.

Lemma string_compare_lt_trans (s1 s2 s3 : string) :
  String.compare s1 s2 = Lt -> String.compare s2 s3 = Lt ->
  String.compare s1 s3 = Lt.
Proof.
  revert s2 s3. induction s1 as [|c1 s1 IH]; intros [|c2 s2] [|c3 s3]; simpl;
    try congruence.
  rewrite !ascii_compare_N.
  destruct (N.compare_spec (N_of_ascii c1) (N_of_ascii c2)) as [E12|L12|G12];
    try congruence;
    destruct (N.compare_spec (N_of_ascii c2) (N_of_ascii c3)) as [E23|L23|G23];
    try congruence; intros H12 H23.
  - rewrite E12, E23, N.compare_refl. eauto.
  - rewrite E12. apply N.compare_lt_iff in L23. by rewrite L23.
  - rewrite <- E23. apply N.compare_lt_iff in L12. by rewrite L12.
  - assert (N_of_ascii c1 < N_of_ascii c3)%N as L by lia.
    apply N.compare_lt_iff in L. by rewrite L.
Qed.

Lemma str_le_iff (a b : string) : str_le a b <-> String.compare a b <> Gt.
Proof.
  unfold str_le, GoString.le, String.leb.
  destruct (String.compare a b); split; congruence.
Qed.

Lemma str_lt_iff (a b : string) : GoString.lt a b = true <-> String.compare a b = Lt.
Proof.
  unfold GoString.lt, String.ltb.
  destruct (String.compare a b); split; congruence.
Qed.

#[local] Instance str_le_refl : Reflexive str_le.
Proof. intros s. apply str_le_iff. rewrite string_compare_refl. congruence. Qed.

#[local] Instance str_le_trans : Transitive str_le.
Proof.
  intros a b c Hab Hbc. apply str_le_iff in Hab, Hbc. apply str_le_iff.
  destruct (String.compare a b) eqn:Eab; [| |congruence].
  - apply String.compare_eq_iff in Eab. by subst.
  - destruct (String.compare b c) eqn:Ebc; [| |congruence].
    + apply String.compare_eq_iff in Ebc. subst. rewrite Eab. congruence.
    + rewrite (string_compare_lt_trans a b c); congruence.
Qed.

#[local] Instance str_le_antisym : AntiSymm (=) str_le.
Proof. intros a b Hab Hba. by apply String.leb_antisym. Qed.

Lemma str_lt_le (a b : string) : GoString.lt a b = true -> str_le a b.
Proof. rewrite str_lt_iff, str_le_iff. congruence. Qed.

Lemma str_not_lt_le (a b : string) : GoString.lt a b = false -> str_le b a.
Proof.
  intros H. apply str_le_iff. rewrite String.compare_antisym.
  destruct (String.compare a b) eqn:E; simpl; try congruence.
  apply str_lt_iff in E. congruence.
Qed.

(** ** The in-place sort sorts *)

(** One run of the inner loop at index [length pre], over a sorted prefix
    [pre], moves [x] into place and leaves the rest of the slice alone. *)
Lemma sort_inner_spec (pre : list string) (x : string) (suf : list string) :
  StronglySorted str_le pre ->
  exists pre', sort_inner (length pre) (pre ++ x :: suf) = pre' ++ suf
            /\ pre' ≡ₚ pre ++ [x]
            /\ StronglySorted str_le pre'.
Proof.
  revert x suf. induction pre as [|b p IH] using rev_ind; intros x suf Hs.
  - exists [x]. simpl. repeat split; [done|]. repeat constructor.
  - rewrite length_app. simpl. replace (length p + 1)%nat with (S (length p)) by lia.
    cbn [sort_inner].
    assert (((p ++ [b]) ++ x :: suf) !! S (length p) = Some x) as ->.
    { rewrite <- (assoc_L (++)). simpl.
      rewrite lookup_app_r by lia. by replace (S (length p) - length p)%nat with 1%nat by lia. }
    assert (((p ++ [b]) ++ x :: suf) !! length p = Some b) as ->.
    { rewrite <- (assoc_L (++)). simpl.
      rewrite lookup_app_r by lia. by rewrite Nat.sub_diag. }
    apply StronglySorted_app in Hs as (Hpb & Hp & _).
    destruct (GoString.lt x b) eqn:Hlt.
    + assert (<[length p:=x]> (<[S (length p):=b]> ((p ++ [b]) ++ x :: suf))
              = p ++ x :: b :: suf) as ->.
      { rewrite <- (assoc_L (++)). simpl.
        rewrite (insert_app_r_alt _ _ (S (length p))) by lia.
        replace (S (length p) - length p)%nat with 1%nat by lia. simpl.
        rewrite insert_app_r_alt by lia. by rewrite Nat.sub_diag. }
      destruct (IH x (b :: suf) Hp) as (pre'' & Heq & Hperm & Hsorted).
      exists (pre'' ++ [b]). rewrite Heq. split; [by rewrite <- (assoc_L (++))|].
      split.
      * rewrite Hperm. rewrite <- !(assoc_L (++)). simpl.
        apply Permutation_app_head. apply perm_swap.
      * apply StronglySorted_app_2; [|done|repeat constructor].
        intros x1 x2 Hx1 Hx2. apply list_elem_of_singleton in Hx2 as ->.
        rewrite Hperm in Hx1. apply elem_of_app in Hx1 as [Hx1|Hx1].
        -- apply Hpb; [done|]. by apply list_elem_of_singleton.
        -- apply list_elem_of_singleton in Hx1 as ->. by apply str_lt_le.
    + exists ((p ++ [b]) ++ [x]). split; [by rewrite <- !(assoc_L (++))|].
      split; [done|].
      apply str_not_lt_le in Hlt.
      apply StronglySorted_app_2; [| |repeat constructor].
      * intros x1 x2 Hx1 Hx2. apply list_elem_of_singleton in Hx2 as ->.
        apply elem_of_app in Hx1 as [Hx1|Hx1].
        -- transitivity b; [|done]. apply Hpb; [done|]. by apply list_elem_of_singleton.
        -- by apply list_elem_of_singleton in Hx1 as ->.
      * apply StronglySorted_app_2; [done|done|repeat constructor].
Qed.

(** The outer loop, started with a sorted prefix of length [i]. *)
Lemma sort_outer_spec (suf pre : list string) :
  StronglySorted str_le pre ->
  exists l, sort_outer (length suf) (length pre) (pre ++ suf) = l
         /\ l ≡ₚ pre ++ suf
         /\ StronglySorted str_le l.
Proof.
  revert pre. induction suf as [|x suf IH]; intros pre Hs.
  - exists pre. simpl. by rewrite (right_id_L [] (++)).
  - simpl.
    destruct (sort_inner_spec pre x suf Hs) as (pre' & Heq & Hperm & Hsorted).
    rewrite Heq.
    assert (S (length pre) = length pre') as ->.
    { rewrite Hperm, length_app. simpl. lia. }
    destruct (IH pre' Hsorted) as (l & Hl & Hlp & Hls).
    exists l. split; [done|]. split; [|done].
    rewrite Hlp, Hperm. by rewrite <- (assoc_L (++)).
Qed.

Lemma sort_allowed_spec (a : list string) :
  sort_allowed a ≡ₚ a /\ StronglySorted str_le (sort_allowed a).
Proof.
  unfold sort_allowed. destruct a as [|x a]; [split; [done|constructor]|].
  simpl. rewrite Nat.sub_0_r.
  destruct (sort_outer_spec a [x]) as (l & Hl & Hp & Hs); [repeat constructor|].
  simpl in Hl. rewrite Hl. done.
Qed.

(** Whatever the order in which the methods were collected, the sorted
    slice is the same. *)
Lemma sort_allowed_perm (a b : list string) :
  a ≡ₚ b -> sort_allowed a = sort_allowed b.
Proof.
  intros Hab.
  destruct (sort_allowed_spec a) as [Ha Hsa], (sort_allowed_spec b) as [Hb Hsb].
  apply (StronglySorted_unique str_le); [done|done|].
  by rewrite Ha, Hb.
Qed.

(** ** Byte strings *)

Lemma app_String (c : ascii) (s t : string) :
  String c s +:+ t = String c (s +:+ t).
Proof. reflexivity. Qed.

Lemma app_Empty (t : string) : "" +:+ t = t.
Proof. reflexivity. Qed.

Lemma snoc_not_Empty (p : string) (c : ascii) : p +:+ String c "" <> "".
Proof. destruct p; [rewrite app_Empty|rewrite app_String]; discriminate. Qed.

Lemma last_snoc (p : string) (c : ascii) :
  GoString.last (p +:+ String c "") = Some c.
Proof.
  induction p as [|a p IH]; [done|].
  rewrite app_String. simpl.
  destruct (p +:+ String c "") eqn:E; [|done].
  by apply snoc_not_Empty in E.
Qed.

Lemma init_snoc (p : string) (c : ascii) :
  GoString.init (p +:+ String c "") = p.
Proof.
  induction p as [|a p IH]; [done|].
  rewrite app_String. simpl.
  destruct (p +:+ String c "") eqn:E.
  - by apply snoc_not_Empty in E.
  - by rewrite IH.
Qed.

Lemma last_Some_snoc (s : string) (c : ascii) :
  GoString.last s = Some c -> s = GoString.init s +:+ String c "".
Proof.
  induction s as [|a s IH]; [done|].
  simpl. destruct s as [|b s]; [by intros [= ->]|].
  intros H. rewrite app_String. f_equal. by apply IH.
Qed.

Lemma len_snoc (p : string) (c : ascii) :
  GoString.len (p +:+ String c "") = S (GoString.len p).
Proof.
  unfold GoString.len. induction p as [|a p IH]; [done|].
  rewrite app_String. simpl. by f_equal.
Qed.

(** ** The dispatcher *)

Section DispatcherProperties.

Context `{Pkg : Package} `{Rt : Runtime}.

(** *** The pool *)

Lemma getParams_returns (r : Router) (m : Mem) :
  paramsPool_New r = true -> pool_valid m ->
  exists ps m', getParams r m = (Ok ps, m').
Proof.
  intros Hnew Hvalid. unfold getParams, bind, paramsPool_Get.
  assert (exists ps m', (let! ps := new_Params (Z.to_nat (maxParams r)) in
                         ret (Some ps)) m = (Ok (Some ps), m')
                        /\ is_Some (cells m' !! ps)) as (ps0 & m0 & Hfresh & Hcell).
  { eexists _, _. split; [reflexivity|]. simpl. rewrite lookup_insert_eq. eauto. }
  assert (forall ps m1, is_Some (cells m1 !! ps) ->
            exists ps' m', (let! s := load ps in
               let! _ := store ps {| data := data s; len := 0; cap := cap s |} in
               ret ps) m1 = (Ok ps', m')) as Hreset.
  { intros ps m1 [s Hs]. unfold bind, load. rewrite Hs. simpl. eauto. }
  destruct (pick m) as [i|].
  - destruct (pool m !! i) as [ps|] eqn:Hi.
    + apply Hreset. simpl. apply Hvalid. by eapply list_elem_of_lookup_2.
    + rewrite Hnew, Hfresh. by apply Hreset.
  - rewrite Hnew, Hfresh. by apply Hreset.
Qed.

Lemma getParams_empty (r : Router) (m m' : Mem) (ps : loc) :
  getParams r m = (Ok ps, m') ->
  exists s, cells m' !! ps = Some s /\ len s = 0%nat /\ view m' s = [].
Proof.
  unfold getParams, bind. destruct (paramsPool_Get r m) as [[[ps0|]|msg] m1];
    [|discriminate..].
  unfold load. destruct (cells m1 !! ps0) as [s|]; [|discriminate].
  simpl. intros [= <- <-]. eexists. simpl. rewrite lookup_insert_eq. done.
Qed.

(** C8: whatever the store holds (and so whatever the previous user of
    a buffer left in it), a pointer that [getParams] returns points to a
    slice of length zero, through which no parameter can be read; and
    [getParams] does return one once [paramsPool.New] is set. *)
Theorem getParams_hands_out_empty_buffer (r : Router) (m : Mem) :
  (paramsPool_New r = true -> pool_valid m ->
   exists ps m', getParams r m = (Ok ps, m'))
  /\ (forall ps m', getParams r m = (Ok ps, m') ->
      exists s, cells m' !! ps = Some s /\ len s = 0%nat /\ view m' s = []
                /\ forall name, Params_Get m' (Some s) name = "").
Proof.
  split; [apply getParams_returns|].
  intros ps m' H. destruct (getParams_empty _ _ _ _ H) as (s & Hs & Hl & Hv).
  exists s. repeat split; [done..|]. intros name. simpl. by rewrite Hv.
Qed.

(** *** Lookup *)

Lemma getValue_unbound (root : node) (path : string) (get : option (M loc))
    (route : option Route) (tsr : bool) (m : Mem) :
  lookup root path = (route, [], tsr) ->
  getValue root path get m = (Ok (route, None, tsr), m).
Proof. intros H. unfold getValue. rewrite H. by destruct get. Qed.

(** With a nil callback [getValue] is [getValue_nil] and leaves the
    store alone. *)
Lemma getValue_without_callback (root : node) (path : string) (m : Mem) :
  getValue root path None m = (Ok (getValue_nil root path), m).
Proof.
  unfold getValue, getValue_nil. by destruct (lookup root path) as [[route kvs] tsr].
Qed.

(** C10: without a trie for the method [Lookup] returns (nil, nil,
    false); and a lookup that finds a route without binding a wildcard
    returns nil [Params], the store untouched. *)
Theorem Lookup_nil_Params (r : Router) (method path : string) (m : Mem) :
  (trees r !! method = None ->
   Lookup r method path m = (Ok (None, None, false), m))
  /\ (forall root route tsr,
      trees r !! method = Some root ->
      lookup root path = (Some route, [], tsr) ->
      Lookup r method path m = (Ok (Some route, None, tsr), m)).
Proof.
  split.
  - intros H. unfold Lookup. by rewrite H.
  - intros root route tsr H Hl. unfold Lookup, bind. rewrite H.
    by rewrite (getValue_unbound _ _ _ _ _ _ Hl).
Qed.

(** *** Redirects *)

Lemma toggle_slash_spec (path : string) :
  (1 < GoString.len path /\ GoString.last path = Some "/"%char ->
   path = toggle_slash path +:+ "/")%nat
  /\ (~ (1 < GoString.len path /\ GoString.last path = Some "/"%char) ->
      toggle_slash path = path +:+ "/")%nat.
Proof.
  unfold toggle_slash. split.
  - intros [Hlen Hlast].
    apply Nat.ltb_lt in Hlen. rewrite Hlen, bool_decide_eq_true_2 by done.
    simpl. by apply last_Some_snoc.
  - intros Hnot.
    destruct (1 <? GoString.len path)%nat eqn:Hlen; [|done].
    apply Nat.ltb_lt in Hlen. simpl. case_bool_decide; [|done].
    destruct Hnot. done.
Qed.

Lemma redirect_code_spec (method : string) :
  (method = http.MethodGet -> redirect_code method = 301)
  /\ (method <> http.MethodGet -> redirect_code method = 308).
Proof.
  unfold redirect_code. split; intros H.
  - apply String.eqb_eq in H. by rewrite H.
  - apply String.eqb_neq in H. by rewrite H.
Qed.

(** The first block of [ServeHTTP] when the trie has no route for the
    path. *)
Lemma ServeHTTP_tree_unmatched (r : Router) (req : Request) (root : node)
    (ps : option loc) (tsr : bool) (m m' : Mem) :
  trees r !! Method req = Some root ->
  getValue root (Path (url req)) (Some (getParams r)) m = (Ok (None, ps, tsr), m') ->
  ServeHTTP_tree r req m =
    (if negb (String.eqb (Method req) http.MethodConnect)
        && negb (String.eqb (Path (url req)) "/")
     then
       if tsr && RedirectTrailingSlash r
       then ret (Some [http_Redirect
                         (with_Path req (toggle_slash (Path (url req))))
                         (redirect_code (Method req))])
       else
         if RedirectFixedPath r
         then
           let '(fixedPath, found) :=
             findCaseInsensitivePath root (CleanPath (Path (url req)))
               (RedirectTrailingSlash r) in
           if found
           then ret (Some [http_Redirect (with_Path req fixedPath)
                             (redirect_code (Method req))])
           else ret None
         else ret None
     else ret None) m'.
Proof.
  intros Htree Hget. unfold ServeHTTP_tree, bind. rewrite Htree, Hget. done.
Qed.

(** C1: no route, a true trailing-slash hint, trailing-slash
    redirection enabled, a method other than CONNECT and a path other
    than ["/"]: [ServeHTTP] redirects to the path with its trailing
    slash toggled, and does nothing else. *)
Theorem ServeHTTP_trailing_slash_redirect (ks : list string) (r : Router)
    (req : Request) (root : node) (ps : option loc) (m m' : Mem) :
  trees r !! Method req = Some root ->
  getValue root (Path (url req)) (Some (getParams r)) m = (Ok (None, ps, true), m') ->
  RedirectTrailingSlash r = true ->
  Method req <> http.MethodConnect ->
  Path (url req) <> "/" ->
  let path := Path (url req) in
  ServeHTTP ks r req m =
    (Ok [http_Redirect (with_Path req (toggle_slash path)) (redirect_code (Method req))],
     m')
  /\ (1 < GoString.len path /\ GoString.last path = Some "/"%char ->
      path = toggle_slash path +:+ "/")%nat
  /\ (~ (1 < GoString.len path /\ GoString.last path = Some "/"%char) ->
      toggle_slash path = path +:+ "/")%nat.
Proof.
  intros Htree Hget Hts Hconnect Hroot path.
  split; [|apply toggle_slash_spec].
  unfold ServeHTTP, bind.
  rewrite (ServeHTTP_tree_unmatched _ _ _ _ _ _ _ Htree Hget).
  apply String.eqb_neq in Hconnect, Hroot. rewrite Hconnect, Hroot, Hts. done.
Qed.

(** Closes a goal whose hypothesis [H] puts a redirect into a list of
    actions of other kinds. *)
Ltac not_a_redirect H :=
  repeat (apply elem_of_cons in H as [H|H]; [discriminate H|]);
  by apply elem_of_nil in H.

(** The actions of the parts of [ServeHTTP] that are not redirects. *)
Lemma ServeHTTP_allow_no_redirect (ks : list string) (r : Router) (req rq : Request)
    (code : Z) (acts : list Action) :
  ServeHTTP_allow ks r req = Some acts -> http_Redirect rq code ∉ acts.
Proof.
  unfold ServeHTTP_allow. intros H Hin.
  repeat match type of H with
         | (if ?b then _ else _) = _ => destruct b
         end; try discriminate; injection H as <-.
  - destruct (GlobalOPTIONS r); not_a_redirect Hin.
  - destruct (MethodNotAllowed r); not_a_redirect Hin.
Qed.

Lemma ServeHTTP_404_no_redirect (r : Router) (req rq : Request) (code : Z) :
  http_Redirect rq code ∉ ServeHTTP_404 r req.
Proof.
  unfold ServeHTTP_404. intros Hin. destruct (NotFound r); not_a_redirect Hin.
Qed.

Lemma ServeHTTP_tree_redirect (r : Router) (req rq : Request) (code : Z)
    (acts : list Action) (m m' : Mem) :
  ServeHTTP_tree r req m = (Ok (Some acts), m') ->
  http_Redirect rq code ∈ acts ->
  code = redirect_code (Method req) /\ Method rq = Method req.
Proof.
  unfold ServeHTTP_tree, bind.
  destruct (trees r !! Method req) as [root|]; [|discriminate].
  destruct (getValue _ _ _ m) as [[[[[route|] ps] tsr]|msg] m1]; [| |discriminate].
  - destruct ps as [ps|].
    + unfold load. destruct (cells m1 !! ps); [|discriminate]. simpl.
      destruct (Route_handler route); [|discriminate].
      intros [= <- <-] Hin. not_a_redirect Hin.
    + simpl. destruct (Route_handler route); [|discriminate].
      intros [= <- <-] Hin. not_a_redirect Hin.
  - destruct (negb _ && negb _); [|discriminate].
    destruct (tsr && RedirectTrailingSlash r).
    + intros [= <- <-] Hin. apply list_elem_of_singleton in Hin.
      by injection Hin as -> ->.
    + destruct (RedirectFixedPath r); [|discriminate].
      destruct (findCaseInsensitivePath _ _ _) as [fixedPath [|]]; [|discriminate].
      intros [= <- <-] Hin. apply list_elem_of_singleton in Hin.
      by injection Hin as -> ->.
Qed.

(** C2: a redirect that [ServeHTTP] issues carries status 301 when the
    request method is GET and 308 for every other method. *)
Theorem ServeHTTP_redirect_status (ks : list string) (r : Router)
    (req rq : Request) (code : Z) (acts : list Action) (m m' : Mem) :
  ServeHTTP ks r req m = (Ok acts, m') ->
  http_Redirect rq code ∈ acts ->
  (Method req = http.MethodGet -> code = 301)
  /\ (Method req <> http.MethodGet -> code = 308).
Proof.
  unfold ServeHTTP, bind. intros Hserve Hin.
  destruct (ServeHTTP_tree r req m) as [[[acts0|]|msg] m1] eqn:Htree;
    [| |discriminate].
  - injection Hserve as <- <-.
    destruct (ServeHTTP_tree_redirect _ _ _ _ _ _ _ Htree Hin) as [-> _].
    apply redirect_code_spec.
  - destruct (ServeHTTP_allow ks r req) as [acts1|] eqn:Hallow;
      injection Hserve as <- <-.
    + destruct (ServeHTTP_allow_no_redirect _ _ _ _ _ _ Hallow Hin).
    + destruct (ServeHTTP_404_no_redirect _ _ _ _ Hin).
Qed.

(** C5, as the code has it: no route, a method other than CONNECT, a
    path other than ["/"], no trailing-slash redirect, and fixed-path
    redirection enabled: when the case-insensitive walk over the
    cleaned path finds a path, [ServeHTTP] redirects to it. *)
Theorem ServeHTTP_fixed_path_redirect (ks : list string) (r : Router)
    (req : Request) (root : node) (ps : option loc) (tsr : bool)
    (fixedPath : string) (m m' : Mem) :
  trees r !! Method req = Some root ->
  getValue root (Path (url req)) (Some (getParams r)) m = (Ok (None, ps, tsr), m') ->
  Method req <> http.MethodConnect ->
  Path (url req) <> "/" ->
  tsr && RedirectTrailingSlash r = false ->
  RedirectFixedPath r = true ->
  findCaseInsensitivePath root (CleanPath (Path (url req))) (RedirectTrailingSlash r)
    = (fixedPath, true) ->
  ServeHTTP ks r req m =
    (Ok [http_Redirect (with_Path req fixedPath) (redirect_code (Method req))], m').
Proof.
  intros Htree Hget Hconnect Hroot Hts Hfix Hfound.
  unfold ServeHTTP, bind.
  rewrite (ServeHTTP_tree_unmatched _ _ _ _ _ _ _ Htree Hget).
  apply String.eqb_neq in Hconnect, Hroot.
  rewrite Hconnect, Hroot, Hts, Hfix, Hfound. done.
Qed.

(** *** The buffer and the handler *)

(** When [ServeHTTP] hands a request with bound parameters to the
    route's handler, the buffer is already back in the pool, and the
    pooled cell holds the very slice value the handler got: the next
    lookup that takes this buffer writes into the backing array the
    handler reads. *)
Lemma ServeHTTP_pools_the_bound_slice (ks : list string) (r : Router)
    (req req' : Request) (h : Handler) (s : Params) (m m' : Mem) :
  ctx_params req = None ->
  ServeHTTP ks r req m = (Ok [Handler_ServeHTTP h req'], m') ->
  GetParams req' = Some s ->
  exists ps, ps ∈ pool m' /\ cells m' !! ps = Some s.
Proof.
  intros Hfresh Hserve Hheld. unfold ServeHTTP, bind in Hserve.
  destruct (ServeHTTP_tree r req m) as [[[acts|]|msg] m1] eqn:Htree;
    [| |discriminate].
  - injection Hserve as -> ->. unfold ServeHTTP_tree, bind in Htree.
    destruct (trees r !! Method req) as [root|]; [|discriminate].
    destruct (getValue _ _ _ m) as [[[[[route|] ps] tsr]|msg] m1]; [| |discriminate].
    + destruct ps as [ps|].
      * unfold load in Htree. destruct (cells m1 !! ps) as [s'|] eqn:Hcell;
          [|discriminate]. simpl in Htree.
        destruct (Route_handler route); [|discriminate].
        injection Htree as <- <- <-.
        assert (s' = s) as ->.
        { unfold GetParams in Hheld.
          destruct (SaveMatchedRoute r); simpl in Hheld; congruence. }
        exists ps. simpl. split; [left|done].
      * simpl in Htree. destruct (Route_handler route); [|discriminate].
        injection Htree as <- <- <-. unfold GetParams in Hheld.
        destruct (SaveMatchedRoute r); simpl in Hheld; congruence.
    + destruct (negb _ && negb _); [|discriminate].
      destruct (tsr && RedirectTrailingSlash r); [discriminate|].
      destruct (RedirectFixedPath r); [|discriminate].
      destruct (findCaseInsensitivePath _ _ _) as [fixedPath [|]]; discriminate.
  - destruct (ServeHTTP_allow ks r req) as [acts|] eqn:Hallow.
    + injection Hserve as -> <-. unfold ServeHTTP_allow in Hallow.
      repeat match type of Hallow with
             | (if ?b then _ else _) = _ => destruct b
             end; discriminate.
    + injection Hserve as Hacts <-. unfold ServeHTTP_404 in Hacts.
      destruct (NotFound r); [|discriminate].
      injection Hacts as <- <-. unfold GetParams in Hheld. congruence.
Qed.

(** *** Allowed methods *)

Lemma range_keys_keys (r : Router) : range_keys r (keys r).
Proof.
  unfold range_keys, keys. split; [apply NoDup_fst_map_to_list|].
  intros method. rewrite list_elem_of_fmap. split.
  - intros [[k root] [-> H]]. apply elem_of_map_to_list in H. eauto.
  - intros [root H]. exists (method, root). split; [done|].
    by apply elem_of_map_to_list.
Qed.

(** Two orders of the same keys are permutations of each other. *)
Lemma range_keys_perm (r r' : Router) (ks ks' : list string) :
  range_keys r ks -> range_keys r' ks' ->
  (forall method, is_Some (trees r !! method) <-> is_Some (trees r' !! method)) ->
  ks ≡ₚ ks'.
Proof.
  intros [Hnd Hks] [Hnd' Hks'] Hsame. apply NoDup_Permutation; [done..|].
  intros method. by rewrite Hks, Hks', Hsame.
Qed.

Lemma allowed_path_filter (r : Router) (path reqMethod : string)
    (ks acc : list string) :
  allowed_path r path reqMethod ks acc
  = acc ++ filter (fun method => probed r path reqMethod method = true) ks.
Proof.
  revert acc. induction ks as [|k ks IH]; intros acc; simpl.
  - by rewrite filter_nil, (right_id_L [] (++)).
  - rewrite filter_cons. destruct (probed r path reqMethod k) eqn:Hp.
    + rewrite decide_True by done.
      unfold probed in Hp. apply andb_true_iff in Hp as [H1 H2].
      apply negb_true_iff in H1. rewrite H1.
      unfold matches in H2. destruct (trees r !! k) as [root|]; [|done].
      destruct (getValue_nil root path) as [[[route|] ps] tsr]; [|done].
      rewrite IH. by rewrite <- (assoc_L (++)).
    + rewrite decide_False by done.
      unfold probed in Hp.
      destruct (String.eqb k reqMethod || String.eqb k http.MethodOptions);
        [apply IH|].
      simpl in Hp. unfold matches in Hp.
      destruct (trees r !! k) as [root|]; [|apply IH].
      destruct (getValue_nil root path) as [[[route|] ps] tsr]; [done|apply IH].
Qed.

Lemma allowed_global_filter (ks acc : list string) :
  allowed_global ks acc
  = acc ++ filter (fun method => method <> http.MethodOptions) ks.
Proof.
  revert acc. induction ks as [|k ks IH]; intros acc; simpl.
  - by rewrite filter_nil, (right_id_L [] (++)).
  - rewrite filter_cons.
    destruct (String.eqb k http.MethodOptions) eqn:Hk.
    + apply String.eqb_eq in Hk. rewrite decide_False by (by intros []). apply IH.
    + apply String.eqb_neq in Hk. rewrite decide_True by done.
      rewrite IH. by rewrite <- (assoc_L (++)).
Qed.

(** What [allowed] makes of the methods it collected. *)
Lemma Allow_perm (l l' : list string) :
  l ≡ₚ l' ->
  (if (0 <? length l)%nat
   then GoString.Join (sort_allowed (l ++ [http.MethodOptions])) ", " else "")
  = (if (0 <? length l')%nat
     then GoString.Join (sort_allowed (l' ++ [http.MethodOptions])) ", " else "").
Proof.
  intros Hl. rewrite (Permutation_length Hl).
  by rewrite (sort_allowed_perm (l ++ _) (l' ++ [http.MethodOptions]))
    by (by rewrite Hl).
Qed.

(** The sorted slice of collected methods and OPTIONS. *)
Lemma Allow_sorted (l : list string) (P : string -> Prop) :
  NoDup l -> http.MethodOptions ∉ l ->
  (forall method, method ∈ l <-> P method) ->
  let ms := sort_allowed (l ++ [http.MethodOptions]) in
  StronglySorted str_le ms /\ NoDup ms
  /\ forall method, method ∈ ms <-> method = http.MethodOptions \/ P method.
Proof.
  intros Hnd Hopt Hl ms.
  destruct (sort_allowed_spec (l ++ [http.MethodOptions])) as [Hperm Hsorted].
  split; [done|]. split.
  - subst ms. rewrite Hperm. apply NoDup_app. split; [done|]. split.
    + intros x Hx Hx'. apply list_elem_of_singleton in Hx' as ->. done.
    + apply NoDup_singleton.
  - intros method. subst ms. rewrite Hperm, elem_of_app, list_elem_of_singleton, Hl.
    tauto.
Qed.

Lemma allowed_specific (ks : list string) (r : Router) (path reqMethod : string) :
  path <> "*" ->
  allowed ks r path reqMethod
  = let l := filter (fun method => probed r path reqMethod method = true) ks in
    if (0 <? length l)%nat
    then GoString.Join (sort_allowed (l ++ [http.MethodOptions])) ", " else "".
Proof.
  intros Hpath. apply String.eqb_neq in Hpath. unfold allowed. rewrite Hpath.
  by rewrite allowed_path_filter.
Qed.

Lemma probed_registered (r : Router) (path reqMethod method : string) :
  probed r path reqMethod method = true -> is_Some (trees r !! method).
Proof.
  unfold probed, matches. intros [_ H]%andb_true_iff.
  destruct (trees r !! method); [eauto|done].
Qed.

Lemma probed_not_OPTIONS (r : Router) (path reqMethod : string) :
  probed r path reqMethod http.MethodOptions = false.
Proof. unfold probed. rewrite String.eqb_refl, orb_true_r. done. Qed.

(** C3: for a path other than ["*"], [allowed] probes the trie of
    every registered method but the request method and OPTIONS with a
    plain lookup of the path; with no match the result is empty, and
    otherwise it is the matching methods and OPTIONS, each once, in
    ascending order, joined by [", "].  A path that matches under GET
    and POST only, requested with DELETE, gives ["GET, OPTIONS, POST"]. *)
Theorem allowed_for_path (ks : list string) (r : Router) (path reqMethod : string) :
  path <> "*" ->
  range_keys r ks ->
  ((forall method, probed r path reqMethod method = false) ->
   allowed ks r path reqMethod = "")
  /\ ((exists method, probed r path reqMethod method = true) ->
      exists ms,
        allowed ks r path reqMethod = GoString.Join ms ", "
        /\ StronglySorted str_le ms /\ NoDup ms
        /\ forall method,
             method ∈ ms <->
             method = http.MethodOptions \/ probed r path reqMethod method = true)
  /\ ((forall method, matches r path method = true <-> method = "GET" \/ method = "POST") ->
      allowed ks r path "DELETE" = "GET, OPTIONS, POST").
Proof.
  intros Hpath [Hnd Hks].
  assert (forall req,
            let l := filter (fun method => probed r path req method = true) ks in
            NoDup l /\ (http.MethodOptions ∉ l)
            /\ forall method, method ∈ l <-> probed r path req method = true)
    as Hl.
  { intros req l. subst l. split; [by apply NoDup_filter|]. split.
    - rewrite list_elem_of_filter, probed_not_OPTIONS. by intros [? _].
    - intros method. rewrite list_elem_of_filter. split; [by intros [? _]|].
      intros Hp. split; [done|]. apply Hks. by eapply probed_registered. }
  split; [|split].
  - intros Hnone. rewrite allowed_specific by done. simpl.
    destruct (filter _ ks) as [|k l] eqn:Hf; [done|].
    assert (k ∈ filter (fun method => probed r path reqMethod method = true) ks)
      as Hk by (rewrite Hf; left).
    apply list_elem_of_filter in Hk as [Hk _]. by rewrite Hnone in Hk.
  - intros [method Hm]. rewrite allowed_specific by done. simpl.
    destruct (Hl reqMethod) as (Hndl & Hopt & Hmem).
    assert ((0 <? length (filter (fun method => probed r path reqMethod method = true)
                                 ks))%nat = true) as ->.
    { apply Nat.ltb_lt. apply Hmem in Hm.
      destruct (filter _ ks); [by apply elem_of_nil in Hm|simpl; lia]. }
    eexists. split; [reflexivity|].
    by apply Allow_sorted.
  - intros Hgp. rewrite allowed_specific by done.
    destruct (Hl "DELETE") as (Hndl & Hopt & Hmem).
    cbv zeta.
    rewrite (Allow_perm _ ["GET"; "POST"]); [reflexivity|].
    apply NoDup_Permutation; [done| |].
    + apply NoDup_cons. split; [|apply NoDup_singleton].
      rewrite list_elem_of_singleton. discriminate.
    + intros method. rewrite Hmem. unfold probed.
      rewrite elem_of_cons, list_elem_of_singleton. split.
      * intros [_ H]%andb_true_iff. by apply Hgp.
      * intros H. apply andb_true_iff. split; [|by apply Hgp].
        by destruct H as [-> | ->].
Qed.

(** *** Fallbacks *)

Lemma append_not_Empty (a b : string) : b <> "" -> a +:+ b <> "".
Proof.
  intros Hb. destruct a as [|c a]; [by rewrite app_Empty|].
  rewrite app_String. discriminate.
Qed.

(** The joined list of two or more methods is not the empty string. *)
Lemma Join_not_Empty (a b : string) (rest : list string) :
  GoString.Join (a :: b :: rest) ", " <> "".
Proof.
  change (a +:+ (", " +:+ GoString.Join (b :: rest) ", ") <> "").
  apply append_not_Empty. rewrite app_String. discriminate.
Qed.

(** For a path other than ["*"], [allowed] is not empty exactly when a
    method other than the request method and OPTIONS has a handler for
    the path. *)
Lemma allowed_not_Empty (ks : list string) (r : Router) (path reqMethod : string) :
  path <> "*" -> range_keys r ks ->
  allowed ks r path reqMethod <> ""
  <-> exists method, probed r path reqMethod method = true.
Proof.
  intros Hpath [_ Hks]. rewrite allowed_specific by done. cbv zeta.
  destruct (filter (fun method => probed r path reqMethod method = true) ks)
    as [|k l] eqn:Hf; simpl.
  - split; [done|]. intros [method Hp].
    assert (method ∈ filter (fun method => probed r path reqMethod method = true) ks)
      as Hin.
    { apply list_elem_of_filter. split; [done|].
      apply Hks. by eapply probed_registered. }
    rewrite Hf in Hin. by apply elem_of_nil in Hin.
  - split.
    + intros _. exists k.
      assert (k ∈ filter (fun method => probed r path reqMethod method = true) ks)
        as Hin by (rewrite Hf; left).
      by apply list_elem_of_filter in Hin as [? _].
    + intros _.
      destruct (sort_allowed_spec (k :: l ++ [http.MethodOptions])) as [Hperm _].
      apply Permutation_length in Hperm.
      destruct (sort_allowed (k :: l ++ [http.MethodOptions])) as [|a [|b rest]].
      * simpl in Hperm. lia.
      * simpl in Hperm. rewrite length_app in Hperm. simpl in Hperm. lia.
      * apply Join_not_Empty.
Qed.

(** C6, as the code has it: a request that the first block of
    [ServeHTTP] neither routed nor redirected and that the automatic
    OPTIONS reply did not answer: with method-not-allowed handling
    enabled and a non-empty [allowed(path, method)], the Allow header
    is set to it and the custom MethodNotAllowed handler is invoked, or
    by default a 405 with the status phrase as body is sent; otherwise
    the custom NotFound handler is invoked, or by default
    [http.NotFound].  For a path other than ["*"], [allowed] is not
    empty exactly when the Allow set without the request method is not:
    when a method other than the request method and OPTIONS has a
    handler for the path.  For the path ["*"] it is the cached
    server-wide list, from which the request method is not taken out. *)
Theorem ServeHTTP_fallback (ks : list string) (r : Router) (req : Request)
    (m m' : Mem) :
  ServeHTTP_tree r req m = (Ok None, m') ->
  ~ (Method req = http.MethodOptions /\ HandleOPTIONS r = true
     /\ allowed ks r (Path (url req)) http.MethodOptions <> "") ->
  let allow := allowed ks r (Path (url req)) (Method req) in
  (HandleMethodNotAllowed r = true /\ allow <> "" ->
   ServeHTTP ks r req m =
     (Ok [Header_Set "Allow" allow;
          match MethodNotAllowed r with
          | Some h => Handler_ServeHTTP h req
          | None => http_Error "Method Not Allowed" 405
          end], m'))
  /\ (~ (HandleMethodNotAllowed r = true /\ allow <> "") ->
      ServeHTTP ks r req m =
        (Ok match NotFound r with
            | Some h => [Handler_ServeHTTP h req]
            | None => [http_NotFound req]
            end, m'))
  /\ (Path (url req) <> "*" -> range_keys r ks ->
      (allow <> ""
       <-> exists method, probed r (Path (url req)) (Method req) method = true))
  /\ (Path (url req) = "*" -> Method req <> "" -> allow = globalAllowed r).
Proof.
  intros Htree Hnot allow.
  assert ((HandleMethodNotAllowed r = true /\ allow <> "" ->
           ServeHTTP ks r req m =
             (Ok [Header_Set "Allow" allow;
                  match MethodNotAllowed r with
                  | Some h => Handler_ServeHTTP h req
                  | None => http_Error "Method Not Allowed" 405
                  end], m'))
          /\ (~ (HandleMethodNotAllowed r = true /\ allow <> "") ->
              ServeHTTP ks r req m =
                (Ok match NotFound r with
                    | Some h => [Handler_ServeHTTP h req]
                    | None => [http_NotFound req]
                    end, m'))) as [H405 H404].
  { subst allow.
    unfold ServeHTTP, bind. rewrite Htree. unfold ServeHTTP_allow, ServeHTTP_404.
    destruct (String.eqb (Method req) http.MethodOptions) eqn:Hopt.
    - apply String.eqb_eq in Hopt. rewrite Hopt in *.
      destruct (HandleOPTIONS r) eqn:Hauto; simpl.
      + destruct (String.eqb (allowed ks r (Path (url req)) http.MethodOptions) "")
          eqn:Hallow; simpl.
        * apply String.eqb_eq in Hallow. rewrite Hallow.
          split; [by intros [_ ?]|done].
        * apply String.eqb_neq in Hallow. destruct Hnot. done.
      + destruct (HandleMethodNotAllowed r); simpl.
        * destruct (String.eqb (allowed ks r (Path (url req)) http.MethodOptions) "")
            eqn:Hallow; simpl.
          -- apply String.eqb_eq in Hallow. rewrite Hallow.
             split; [by intros [_ ?]|done].
          -- apply String.eqb_neq in Hallow. split; [done|]. intros H. by destruct H.
        * split; [by intros [? _]|done].
    - simpl. destruct (HandleMethodNotAllowed r); simpl.
      + destruct (String.eqb (allowed ks r (Path (url req)) (Method req)) "")
          eqn:Hallow; simpl.
        * apply String.eqb_eq in Hallow. rewrite Hallow.
          split; [by intros [_ ?]|done].
        * apply String.eqb_neq in Hallow. split; [done|]. intros H. by destruct H.
      + split; [by intros [? _]|done]. }
  split; [done|]. split; [done|]. split.
  - intros Hpath Hks. by apply allowed_not_Empty.
  - intros Hpath Hmethod. subst allow. unfold allowed. rewrite Hpath. simpl.
    apply String.eqb_neq in Hmethod. by rewrite Hmethod.
Qed.

(** *** Registration *)

Lemma allowed_server_wide (ks : list string) (r : Router) :
  allowed ks r "*" ""
  = let l := filter (fun method => method <> http.MethodOptions) ks in
    if (0 <? length l)%nat
    then GoString.Join (sort_allowed (l ++ [http.MethodOptions])) ", " else "".
Proof. unfold allowed. simpl. by rewrite allowed_global_filter. Qed.

(** The refresh of the cache does not depend on the order of the keys. *)
Lemma allowed_server_wide_perm (ks ks' : list string) (r r' : Router) :
  ks ≡ₚ ks' -> allowed ks r "*" "" = allowed ks' r' "*" "".
Proof.
  intros Hks. rewrite !allowed_server_wide. cbv zeta.
  apply Allow_perm. by rewrite Hks.
Qed.

(** What one [Handle] does to the keys of [trees] and to the cache:
    the cache is refreshed when, and only when, the call creates the
    trie of its method. *)
Lemma Handle_effect (ks : list string) (method path : string)
    (handler : option Handler) (opts : list RouteOption) (r r' : Router)
    (out : registration) :
  Handle ks method path handler opts r = (out, r') ->
  let created := creates_trie method path r in
  (forall k, is_Some (trees r' !! k) <->
             (created = true /\ k = method) \/ is_Some (trees r !! k))
  /\ globalAllowed r'
     = (if created
        then allowed ks (set_trees (<[method := new_node]> (trees r)) r) "*" ""
        else globalAllowed r).
Proof.
  unfold Handle, creates_trie.
  destruct (String.eqb method ""); [intros [= <- <-]; naive_solver|].
  destruct (bad_path path); [intros [= <- <-]; naive_solver|].
  destruct (trees r !! method) as [root|] eqn:Ht.
  - rewrite bool_decide_eq_false_2 by done. cbn [negb andb].
    destruct (negb _); [destruct (routes r !! _)|];
      try (intros [= <- <-]; naive_solver);
      destruct (addRoute _ _ _) as [root' [msg|]];
      repeat match goal with
             | |- context [if ?b then _ else _] => destruct b
             end;
      intros [= <- <-]; (split; [|done]); intros k; simpl;
      rewrite lookup_insert_is_Some'; split;
      try (intros [<-|?]; [right; rewrite Ht; eauto|by right]);
      intros [[? _]|?]; try done; by right.
  - rewrite bool_decide_eq_true_2 by done. cbn [negb andb].
    destruct (negb _); [destruct (routes _ !! _)|];
      try (intros [= <- <-]; (split; [|done]); intros k; simpl;
           rewrite lookup_insert_is_Some'; naive_solver);
      destruct (addRoute _ _ _) as [root' [msg|]];
      repeat match goal with
             | |- context [if ?b then _ else _] => destruct b
             end;
      intros [= <- <-]; (split; [|done]); intros k; simpl;
      rewrite !lookup_insert_is_Some'; naive_solver.
Qed.

Lemma empty_cache_fresh (r : Router) :
  trees r = ∅ -> globalAllowed r = "" -> cache_fresh r.
Proof.
  intros Hempty Hcache ks [Hnd Hks]. rewrite Hcache, allowed_server_wide.
  destruct ks as [|k ks]; [done|].
  assert (is_Some (trees r !! k)) as [? Hk] by (apply Hks; left).
  by rewrite Hempty, lookup_empty in Hk.
Qed.

Lemma Handle_cache_fresh (ks : list string) (method path : string)
    (handler : option Handler) (opts : list RouteOption) (r r' : Router)
    (out : registration) :
  range_keys (set_trees (<[method := new_node]> (trees r)) r) ks ->
  Handle ks method path handler opts r = (out, r') ->
  cache_fresh r -> cache_fresh r'.
Proof.
  intros Hks HH Hinv ks' Hks'.
  destruct (Handle_effect _ _ _ _ _ _ _ _ HH) as (Hkeys & Hcache).
  rewrite Hcache. destruct (creates_trie method path r).
  - apply allowed_server_wide_perm.
    eapply range_keys_perm; [done..|].
    intros k. rewrite Hkeys. simpl. rewrite lookup_insert_is_Some'. naive_solver.
  - rewrite (Hinv ks'); [by apply allowed_server_wide_perm|].
    destruct Hks' as [Hnd Hmem]. split; [done|].
    intros k. rewrite Hmem, Hkeys. naive_solver.
Qed.

Lemma step_cache_fresh (r r' : Router) :
  registration_step r r' -> cache_fresh r -> cache_fresh r'.
Proof.
  intros [ks method path handler opts r0 out r1 Hks HH
         |ks method path handle opts r0 out r1 Hks HH
         |r0 r1 Htrees _ _ _ Hcache] Hfresh.
  - by eapply Handle_cache_fresh.
  - unfold HandleFunc in HH. destruct handle as [f|].
    + by eapply Handle_cache_fresh.
    + by injection HH as <- <-.
  - intros ks [Hnd Hks]. rewrite Hcache.
    rewrite (Hfresh ks); [by apply allowed_server_wide_perm|].
    split; [done|]. intros method. by rewrite Hks, Htrees.
Qed.

Lemma registered_cache_fresh (r : Router) : registered r -> cache_fresh r.
Proof.
  intros (r0 & Hempty & Hcache & Hsteps).
  assert (cache_fresh r0) as Hfresh by by apply empty_cache_fresh.
  clear Hempty Hcache.
  induction Hsteps as [r|r0 r1 r Hstep Hrest IH]; [done|].
  apply IH. by eapply step_cache_fresh.
Qed.

(** C4: after any sequence of registrations the cached server-wide
    value is what [allowed("*", "")] computes now, in whatever order the
    keys come: empty when no method other than OPTIONS has a trie, and
    otherwise the registered methods and OPTIONS, each once, ascending,
    joined by [", "].  [allowed("*", method)] with a non-empty method
    is the cached value, whatever the tries hold; and a [Handle]
    refreshes the cache exactly when it creates the trie of its
    method. *)
Theorem globalAllowed_cache (r : Router) (ks : list string) :
  registered r ->
  range_keys r ks ->
  globalAllowed r = allowed ks r "*" ""
  /\ ((forall method, is_Some (trees r !! method) -> method = http.MethodOptions) ->
      globalAllowed r = "")
  /\ ((exists method, is_Some (trees r !! method) /\ method <> http.MethodOptions) ->
      exists ms,
        globalAllowed r = GoString.Join ms ", "
        /\ StronglySorted str_le ms /\ NoDup ms
        /\ forall method,
             method ∈ ms <->
             method = http.MethodOptions \/ is_Some (trees r !! method))
  /\ (forall ks' method, method <> "" -> allowed ks' r "*" method = globalAllowed r)
  /\ (forall ks0 method path handler opts out r',
        Handle ks0 method path handler opts r = (out, r') ->
        globalAllowed r'
        = if creates_trie method path r
          then allowed ks0 (set_trees (<[method := new_node]> (trees r)) r) "*" ""
          else globalAllowed r).
Proof.
  intros Hreg Hks. pose proof (registered_cache_fresh r Hreg ks Hks) as Hfresh.
  destruct Hks as [Hnd Hmem].
  assert (let l := filter (fun method => method <> http.MethodOptions) ks in
          NoDup l /\ (http.MethodOptions ∉ l)
          /\ forall method, method ∈ l <->
               method <> http.MethodOptions /\ is_Some (trees r !! method))
    as (Hndl & Hopt & Hl).
  { cbv zeta. split; [by apply NoDup_filter|]. split.
    - rewrite list_elem_of_filter. by intros [? _].
    - intros method. by rewrite list_elem_of_filter, Hmem. }
  split; [done|]. split; [|split; [|split]].
  - intros Honly. rewrite Hfresh, allowed_server_wide. cbv zeta.
    destruct (filter _ ks) as [|k l] eqn:Hf; [done|].
    assert (k ∈ k :: l) as Hk by left.
    apply Hl in Hk as [Hk1 Hk2]. destruct Hk1. by apply Honly.
  - intros (method & Hm & Hne). rewrite Hfresh, allowed_server_wide. cbv zeta.
    assert ((0 <? length (filter (fun method => method <> http.MethodOptions) ks))%nat
            = true) as ->.
    { apply Nat.ltb_lt.
      assert (method ∈ filter (fun method => method <> http.MethodOptions) ks) as Hin
        by by apply Hl.
      destruct (filter _ ks); [by apply elem_of_nil in Hin|simpl; lia]. }
    eexists. split; [reflexivity|].
    destruct (Allow_sorted _ _ Hndl Hopt Hl) as (Hs & Hnds & Hms).
    split; [done|]. split; [done|].
    intros method'. rewrite Hms.
    destruct (decide (method' = http.MethodOptions)); naive_solver.
  - intros ks' method Hne. unfold allowed. simpl.
    apply String.eqb_neq in Hne. by rewrite Hne.
  - intros ks0 method path handler opts out r' HH.
    by destruct (Handle_effect _ _ _ _ _ _ _ _ HH) as [_ ?].
Qed.

(** [bad_path]: the pattern does not begin with ['/']. *)
Lemma bad_path_spec (path : string) :
  bad_path path = false <-> exists rest, path = String "/" rest.
Proof.
  unfold bad_path. destruct path as [|c rest]; simpl.
  - split; [done|]. by intros [? ?].
  - rewrite negb_false_iff, Ascii.eqb_eq. split.
    + intros ->. eauto.
    + by intros [? [= -> _]].
Qed.

(** The outcome of [Handle], its checks in the order of the code. *)
Lemma Handle_outcome (ks : list string) (method path : string)
    (handler : option Handler) (opts : list RouteOption) (r : Router) :
  let route := newRoute path handler opts in
  let root := default new_node (trees r !! method) in
  (Handle ks method path handler opts r).1
  = if String.eqb method ""
    then Panicked in_Handle "method must not be empty"
    else if bad_path path
    then Panicked in_Handle ("path must begin with '/' in path '" +:+ path +:+ "'")
    else if negb (String.eqb (Route_name route) "")
            && bool_decide (is_Some (routes r !! Route_name route))
    then Panicked in_Handle
           ("route name " +:+ Route_name route +:+ " is already registered")
    else match (addRoute root path route).2 with
         | Some msg => Panicked in_addRoute msg
         | None => Registered
         end.
Proof.
  cbv zeta. unfold Handle.
  destruct (String.eqb method ""); [done|].
  destruct (bad_path path); [done|].
  destruct (trees r !! method) as [root|]; simpl;
    (destruct (String.eqb (Route_name (newRoute path handler opts)) ""); simpl;
     [|destruct (routes r !! Route_name (newRoute path handler opts)) eqn:E;
       [by rewrite bool_decide_eq_true_2 by eauto
       |rewrite bool_decide_eq_false_2 by (by intros [? ?])]]);
    by destruct (addRoute _ path (newRoute path handler opts)) as [root' [msg|]].
Qed.

(** C7, as the code has it: [HandleFunc] panics on a nil function and
    otherwise is [Handle]; [Handle] itself panics exactly when the
    method is empty, the pattern does not begin with ['/'], or the new
    route has a name that is already registered; with none of these the
    registration is carried out unless the insertion into the trie
    panics. *)
Theorem registration_panics (ks : list string) (method path : string)
    (handler : option Handler) (opts : list RouteOption) (r : Router) :
  let route := newRoute path handler opts in
  let root := default new_node (trees r !! method) in
  let name_taken :=
    Route_name route <> "" /\ is_Some (routes r !! Route_name route) in
  let out := (Handle ks method path handler opts r).1 in
  (panics_in in_Handle out <->
   method = "" \/ bad_path path = true \/ name_taken)
  /\ (forall msg,
        out = Panicked in_addRoute msg <->
        method <> "" /\ bad_path path = false /\ ~ name_taken
        /\ (addRoute root path route).2 = Some msg)
  /\ (out = Registered <->
      method <> "" /\ bad_path path = false /\ ~ name_taken
      /\ (addRoute root path route).2 = None)
  /\ HandleFunc ks method path None opts r
     = (Panicked in_HandleFunc "handle must not be nil", r)
  /\ (forall f, HandleFunc ks method path (Some f) opts r
                = Handle ks method path (Some (HandlerFunc_conv f)) opts r)
  /\ (bad_path path = false <-> exists rest, path = String "/" rest).
Proof.
  intros route root name_taken out.
  assert (out = _) as Hout by apply Handle_outcome. clearbody out.
  fold route root in Hout. unfold panics_in.
  assert (negb (String.eqb (Route_name route) "")
          && bool_decide (is_Some (routes r !! Route_name route)) = true
          <-> name_taken) as Hname.
  { subst name_taken. rewrite andb_true_iff, negb_true_iff, bool_decide_eq_true.
    by rewrite String.eqb_neq. }
  assert ((method = "" /\ exists msg, out = Panicked in_Handle msg)
          \/ (method <> "" /\ bad_path path = true
              /\ exists msg, out = Panicked in_Handle msg)
          \/ (method <> "" /\ bad_path path = false /\ name_taken
              /\ exists msg, out = Panicked in_Handle msg)
          \/ (method <> "" /\ bad_path path = false /\ ~ name_taken
              /\ out = match (addRoute root path route).2 with
                       | Some msg => Panicked in_addRoute msg
                       | None => Registered
                       end)) as Hcases.
  { destruct (String.eqb method "") eqn:E1;
      [apply String.eqb_eq in E1; eauto|apply String.eqb_neq in E1].
    destruct (bad_path path) eqn:E2; [eauto 10|].
    destruct (negb _ && bool_decide _) eqn:E3.
    - assert name_taken by (by apply Hname). eauto 10.
    - assert (~ name_taken) as Hfree by (by intros ?%Hname).
      do 3 right. done. }
  clear Hout Hname.
  split; [|split; [|split; [|split; [done|split; [done|apply bad_path_spec]]]]].
  - destruct Hcases as [(? & ?)|[(? & ? & ?)|[(? & ? & ? & ?)|(? & ? & ? & ->)]]];
      [naive_solver..|].
    destruct ((addRoute root path route).2); split;
      try (by intros [? [=]]); intros [?|[?|?]]; done || congruence.
  - intros msg.
    destruct Hcases as [(? & ? & ->)|[(? & ? & ? & ->)|[(? & ? & ? & ? & ->)
                                                        |(? & ? & ? & ->)]]];
      try (split; [by intros [=]|intros (? & ? & ? & ?); done || congruence]).
    destruct ((addRoute root path route).2); split.
    + by intros [= ->].
    + by intros (_ & _ & _ & [= ->]).
    + by intros [=].
    + by intros (_ & _ & _ & [=]).
  - destruct Hcases as [(? & ? & ->)|[(? & ? & ? & ->)|[(? & ? & ? & ? & ->)
                                                        |(? & ? & ? & ->)]]];
      try (split; [by intros [=]|intros (? & ? & ? & ?); done || congruence]).
    destruct ((addRoute root path route).2); split.
    + by intros [=].
    + by intros (_ & _ & _ & [=]).
    + done.
    + done.
Qed.

End DispatcherProperties.

(** * More of router.go *)

(** ** Parameters by name *)

(** X1: [Params.Get] returns the value of the first parameter whose key
    is the name, whatever follows it, and the empty string when no key
    is the name or the slice is nil. *)
Theorem Params_Get_first_match (ps : list Param) (name : string) :
  ((forall p, p ∈ ps -> Key p <> name) -> Params_Get_list ps name = "")
  /\ (forall before p after,
        ps = before ++ p :: after ->
        Key p = name ->
        (forall q, q ∈ before -> Key q <> name) ->
        Params_Get_list ps name = Value p)
  /\ (forall m, Params_Get m None name = "").
Proof.
  split; [|split; [|done]].
  - induction ps as [|q ps IH]; intros Hnone; [done|]. simpl.
    assert (Key q <> name) as Hq by (apply Hnone; left).
    apply String.eqb_neq in Hq. rewrite Hq. apply IH.
    intros p Hp. apply Hnone. by right.
  - intros before. revert ps. induction before as [|q before IH];
      intros ps p after -> Hp Hbefore; simpl.
    + apply String.eqb_eq in Hp. by rewrite Hp.
    + assert (Key q <> name) as Hq by (apply Hbefore; left).
      apply String.eqb_neq in Hq. rewrite Hq.
      apply (IH _ p after); [done..|].
      intros q' Hq'. apply Hbefore. by right.
Qed.

(** ** The sort of [allowed] *)

#[local] Instance str_le_dec (a b : string) : Decision (str_le a b).
Proof. unfold str_le. apply _. Defined.

#[local] Instance str_le_total : Total str_le.
Proof. intros a b. unfold str_le, GoString.le. apply String.leb_total. Qed.

(** X2: the two loops of [allowed] sort: the result is a permutation of
    the slice in ascending order, the list that a merge sort of the
    same strings gives, and sorting again changes nothing. *)
Theorem sort_allowed_sorts (a : list string) :
  sort_allowed a ≡ₚ a
  /\ StronglySorted str_le (sort_allowed a)
  /\ sort_allowed a = merge_sort str_le a
  /\ sort_allowed (sort_allowed a) = sort_allowed a.
Proof.
  destruct (sort_allowed_spec a) as [Hperm Hsorted].
  split; [done|]. split; [done|]. split.
  - apply (StronglySorted_unique str_le); [done| |].
    + apply StronglySorted_merge_sort; apply _.
    + by rewrite Hperm, merge_sort_Permutation.
  - destruct (sort_allowed_spec (sort_allowed a)) as [Hperm' Hsorted'].
    by apply (StronglySorted_unique str_le).
Qed.

Section MoreProperties.

Context `{Pkg : Package} `{Rt : Runtime}.
Context `{Urls : !RouteURLs} `{Files : !FileServing}.

(** ** The order of the map does not show *)

(** X3: Go ranges over [r.trees] in an order of its own choosing, yet
    neither [allowed] nor [ServeHTTP] depends on it. *)
Theorem allowed_order_independent (ks ks' : list string) (r : Router) :
  range_keys r ks -> range_keys r ks' ->
  (forall path reqMethod, allowed ks r path reqMethod = allowed ks' r path reqMethod)
  /\ (forall req m, ServeHTTP ks r req m = ServeHTTP ks' r req m).
Proof.
  intros Hks Hks'.
  assert (ks ≡ₚ ks') as Hperm by by eapply range_keys_perm.
  assert (forall path reqMethod,
            allowed ks r path reqMethod = allowed ks' r path reqMethod) as Hallowed.
  { intros path reqMethod. destruct (decide (path = "*")) as [->|Hpath].
    - destruct (decide (reqMethod = "")) as [->|Hreq].
      + by apply allowed_server_wide_perm.
      + unfold allowed. simpl. apply String.eqb_neq in Hreq. by rewrite Hreq.
    - rewrite !allowed_specific by done. cbv zeta.
      apply Allow_perm. by rewrite Hperm. }
  split; [done|].
  intros req m. unfold ServeHTTP, ServeHTTP_allow. by rewrite !Hallowed.
Qed.

(** ** Registration *)

(** Case analysis of a call of [Handle] along the branches of its code. *)
Ltac Handle_cases ks method path handler opts r :=
  unfold Handle;
  destruct (String.eqb method "") eqn:?Hmethod;
  [|destruct (bad_path path) eqn:?Hpath;
    [|destruct (trees r !! method) as [?root|] eqn:?Htrie;
      (destruct (negb (String.eqb (Route_name (newRoute path handler opts)) ""))
         eqn:?Hnamed;
       [destruct (routes _ !! Route_name (newRoute path handler opts))
          as [?taken|] eqn:?Htaken|];
       [|destruct (addRoute _ path (newRoute path handler opts))
           as [?root' [?msg|]] eqn:?Hadd;
         [|destruct (maxParams _ <? countParams path)%Z eqn:?Hmax;
           destruct (negb (paramsPool_New _) && (0 <? maxParams _)%Z) eqn:?Hnew]
        |destruct (addRoute _ path (newRoute path handler opts))
           as [?root' [?msg|]] eqn:?Hadd;
         [|destruct (maxParams _ <? countParams path)%Z eqn:?Hmax;
           destruct (negb (paramsPool_New _) && (0 <? maxParams _)%Z) eqn:?Hnew]])]].

(** [Handle] is the composition of its stages. *)
Lemma Handle_stages (ks : list string) (method path : string)
    (handler : option Handler) (opts : list RouteOption) (r : Router) :
  Handle ks method path handler opts r = Handle_staged ks method path handler opts r.
Proof. reflexivity. Qed.

(** X4: what a call of [Handle] leaves alone, whatever its outcome: the
    tries of the other methods, the routes under other names and every
    route that was already named, the exported settings of the router;
    [maxParams] never decreases and [paramsPool.New], once set, stays
    set. *)
Theorem Handle_frame (ks : list string) (method path : string)
    (handler : option Handler) (opts : list RouteOption) (r r' : Router)
    (out : registration) :
  Handle ks method path handler opts r = (out, r') ->
  (forall other, other <> method -> trees r' !! other = trees r !! other)
  /\ (forall name, name <> Route_name (newRoute path handler opts) ->
                   routes r' !! name = routes r !! name)
  /\ (forall name route, routes r !! name = Some route ->
                         routes r' !! name = Some route)
  /\ (SaveMatchedRoute r' = SaveMatchedRoute r
      /\ RedirectTrailingSlash r' = RedirectTrailingSlash r
      /\ RedirectFixedPath r' = RedirectFixedPath r
      /\ HandleMethodNotAllowed r' = HandleMethodNotAllowed r
      /\ HandleOPTIONS r' = HandleOPTIONS r
      /\ GlobalOPTIONS r' = GlobalOPTIONS r
      /\ NotFound r' = NotFound r
      /\ MethodNotAllowed r' = MethodNotAllowed r)
  /\ (maxParams r <= maxParams r')%Z
  /\ (paramsPool_New r = true -> paramsPool_New r' = true).
Proof.
  Handle_cases ks method path handler opts r; intros [= <- <-]; simpl in *;
    (split; [intros other Hother; by rewrite ?lookup_insert_ne by done|]);
    (split; [intros name Hname; by rewrite ?lookup_insert_ne by done|]);
    (split; [intros name route Hroute;
             try (rewrite lookup_insert_ne; [done|congruence]); done|]);
    (split; [done|]);
    (split; [try apply Z.ltb_lt in Hmax; lia|]);
    try done;
    intros Hset; rewrite Hset in *; done.
Qed.

Lemma Handle_tree_spec (ks : list string) (method : string) (r : Router) :
  (Handle_tree ks method r).1 = default new_node (trees r !! method)
  /\ routes (Handle_tree ks method r).2 = routes r
  /\ maxParams (Handle_tree ks method r).2 = maxParams r
  /\ paramsPool_New (Handle_tree ks method r).2 = paramsPool_New r
  /\ is_Some (trees (Handle_tree ks method r).2 !! method).
Proof.
  unfold Handle_tree. destruct (trees r !! method) as [root|] eqn:Htrie; simpl.
  - repeat split; [done..|]. rewrite Htrie. eauto.
  - repeat split; [done..|]. rewrite lookup_insert_eq. eauto.
Qed.

Lemma Handle_name_spec (route : Route) (r r2 : Router) :
  Handle_name route r = Some r2 ->
  trees r2 = trees r /\ maxParams r2 = maxParams r
  /\ paramsPool_New r2 = paramsPool_New r
  /\ globalAllowed r2 = globalAllowed r
  /\ (Route_name route <> "" ->
      routes r !! Route_name route = None
      /\ routes r2 = <[Route_name route := route]> (routes r))
  /\ (Route_name route = "" -> routes r2 = routes r).
Proof.
  unfold Handle_name.
  destruct (String.eqb (Route_name route) "") eqn:Hname; simpl.
  - apply String.eqb_eq in Hname. intros [= <-]. by repeat split.
  - apply String.eqb_neq in Hname.
    destruct (routes r !! Route_name route) eqn:Htaken; [done|].
    intros [= <-]. by repeat split.
Qed.

Lemma Handle_pool_spec (path : string) (r : Router) :
  trees (Handle_pool path r) = trees r
  /\ routes (Handle_pool path r) = routes r
  /\ globalAllowed (Handle_pool path r) = globalAllowed r
  /\ maxParams (Handle_pool path r) = Z.max (maxParams r) (countParams path)
  /\ (paramsPool_New (Handle_pool path r) = true <->
      paramsPool_New r = true \/ (0 < maxParams (Handle_pool path r))%Z).
Proof.
  unfold Handle_pool.
  set (r1 := if (maxParams r <? countParams path)%Z
             then set_maxParams (countParams path) r else r).
  assert (trees r1 = trees r /\ routes r1 = routes r
          /\ globalAllowed r1 = globalAllowed r
          /\ paramsPool_New r1 = paramsPool_New r
          /\ maxParams r1 = Z.max (maxParams r) (countParams path))
    as (Htrees & Hroutes & Hcache & Hnew & Hmax).
  { subst r1. destruct (Z.ltb_spec (maxParams r) (countParams path)); simpl;
      repeat split; lia. }
  destruct (negb (paramsPool_New r1) && (0 <? maxParams r1)%Z) eqn:E; simpl.
  - apply andb_true_iff in E as [_ E]. apply Z.ltb_lt in E.
    repeat split; try done. intros _. right. lia.
  - apply andb_false_iff in E. repeat split; try done.
    + intros H. left. congruence.
    + intros [H|H]; [congruence|].
      destruct E as [E|E]; [by apply negb_false_iff in E|].
      apply Z.ltb_ge in E. lia.
Qed.

(** A registration that is carried out went through every stage. *)
Lemma Handle_Registered_inv (ks : list string) (method path : string)
    (handler : option Handler) (opts : list RouteOption) (r r' : Router) :
  Handle ks method path handler opts r = (Registered, r') ->
  let route := newRoute path handler opts in
  let root := default new_node (trees r !! method) in
  exists r2,
    method <> "" /\ bad_path path = false
    /\ Handle_name route (Handle_tree ks method r).2 = Some r2
    /\ (addRoute root path route).2 = None
    /\ r' = Handle_pool path
              (set_trees (<[method := (addRoute root path route).1]> (trees r2)) r2).
Proof.
  rewrite Handle_stages. unfold Handle_staged. cbv zeta.
  destruct (String.eqb method "") eqn:Hmethod; [done|].
  destruct (bad_path path) eqn:Hpath; [done|].
  apply String.eqb_neq in Hmethod.
  destruct (Handle_tree_spec ks method r) as [Hroot _].
  destruct (Handle_tree ks method r) as [root r1]. simpl in *. subst root.
  destruct (Handle_name _ r1) as [r2|]; [|done].
  destruct (addRoute _ path _) as [root' [msg|]]; [done|].
  intros [= <-]. by exists r2.
Qed.

(** X5: a registration that is carried out is there afterwards: the
    method has the trie that [addRoute] returned, [maxParams] is the
    larger of its old value and the wildcards of the pattern, the pool can
    make buffers exactly if it could before or [maxParams] is positive,
    and a route with a name is found by [URL] under that name. *)
Theorem Handle_registers (ks : list string) (method path : string)
    (handler : option Handler) (opts : list RouteOption) (r r' : Router) :
  Handle ks method path handler opts r = (Registered, r') ->
  let route := newRoute path handler opts in
  let root := default new_node (trees r !! method) in
  trees r' !! method = Some (addRoute root path route).1
  /\ maxParams r' = Z.max (maxParams r) (countParams path)
  /\ (paramsPool_New r' = true <->
      paramsPool_New r = true \/ (0 < maxParams r')%Z)
  /\ (Route_name route <> "" ->
      routes r' !! Route_name route = Some route
      /\ forall args, Router_URL r' (Route_name route) args = Route_URL route args)
  /\ (Route_name route = "" -> routes r' = routes r).
Proof.
  intros HH route root.
  destruct (Handle_Registered_inv _ _ _ _ _ _ _ HH)
    as (r2 & Hmethod & Hpath & Hname & Hadd & ->).
  fold route root in Hname, Hadd |- *.
  destruct (Handle_tree_spec ks method r) as (_ & Hroutes1 & Hmax1 & Hnew1 & _).
  destruct (Handle_name_spec _ _ _ Hname)
    as (Htrees2 & Hmax2 & Hnew2 & _ & Hnamed & Hunnamed).
  destruct (Handle_pool_spec path
              (set_trees (<[method := (addRoute root path route).1]> (trees r2)) r2))
    as (Htrees & Hroutes & _ & Hmax & Hnew).
  rewrite Htrees, Hroutes, Hmax. simpl in *.
  rewrite lookup_insert_eq. split; [done|].
  split; [by rewrite Hmax2, Hmax1|].
  split; [by rewrite Hnew, Hmax, Hnew2, Hnew1|].
  split.
  - intros Hn. destruct (Hnamed Hn) as [_ Hr2].
    unfold Router_URL. rewrite Hroutes, Hr2, lookup_insert_eq. by split.
  - intros Hn. by rewrite (Hunnamed Hn), Hroutes1.
Qed.

(** A call of [Handle] along its stages, whatever its outcome. *)
Lemma Handle_inv (ks : list string) (method path : string)
    (handler : option Handler) (opts : list RouteOption) (r r' : Router)
    (out : registration) :
  Handle ks method path handler opts r = (out, r') ->
  let route := newRoute path handler opts in
  let root := default new_node (trees r !! method) in
  let r1 := (Handle_tree ks method r).2 in
  ((method = "" \/ bad_path path = true)
   /\ r' = r /\ exists msg, out = Panicked in_Handle msg)
  \/ (method <> "" /\ bad_path path = false
      /\ ((Handle_name route r1 = None /\ r' = r1
           /\ out = Panicked in_Handle
                      ("route name " +:+ Route_name route +:+ " is already registered"))
          \/ exists r2,
               Handle_name route r1 = Some r2
               /\ let r3 := set_trees (<[method := (addRoute root path route).1]>
                                         (trees r2)) r2 in
                  ((exists msg, (addRoute root path route).2 = Some msg
                                /\ out = Panicked in_addRoute msg /\ r' = r3)
                   \/ ((addRoute root path route).2 = None
                       /\ out = Registered /\ r' = Handle_pool path r3)))).
Proof.
  rewrite Handle_stages. unfold Handle_staged. cbv zeta.
  destruct (String.eqb method "") eqn:Hmethod.
  { apply String.eqb_eq in Hmethod. intros [= <- <-]. left. eauto. }
  destruct (bad_path path) eqn:Hpath.
  { intros [= <- <-]. left. eauto. }
  apply String.eqb_neq in Hmethod. intros H. right. split; [done|]. split; [done|].
  destruct (Handle_tree_spec ks method r) as [Hroot _].
  destruct (Handle_tree ks method r) as [root r1]. simpl in *. subst root.
  destruct (Handle_name _ r1) as [r2|].
  - right. exists r2. split; [done|].
    destruct (addRoute _ path _) as [root' [msg|]]; simpl; injection H as <- <-.
    + left. eauto.
    + right. eauto.
  - injection H as <- <-. by left.
Qed.

(** What a call of [Handle] does to [r.routes], [maxParams] and
    [paramsPool.New], whatever its outcome. *)
Lemma Handle_bookkeeping (ks : list string) (method path : string)
    (handler : option Handler) (opts : list RouteOption) (r r' : Router)
    (out : registration) :
  Handle ks method path handler opts r = (out, r') ->
  let route := newRoute path handler opts in
  (routes r' = routes r
   \/ (Route_name route <> "" /\ routes r !! Route_name route = None
       /\ routes r' = <[Route_name route := route]> (routes r)))
  /\ (Route_name route = "" -> routes r' = routes r)
  /\ ((maxParams r' = maxParams r /\ paramsPool_New r' = paramsPool_New r)
      \/ (out = Registered
          /\ maxParams r' = Z.max (maxParams r) (countParams path)
          /\ (paramsPool_New r' = true <->
              paramsPool_New r = true \/ (0 < maxParams r')%Z))).
Proof.
  intros H route. apply Handle_inv in H. cbv zeta in H. fold route in H.
  destruct (Handle_tree_spec ks method r) as (_ & Hroutes1 & Hmax1 & Hnew1 & _).
  destruct H as [(_ & -> & _)|(_ & _ & [(_ & -> & _)|(r2 & Hname & H)])].
  - split; [by left|]. split; [done|]. by left.
  - split; [by left|]. split; [done|]. by left.
  - destruct (Handle_name_spec _ _ _ Hname)
      as (Htrees2 & Hmax2 & Hnew2 & _ & Hnamed & Hunnamed).
    rewrite Hroutes1 in Hnamed, Hunnamed. rewrite Hmax1 in Hmax2. rewrite Hnew1 in Hnew2.
    assert (forall r3, routes r3 = routes r2 ->
              (routes r3 = routes r
               \/ (Route_name route <> "" /\ routes r !! Route_name route = None
                   /\ routes r3 = <[Route_name route := route]> (routes r)))
              /\ (Route_name route = "" -> routes r3 = routes r)) as Hr.
    { intros r3 ->. split; [|done].
      destruct (decide (Route_name route = "")) as [Hn|Hn].
      - left. by apply Hunnamed.
      - right. destruct (Hnamed Hn). done. }
    destruct H as [(msg & _ & _ & ->)|(_ & -> & ->)].
    + destruct (Hr (set_trees (<[method := (addRoute (default new_node (trees r !! method))
                                              path route).1]> (trees r2)) r2) eq_refl)
        as [Hr1 Hr2].
      split; [done|]. split; [done|]. by left.
    + match goal with |- context [Handle_pool path ?r3] =>
        destruct (Handle_pool_spec path r3) as (_ & Hroutes & _ & Hmax & Hnew);
        destruct (Hr (Handle_pool path r3) Hroutes) as [Hr1 Hr2]
      end.
      split; [done|]. split; [done|]. right. split; [done|].
      simpl in Hmax, Hnew. rewrite Hmax2 in Hmax. rewrite Hnew2 in Hnew. done.
Qed.

(** X6: [Handle] is not undone by its panics.  A call that fails one of
    the two checks on its arguments leaves the router as it was; any
    other call leaves a trie for the method behind; and when it is
    [addRoute] that panics, the route's name stays registered, so that
    the same call made again panics in [Handle] over the name. *)
Theorem Handle_panic_residue (ks : list string) (method path : string)
    (handler : option Handler) (opts : list RouteOption) (r r' : Router)
    (site : panic_site) (msg : string) :
  Handle ks method path handler opts r = (Panicked site msg, r') ->
  let route := newRoute path handler opts in
  (method = "" \/ bad_path path = true -> r' = r)
  /\ (method <> "" -> bad_path path = false -> is_Some (trees r' !! method))
  /\ maxParams r' = maxParams r /\ paramsPool_New r' = paramsPool_New r
  /\ (site = in_Handle -> routes r' = routes r)
  /\ (site = in_addRoute -> Route_name route <> "" ->
      routes r' !! Route_name route = Some route
      /\ forall ks',
           (Handle ks' method path handler opts r').1
           = Panicked in_Handle
               ("route name " +:+ Route_name route +:+ " is already registered")).
Proof.
  intros H route. pose proof (Handle_bookkeeping _ _ _ _ _ _ _ _ H) as Hbook.
  pose proof H as Hinv. apply Handle_inv in Hinv. cbv zeta in Hbook, Hinv.
  fold route in Hbook, Hinv.
  destruct (Handle_tree_spec ks method r) as (_ & Hroutes1 & _ & _ & Htrie1).
  destruct Hbook as (Hroutes & _ & [[Hmax Hnew]|[[=] _]]).
  split; [|split; [|split; [done|split; [done|split]]]].
  - intros Hbad.
    destruct Hinv as [(_ & -> & _)|(Hm & Hp & _)]; [done|].
    destruct Hbad; congruence.
  - intros Hm Hp.
    destruct Hinv as [([?|?] & _)|(_ & _ & [(_ & -> & _)|(r2 & Hname & Hadd)])];
      [congruence..|done|].
    destruct Hadd as [(msg' & _ & _ & ->)|(_ & [=] & _)].
    simpl. rewrite lookup_insert_eq. eauto.
  - intros ->.
    destruct Hinv as [(_ & -> & _)|(_ & _ & [(_ & -> & _)|(r2 & Hname & Hadd)])];
      [done..|].
    destruct Hadd as [(msg' & _ & [=] & _)|(_ & [=] & _)].
  - intros -> Hn.
    destruct Hinv as [(_ & _ & msg' & [=])|(Hm & Hp & [(_ & _ & [=])|(r2 & Hname & Hadd)])].
    destruct (Handle_name_spec _ _ _ Hname) as (_ & _ & _ & _ & Hnamed & _).
    destruct (Hnamed Hn) as [_ Hr2].
    destruct Hadd as [(msg' & _ & _ & ->)|(_ & [=] & _)].
    assert (routes (set_trees (<[method := (addRoute (default new_node (trees r !! method))
                                              path route).1]> (trees r2)) r2)
              !! Route_name route = Some route) as Hthere.
    { simpl. by rewrite Hr2, lookup_insert_eq. }
    split; [done|]. intros ks'. rewrite Handle_outcome. cbv zeta. fold route.
    apply String.eqb_neq in Hm, Hn. by rewrite Hm, Hp, Hn, Hthere.
Qed.

Lemma step_bookkeeping (r r' : Router) :
  registration_step r r' ->
  (routes r' = routes r
   \/ exists route, Route_name route <> "" /\ routes r !! Route_name route = None
                    /\ routes r' = <[Route_name route := route]> (routes r))
  /\ ((maxParams r' = maxParams r /\ paramsPool_New r' = paramsPool_New r)
      \/ ((maxParams r <= maxParams r')%Z
          /\ (paramsPool_New r' = true <->
              paramsPool_New r = true \/ (0 < maxParams r')%Z))).
Proof.
  assert (forall ks method path handler opts out r r',
            Handle ks method path handler opts r = (out, r') ->
            (routes r' = routes r
             \/ exists route, Route_name route <> "" /\ routes r !! Route_name route = None
                              /\ routes r' = <[Route_name route := route]> (routes r))
            /\ ((maxParams r' = maxParams r /\ paramsPool_New r' = paramsPool_New r)
                \/ ((maxParams r <= maxParams r')%Z
                    /\ (paramsPool_New r' = true <->
                        paramsPool_New r = true \/ (0 < maxParams r')%Z)))) as HHandle.
  { clear r r'. intros ks method path handler opts out r r' H.
    destruct (Handle_bookkeeping _ _ _ _ _ _ _ _ H) as (Hroutes & _ & Hpool). split.
    - destruct Hroutes as [?|(? & ? & ?)]; [by left|right; eauto].
    - destruct Hpool as [?|(_ & Hmax & Hnew)]; [by left|right]. split; [lia|done]. }
  intros [ks method path handler opts r0 out r0' _ H
         |ks method path handle opts r0 out r0' _ H
         |r0 r0' _ Hroutes Hnew Hmax _].
  - by eapply HHandle.
  - destruct handle as [f|]; [by eapply HHandle|].
    injection H as _ <-. split; by left.
  - split; by left.
Qed.

(** X7: a named route is there for good, under its own name: whatever
    registrations follow, succeed or panic, the name keeps its route,
    so [URL] keeps answering for it; every key of [r.routes] is the
    non-empty name of its route, and [URL] has no route for the empty
    name. *)
Theorem named_routes_stay (r0 r : Router) :
  (forall name route, routes r0 !! name = Some route ->
                      name <> "" /\ Route_name route = name) ->
  rtc registration_step r0 r ->
  (forall name route, routes r !! name = Some route ->
                      name <> "" /\ Route_name route = name)
  /\ (forall name route, routes r0 !! name = Some route ->
        routes r !! name = Some route
        /\ forall args, Router_URL r name args = Route_URL route args)
  /\ forall args,
       Router_URL r "" args = inr ("route " +:+ Quote "" +:+ " does not exist").
Proof.
  intros H0 Hsteps.
  assert ((forall name route, routes r !! name = Some route ->
                              name <> "" /\ Route_name route = name)
          /\ (forall name route, routes r0 !! name = Some route ->
                                 routes r !! name = Some route)) as [Hnamed Hstay].
  { induction Hsteps as [r|r1 r2 r3 Hstep _ IH]; [done|].
    destruct (step_bookkeeping _ _ Hstep) as [[Hr|(route & Hn & Hfree & Hr)] _].
    - destruct IH as [IH1 IH2].
      + intros name route. rewrite Hr. apply H0.
      + split; [done|]. intros name rt Hrt. apply IH2. by rewrite Hr.
    - destruct IH as [IH1 IH2].
      + intros name rt. rewrite Hr.
        destruct (decide (name = Route_name route)) as [->|Hne].
        * rewrite lookup_insert_eq. by intros [= <-].
        * rewrite lookup_insert_ne by done. apply H0.
      + split; [done|]. intros name rt Hrt. apply IH2. rewrite Hr.
        rewrite lookup_insert_ne; [done|]. intros <-. congruence. }
  split; [done|]. split.
  - intros name route Hroute. split; [by apply Hstay|].
    intros args. unfold Router_URL. by rewrite (Hstay _ _ Hroute).
  - intros args. unfold Router_URL.
    destruct (routes r !! "") as [route|] eqn:E; [|done].
    by destruct (Hnamed _ _ E).
Qed.

(** X8: the pool can make buffers exactly when [maxParams] is positive:
    from a router on which [paramsPool.New] is set if and only if
    [maxParams] is positive, as on a new one, every sequence of
    registrations keeps it so, and [maxParams] only grows. *)
Theorem paramsPool_New_iff_maxParams (r0 r : Router) :
  (paramsPool_New r0 = true <-> (0 < maxParams r0)%Z) ->
  rtc registration_step r0 r ->
  (paramsPool_New r = true <-> (0 < maxParams r)%Z)
  /\ (maxParams r0 <= maxParams r)%Z.
Proof.
  intros H0 Hsteps. induction Hsteps as [r|r1 r2 r3 Hstep _ IH]; [split; [done|lia]|].
  destruct (step_bookkeeping _ _ Hstep) as [_ [[Hmax Hnew]|[Hmax Hnew]]].
  - destruct IH as [IH1 IH2]; [by rewrite Hnew, Hmax|].
    split; [done|lia].
  - destruct IH as [IH1 IH2]; [|split; [done|lia]].
    rewrite Hnew, H0. split; [|by right]. intros [?|?]; lia.
Qed.

Lemma string_from_app (p q : string) :
  string_from (String.length p) (p +:+ q) = q.
Proof. induction p as [|c p IH]; [done|]. by rewrite app_String. Qed.

Lemma string_from_split (n : nat) (s : string) :
  (n <= String.length s)%nat ->
  exists p, s = p +:+ string_from n s /\ String.length p = n.
Proof.
  revert s. induction n as [|n IH]; intros s Hn.
  - by exists "".
  - destruct s as [|c s]; simpl in Hn; [lia|].
    destruct (IH s) as (p & Hp & Hlen); [lia|].
    exists (String c p). simpl. rewrite app_String, <- Hp, Hlen. done.
Qed.

Lemma string_length_append (p q : string) :
  String.length (p +:+ q) = (String.length p + String.length q)%nat.
Proof. induction p as [|c p IH]; [done|]. rewrite app_String. simpl. by rewrite IH. Qed.

Lemma bad_files_path_spec (path : string) :
  bad_files_path path = false <-> exists p, path = p +:+ "/*filepath".
Proof.
  unfold bad_files_path, GoString.len. rewrite orb_false_iff, negb_false_iff.
  rewrite Nat.ltb_ge, String.eqb_eq. split.
  - intros [Hlen Hsuffix].
    destruct (string_from_split (String.length path - 10) path) as (p & Hp & _); [lia|].
    exists p. by rewrite <- Hsuffix.
  - intros [p ->]. rewrite string_length_append. simpl. split; [lia|].
    replace (String.length p + 10 - 10)%nat with (String.length p) by lia.
    apply string_from_app.
Qed.

(** X9: [ServeFiles] panics itself exactly when the pattern does not
    end in /*filepath, and then leaves the router alone; otherwise it is
    the registration of its function literal for GET, without options,
    with the outcome and the router that this registration gives. *)
Theorem ServeFiles_spec (ks : list string) (path : string) (root : FileSystem)
    (r : Router) :
  ((exists msg, (ServeFiles ks path root r).1 = inl msg)
   <-> ~ exists p, path = p +:+ "/*filepath")
  /\ ((~ exists p, path = p +:+ "/*filepath") ->
      ServeFiles ks path root r
      = (inl ("path must end with /*filepath in path '" +:+ path +:+ "'"), r))
  /\ ((exists p, path = p +:+ "/*filepath") ->
      let registered :=
        Handle ks http.MethodGet path
          (Some (HandlerFunc_conv (ServeFiles_func root))) [] r in
      ServeFiles ks path root r = (inr registered.1, registered.2)).
Proof.
  pose proof (bad_files_path_spec path) as Hspec. unfold ServeFiles.
  destruct (bad_files_path path) eqn:Hbad.
  - assert (~ exists p, path = p +:+ "/*filepath") as Hnot.
    { intros H. apply Hspec in H. done. }
    split; [|split; [done|done]].
    split; [done|]. intros _. simpl. eauto.
  - assert (exists p, path = p +:+ "/*filepath") as Hyes by (by apply Hspec).
    unfold Router_Get, HandleFunc.
    destruct (Handle _ _ _ _ _ r) as [out r'] eqn:E.
    split; [|split; [done|done]].
    simpl. split; [by intros [msg [=]]|done].
Qed.

(** X10: of the shortcuts only [Get] passes its route options on;
    [Head], [Options], [Post], [Put], [Patch] and [Delete] drop them,
    so that a name given to one of them registers no name whenever a
    route made without options has none. *)
Theorem shortcuts_drop_options (ks : list string) (path : string)
    (handle : option HandlerFunc) (opts : list RouteOption) (r : Router) :
  (forall handler, Route_name (newRoute path handler []) = "") ->
  Forall (fun shortcut =>
            shortcut ks path handle opts r = shortcut ks path handle [] r
            /\ routes (shortcut ks path handle opts r).2 = routes r)
         [Router_Head; Router_Options; Router_Post; Router_Put;
          Router_Patch; Router_Delete]
  /\ Router_Get ks path handle opts r
     = HandleFunc ks http.MethodGet path handle opts r.
Proof.
  intros Hunnamed.
  assert (forall method, routes (HandleFunc ks method path handle [] r).2 = routes r) as H.
  { intros method. unfold HandleFunc. destruct handle as [f|]; [|done].
    destruct (Handle ks method path (Some (HandlerFunc_conv f)) [] r) as [out r'] eqn:E.
    destruct (Handle_bookkeeping _ _ _ _ _ _ _ _ E) as (_ & Hr & _).
    simpl. by apply Hr. }
  split; [|done]. repeat constructor; apply H.
Qed.

End MoreProperties.


(** ** The store under dispatch *)

Section StoreProperties.

Context `{Pkg : Package} `{Rt : Runtime}.

Lemma keeps_unpooled_refl (m : Mem) : keeps_unpooled m m.
Proof. by intros a Ha. Qed.

Lemma keeps_unpooled_trans (m1 m2 m3 : Mem) :
  keeps_unpooled m1 m2 -> keeps_unpooled m2 m3 -> keeps_unpooled m1 m3.
Proof.
  intros H12 H23 a Ha. destruct (H12 a Ha) as [Ha2 E2].
  destruct (H23 a Ha2) as [Ha3 E3]. split; [done|]. by rewrite E3.
Qed.

(** A buffer that is held back from a good pool is good, is not in the
    pool, and its backing array is that of no pooled buffer. *)
Lemma store_ok_held (ps : loc) (m : Mem) :
  store_ok (with_pooled ps m) ->
  store_ok m /\ cell_ok m ps /\ (ps ∉ pool m)
  /\ (forall s, cells m !! ps = Some s -> unpooled m (data s))
  /\ keeps_unpooled (with_pooled ps m) m.
Proof.
  intros (HA & HC & HP & HN & HS). simpl in *.
  apply NoDup_cons in HN as [Hnot HN].
  assert (cell_ok m ps) as Hps by (apply (HP ps); left).
  split; [|split; [done|split; [done|split]]].
  - split; [done|]. split; [done|]. split.
    { intros q Hq. apply (HP q). by right. }
    split; [done|]. intros p q sp sq Hp Hq. apply HS; by right.
  - intros s Hs. destruct Hps as (s' & arr & Hs' & Harr & _).
    assert (s' = s) as -> by congruence. split.
    + apply HA. eauto.
    + intros q sq Hq Hsq Heq. destruct Hnot.
      rewrite (HS ps q s sq); [done|by left|by right|done..].
  - intros a [Hlt Ha]. split; [|done]. split; [done|].
    intros q sq Hq. apply Ha. by right.
Qed.

(** A buffer made by [paramsPool.New], emptied by [getParams]. *)
Lemma fresh_buffer_store (n : nat) (m : Mem) :
  store_ok m ->
  let ps : loc := S (next m) in
  let s := {| data := next m; len := 0; cap := n |} in
  let m' := {| arrays := <[next m := replicate n zero_Param]> (arrays m);
               cells := <[ps := s]> (<[ps := s]> (cells m));
               pool := pool m; next := S (S (next m)) |} in
  store_ok (with_pooled ps m') /\ cell_view m' ps = []
  /\ keeps_unpooled m (with_pooled ps m').
Proof.
  intros (HA & HC & HP & HN & HS) ps s m'.
  assert (forall q : loc, q ∈ pool m ->
            q <> ps /\ exists sq arr,
              cells m !! q = Some sq /\ cells m' !! q = Some sq
              /\ arrays m' !! data sq = Some arr
              /\ (len sq <= cap sq)%nat /\ (cap sq <= length arr)%nat
              /\ data sq <> next m) as Hold.
  { intros q Hq. destruct (HP _ Hq) as (sq & arr & Hsq & Harr & Hlen & Hcap).
    assert (q < next m)%nat by (apply HC; eauto).
    assert (data sq < next m)%nat by (apply HA; eauto).
    assert (q <> ps) by (unfold ps; lia).
    split; [done|]. exists sq, arr. simpl.
    rewrite !lookup_insert_ne by done. rewrite lookup_insert_ne by lia.
    repeat split; [done..|lia]. }
  assert (forall (q : loc) sq, q ∈ pool m -> cells m' !! q = Some sq ->
            cells m !! q = Some sq /\ data sq <> next m) as Hinv.
  { intros q sq Hq Hsq.
    destruct (Hold _ Hq) as (_ & sq' & _ & Hsq0 & Hsq' & _ & _ & _ & Hne).
    rewrite Hsq in Hsq'. injection Hsq' as <-. done. }
  assert (cells m' !! ps = Some s) as Hps by (simpl; by rewrite lookup_insert_eq).
  assert (forall sx, cells m' !! ps = Some sx -> data sx = next m) as Hps'.
  { intros sx Hsx. rewrite Hps in Hsx. by injection Hsx as <-. }
  split; [|split].
  - split; [|split; [|split; [|split]]].
    + intros a [arr Ha]. simpl in *. destruct (decide (a = next m)) as [->|Hne]; [lia|].
      rewrite lookup_insert_ne in Ha by done.
      assert (a < next m)%nat by (apply HA; eauto). lia.
    + intros c [sc Hc]. simpl in *.
      destruct (decide (c = ps)) as [->|Hne]; [unfold ps; lia|].
      rewrite !lookup_insert_ne in Hc by done.
      assert (c < next m)%nat by (apply HC; eauto). lia.
    + intros q Hq. apply elem_of_cons in Hq as [->|Hq].
      * exists s, (replicate n zero_Param). simpl.
        rewrite !lookup_insert_eq, length_replicate. repeat split; [lia|done].
      * destruct (Hold _ Hq) as (_ & sq & arr & _ & Hsq & Harr & Hlen & Hcap & _).
        by exists sq, arr.
    + apply NoDup_cons. split; [|done]. intros Hin. by destruct (Hold _ Hin).
    + intros p q sp sq Hp Hq Hsp Hsq Heq.
      apply elem_of_cons in Hp as [->|Hp]; apply elem_of_cons in Hq as [->|Hq];
        [done| | |].
      * apply Hps' in Hsp. destruct (Hinv _ _ Hq Hsq) as [_ Hne]. congruence.
      * apply Hps' in Hsq. destruct (Hinv _ _ Hp Hsp) as [_ Hne]. congruence.
      * destruct (Hinv _ _ Hp Hsp) as [Hsp0 _]. destruct (Hinv _ _ Hq Hsq) as [Hsq0 _].
        by eapply HS.
  - unfold cell_view. by rewrite Hps.
  - intros a [Hlt Ha]. split; [split|].
    + simpl. lia.
    + intros q sq Hq Hsq. apply elem_of_cons in Hq as [->|Hq].
      * apply Hps' in Hsq. lia.
      * destruct (Hinv _ _ Hq Hsq) as [Hsq0 _]. by eapply Ha.
    + simpl. rewrite lookup_insert_ne by lia. done.
Qed.

(** A buffer taken from the pool, emptied by [getParams]. *)
Lemma pooled_buffer_store (i : nat) (ps : loc) (s : Params) (m : Mem) :
  store_ok m -> pool m !! i = Some ps -> cells m !! ps = Some s ->
  let m' := {| arrays := arrays m;
               cells := <[ps := {| data := data s; len := 0; cap := cap s |}]> (cells m);
               pool := delete i (pool m); next := next m |} in
  store_ok (with_pooled ps m') /\ cell_view m' ps = []
  /\ keeps_unpooled m (with_pooled ps m').
Proof.
  intros (HA & HC & HP & HN & HS) Hi Hs m'.
  assert (pool m ≡ₚ ps :: delete i (pool m)) as Hperm by by apply delete_Permutation.
  assert (forall q : loc, q ∈ ps :: delete i (pool m) -> q ∈ pool m) as Hin.
  { intros q Hq. by rewrite Hperm. }
  assert (forall (q : loc) sq, cells m' !! q = Some sq ->
            exists sq0, cells m !! q = Some sq0 /\ data sq0 = data sq
                        /\ cap sq0 = cap sq /\ (len sq <= len sq0)%nat) as Hinv.
  { intros q sq. simpl. destruct (decide (q = ps)) as [->|Hne].
    - rewrite lookup_insert_eq. intros [= <-]. exists s. simpl. repeat split; (done || lia).
    - rewrite lookup_insert_ne by done. intros Hsq. by exists sq. }
  assert (forall (q : loc) sq0, cells m !! q = Some sq0 ->
            exists sq, cells m' !! q = Some sq /\ data sq0 = data sq
                       /\ cap sq0 = cap sq /\ (len sq <= len sq0)%nat) as Hfwd.
  { intros q sq0 Hsq0. simpl. destruct (decide (q = ps)) as [->|Hne].
    - rewrite lookup_insert_eq. eexists. split; [done|].
      assert (sq0 = s) as -> by congruence. simpl. repeat split; lia.
    - rewrite lookup_insert_ne by done. by exists sq0. }
  split; [|split].
  - split; [|split; [|split; [|split]]].
    + done.
    + intros c [sc Hc]. destruct (Hinv _ _ Hc) as (sc0 & Hc0 & _). apply HC. eauto.
    + intros q Hq. apply Hin in Hq.
      destruct (HP _ Hq) as (sq0 & arr & Hsq0 & Harr & Hlen & Hcap).
      destruct (Hfwd _ _ Hsq0) as (sq & Hsq & Hd & Hc & Hl).
      exists sq, arr. split; [done|]. split; [simpl; by rewrite <- Hd|]. lia.
    + simpl. by rewrite <- Hperm.
    + intros p q sp sq Hp Hq Hsp Hsq Heq. apply Hin in Hp, Hq.
      destruct (Hinv _ _ Hsp) as (sp0 & Hsp0 & Hdp & _).
      destruct (Hinv _ _ Hsq) as (sq0 & Hsq0 & Hdq & _).
      eapply HS; [done..|congruence].
  - unfold cell_view. simpl. by rewrite lookup_insert_eq.
  - intros a [Hlt Ha]. split; [split|]; [done| |done].
    intros q sq Hq Hsq. apply Hin in Hq.
    destruct (Hinv _ _ Hsq) as (sq0 & Hsq0 & Hd & _). rewrite <- Hd. by eapply Ha.
Qed.

(** [getParams] over a good store: the buffer it returns is as good as
    a pooled one, and empty; when it panics the pool had nothing to
    give and [paramsPool.New] is not set. *)
Lemma getParams_store (r : Router) (m m' : Mem) (out : res loc) :
  store_ok m -> getParams r m = (out, m') ->
  match out with
  | Ok ps =>
      store_ok (with_pooled ps m') /\ cell_view m' ps = []
      /\ keeps_unpooled m (with_pooled ps m')
  | Panic _ => m' = m /\ paramsPool_New r = false
  end.
Proof.
  intros Hok. pose proof Hok as (HA & HC & HP & HN & HS).
  assert (paramsPool_New r = true ->
          getParams r m = (out, m') ->
          (let! got := (let! ps := new_Params (Z.to_nat (maxParams r)) in ret (Some ps)) in
           match got with
           | None => panic "interface conversion: interface {} is nil, not *clevergo.Params"
           | Some ps =>
               let! s := load ps in
               let! _ := store ps {| data := data s; len := 0; cap := cap s |} in
               ret ps
           end) m = (out, m') ->
          match out with
          | Ok ps =>
              store_ok (with_pooled ps m') /\ cell_view m' ps = []
              /\ keeps_unpooled m (with_pooled ps m')
          | Panic _ => m' = m /\ paramsPool_New r = false
          end) as Hnew.
  { intros _ _. unfold bind, new_Params, bind, alloc, store_array, store, load, ret. simpl.
    rewrite lookup_insert_eq. simpl. intros [= <- <-].
    by apply fresh_buffer_store. }
  unfold getParams, bind, paramsPool_Get in *.
  destruct (pick m) as [i|].
  - destruct (pool m !! i) as [ps|] eqn:Hi.
    + destruct (HP ps) as (s & arr & Hs & _); [by eapply list_elem_of_lookup_2|].
      unfold load. simpl. rewrite Hs. simpl. intros [= <- <-].
      by apply pooled_buffer_store.
    + destruct (paramsPool_New r) eqn:E; [by intros H; apply Hnew|].
      by intros [= <- <-].
  - destruct (paramsPool_New r) eqn:E; [by intros H; apply Hnew|].
    by intros [= <- <-].
Qed.

(** The capacity of the buffer that [getParams] hands out: that of the
    pooled buffer it took, or [maxParams] for one that [paramsPool.New]
    made. *)
Lemma getParams_cap (r : Router) (m m' : Mem) (ps : loc) :
  getParams r m = (Ok ps, m') ->
  exists s, cells m' !! ps = Some s /\ len s = 0%nat
    /\ (cap s = Z.to_nat (maxParams r)
        \/ exists s0, ps ∈ pool m /\ cells m !! ps = Some s0 /\ cap s = cap s0).
Proof.
  assert (paramsPool_New r = true ->
          (let! got := (let! ps := new_Params (Z.to_nat (maxParams r)) in ret (Some ps)) in
           match got with
           | None => panic "interface conversion: interface {} is nil, not *clevergo.Params"
           | Some ps =>
               let! s := load ps in
               let! _ := store ps {| data := data s; len := 0; cap := cap s |} in
               ret ps
           end) m = (Ok ps, m') ->
          exists s, cells m' !! ps = Some s /\ len s = 0%nat
            /\ (cap s = Z.to_nat (maxParams r)
                \/ exists s0, ps ∈ pool m /\ cells m !! ps = Some s0 /\ cap s = cap s0))
    as Hnew.
  { intros _. unfold bind, new_Params, bind, alloc, store_array, store, load, ret. simpl.
    rewrite lookup_insert_eq. simpl. intros [= <- <-]. simpl.
    rewrite lookup_insert_eq. eexists. split; [done|]. split; [done|]. by left. }
  unfold getParams, bind, paramsPool_Get in *.
  destruct (pick m) as [i|].
  - destruct (pool m !! i) as [ps0|] eqn:Hi.
    + unfold load. simpl. destruct (cells m !! ps0) as [s0|] eqn:Hs0; [|done].
      simpl. intros [= <- <-]. simpl. rewrite lookup_insert_eq.
      eexists. split; [done|]. split; [done|]. right. exists s0.
      split; [by eapply list_elem_of_lookup_2|done].
    + destruct (paramsPool_New r) eqn:E; [by apply Hnew|done].
  - destruct (paramsPool_New r) eqn:E; [by apply Hnew|done].
Qed.

(** A write through the held buffer [ps]: a new slice header [s'] for
    it over the same backing array, whose contents [arr'] replace the
    old ones at the same length. *)
Lemma write_buffer_store (ps : loc) (s s' : Params) (arr arr' : list Param)
    (m : Mem) :
  store_ok (with_pooled ps m) ->
  cells m !! ps = Some s ->
  arrays m !! data s = Some arr ->
  data s' = data s -> length arr' = length arr ->
  (len s' <= cap s')%nat -> (cap s' <= length arr')%nat ->
  let m' := {| arrays := <[data s' := arr']> (arrays m);
               cells := <[ps := s']> (cells m);
               pool := pool m; next := next m |} in
  store_ok (with_pooled ps m')
  /\ keeps_unpooled (with_pooled ps m) (with_pooled ps m').
Proof.
  intros (HA & HC & HP & HN & HS) Hs Harr Hdata Hlength Hlen Hcap m'. simpl in *.
  apply NoDup_cons in HN as [Hnot HN].
  assert (data s' < next m)%nat as Hdata'.
  { rewrite Hdata. apply HA. eauto. }
  assert (forall (q : loc), q ∈ pool m ->
            q <> ps /\ exists sq arrq,
              cells m !! q = Some sq /\ cells m' !! q = Some sq
              /\ arrays m' !! data sq = Some arrq
              /\ (len sq <= cap sq)%nat /\ (cap sq <= length arrq)%nat
              /\ data sq <> data s') as Hold.
  { intros q Hq. assert (q <> ps) as Hne by (intros ->; done).
    split; [done|].
    destruct (HP q) as (sq & arrq & Hsq & Harrq & Hl & Hc); [by right|].
    assert (data sq <> data s') as Hd.
    { rewrite Hdata. intros Heq. apply Hne. symmetry.
      eapply (HS ps q s sq); [by left|by right|done..]. }
    exists sq, arrq. simpl. rewrite !lookup_insert_ne by done. done. }
  assert (forall (q : loc) sq, q ∈ pool m -> cells m' !! q = Some sq ->
            cells m !! q = Some sq /\ data sq <> data s') as Hinv.
  { intros q sq Hq Hsq.
    destruct (Hold _ Hq) as (_ & sq' & _ & Hsq0 & Hsq' & _ & _ & _ & Hne).
    rewrite Hsq in Hsq'. by injection Hsq' as <-. }
  assert (forall sx, cells m' !! ps = Some sx -> sx = s') as Hps'.
  { intros sx. simpl. rewrite lookup_insert_eq. congruence. }
  split.
  - split; [|split; [|split; [|split]]]; simpl.
    + intros a [arr0 Ha]. destruct (decide (a = data s')) as [->|Hne]; [done|].
      rewrite lookup_insert_ne in Ha by done. apply HA. eauto.
    + intros c [sc Hc]. destruct (decide (c = ps)) as [->|Hne].
      * apply HC. eauto.
      * rewrite lookup_insert_ne in Hc by done. apply HC. eauto.
    + intros q Hq. apply elem_of_cons in Hq as [->|Hq].
      * exists s', arr'. simpl. by rewrite !lookup_insert_eq.
      * destruct (Hold _ Hq) as (_ & sq & arrq & _ & Hsq & Harrq & Hl & Hc & _).
        by exists sq, arrq.
    + by apply NoDup_cons.
    + intros p q sp sq Hp Hq Hsp Hsq Heq.
      apply elem_of_cons in Hp as [->|Hp]; apply elem_of_cons in Hq as [->|Hq];
        [done| | |].
      * apply Hps' in Hsp as ->. destruct (Hinv _ _ Hq Hsq) as [_ Hne]. congruence.
      * apply Hps' in Hsq as ->. destruct (Hinv _ _ Hp Hsp) as [_ Hne]. congruence.
      * destruct (Hinv _ _ Hp Hsp) as [Hsp0 _]. destruct (Hinv _ _ Hq Hsq) as [Hsq0 _].
        eapply HS; [by right|by right|done..].
  - intros a [Hlt Ha]. simpl in *.
    assert (data s <> a) as Hsa by (eapply Ha; [by left|done]).
    assert (data s' <> a) as Hsa' by (by rewrite Hdata).
    split; [split|]; simpl.
    + done.
    + intros q sq Hq Hsq. apply elem_of_cons in Hq as [->|Hq].
      * by apply Hps' in Hsq as ->.
      * destruct (Hinv _ _ Hq Hsq) as [Hsq0 _]. eapply Ha; [by right|done].
    + by rewrite lookup_insert_ne.
Qed.

(** A write of [getValue] through a held buffer: with room in the
    buffer the parameter is added at the end of what is read through
    it; without, the write panics and the store is as before. *)
Lemma append_Param_store (ps : loc) (p : Param) (m m' : Mem) (out : res unit) :
  store_ok (with_pooled ps m) ->
  append_Param ps p m = (out, m') ->
  store_ok (with_pooled ps m')
  /\ keeps_unpooled (with_pooled ps m) (with_pooled ps m')
  /\ exists s, cells m !! ps = Some s
       /\ match out with
          | Ok _ =>
              (len s < cap s)%nat
              /\ cells m' !! ps
                 = Some {| data := data s; len := S (len s); cap := cap s |}
              /\ cell_view m' ps = cell_view m ps ++ [p]
          | Panic _ => (cap s <= len s)%nat /\ m' = m
          end.
Proof.
  intros Hok. pose proof Hok as (HA & HC & HP & HN & HS).
  destruct (HP ps) as (s & arr & Hs & Harr & Hlen & Hcap); [by left|].
  simpl in Hs, Harr.
  unfold append_Param, bind, load, load_array. rewrite Hs. simpl. rewrite Harr.
  unfold cell_view at 2. unfold view. rewrite Hs, Harr. simpl.
  destruct (len s <? cap s)%nat eqn:Hroom.
  - apply Nat.ltb_lt in Hroom. intros [= <- <-].
    destruct (write_buffer_store ps s {| data := data s; len := S (len s); cap := cap s |}
                arr (<[len s := p]> arr) m Hok Hs Harr) as [Hok' Hkeep].
    { done. }
    { by rewrite length_insert. }
    { simpl. lia. }
    { simpl. rewrite length_insert. lia. }
    split; [done|]. split; [done|]. exists s. split; [done|].
    split; [done|]. simpl. rewrite lookup_insert_eq. split; [done|].
    unfold cell_view, view. simpl. rewrite !lookup_insert_eq. simpl.
    rewrite (take_S_r _ _ p); [by rewrite take_insert_ge|].
    apply list_lookup_insert_eq. lia.
  - apply Nat.ltb_ge in Hroom. intros [= <- <-].
    split; [done|]. split; [apply keeps_unpooled_refl|]. by exists s.
Qed.

(** The writes of [getValue] through a held buffer succeed exactly when
    the parameters fit into what is left of its capacity. *)
Lemma append_Params_store (ps : loc) (kvs : list Param) (m m' : Mem)
    (out : res unit) :
  store_ok (with_pooled ps m) ->
  append_Params ps kvs m = (out, m') ->
  store_ok (with_pooled ps m')
  /\ keeps_unpooled (with_pooled ps m) (with_pooled ps m')
  /\ exists s, cells m !! ps = Some s
       /\ match out with
          | Ok _ =>
              (len s + length kvs <= cap s)%nat
              /\ cell_view m' ps = cell_view m ps ++ kvs
          | Panic _ => (cap s < len s + length kvs)%nat
          end.
Proof.
  revert m. induction kvs as [|p kvs IH]; intros m Hok; simpl.
  - intros [= <- <-]. split; [done|]. split; [apply keeps_unpooled_refl|].
    destruct Hok as (_ & _ & HP & _). destruct (HP ps) as (s & arr & Hs & _ & Hlen & _);
      [by left|].
    exists s. split; [done|]. split; [lia|by rewrite app_nil_r].
  - unfold bind. destruct (append_Param ps p m) as [[[]|msg] m1] eqn:Happ;
      destruct (append_Param_store _ _ _ _ _ Hok Happ) as (Hok1 & Hkeep1 & s & Hs & H1).
    + destruct H1 as (Hroom & Hs1 & Hview1). intros Happs.
      destruct (IH m1 Hok1 Happs) as (Hok2 & Hkeep2 & s1 & Hs1' & H2).
      split; [done|]. split; [by eapply keeps_unpooled_trans|].
      exists s. split; [done|].
      rewrite Hs1 in Hs1'. injection Hs1' as <-. simpl in H2.
      destruct out as [[]|msg].
      * destruct H2 as [Hfit Hview2]. split; [lia|].
        by rewrite Hview2, Hview1, <- app_assoc.
      * lia.
    + destruct H1 as [Hfull ->]. intros [= <- <-].
      split; [done|]. split; [apply keeps_unpooled_refl|].
      exists s. split; [done|]. lia.
Qed.

(** [getValue] with the callback of the router, over a good store. *)
Lemma getValue_store (r : Router) (root : node) (path : string) (m m' : Mem)
    (out : res (option Route * option loc * bool)) :
  store_ok m ->
  getValue root path (Some (getParams r)) m = (out, m') ->
  match out with
  | Ok (route, Some ps, tsr) =>
      exists kvs, lookup root path = (route, kvs, tsr) /\ kvs <> []
        /\ store_ok (with_pooled ps m') /\ cell_view m' ps = kvs
        /\ keeps_unpooled m (with_pooled ps m')
  | Ok (route, None, tsr) => lookup root path = (route, [], tsr) /\ m' = m
  | Panic _ =>
      store_ok m' /\ keeps_unpooled m m' /\ (lookup root path).1.2 <> []
  end.
Proof.
  intros Hok. unfold getValue.
  destruct (lookup root path) as [[route kvs] tsr].
  destruct kvs as [|kv kvs]; [by intros [= <- <-]|].
  remember (kv :: kvs) as l eqn:El. unfold bind.
  destruct (getParams r m) as [[ps|msg] m1] eqn:Hget;
    apply (getParams_store _ _ _ _ Hok) in Hget.
  - destruct Hget as (Hok1 & Hview1 & Hkeep1).
    destruct (append_Params ps l m1) as [[[]|msg] m2] eqn:Happ;
      destruct (append_Params_store _ _ _ _ _ Hok1 Happ) as (Hok2 & Hkeep2 & s & Hs & H2);
      intros [= <- <-].
    + destruct H2 as [_ Hview2]. exists l.
      split; [done|]. split; [by subst l|]. split; [done|].
      split; [by rewrite Hview2, Hview1|]. by eapply keeps_unpooled_trans.
    + destruct (store_ok_held ps m2 Hok2) as (Hok2' & _ & _ & _ & Hdrop).
      split; [done|]. split; [|by subst l].
      eapply keeps_unpooled_trans; [|exact Hdrop].
      by eapply keeps_unpooled_trans.
  - destruct Hget as [-> Hnew]. intros [= <- <-].
    split; [done|]. split; [apply keeps_unpooled_refl|by subst l].
Qed.

Lemma ServeHTTP_tree_store (r : Router) (req : Request) (m m' : Mem)
    (out : res (option (list Action))) :
  store_ok m -> ServeHTTP_tree r req m = (out, m') ->
  store_ok m' /\ keeps_unpooled m m'.
Proof.
  intros Hok. unfold ServeHTTP_tree, bind.
  destruct (trees r !! Method req) as [root|];
    [|intros [= <- <-]; split; [done|apply keeps_unpooled_refl]].
  destruct (getValue _ _ _ m) as [[[[route ps] tsr]|msg] m1] eqn:Hget;
    apply (getValue_store _ _ _ _ _ _ Hok) in Hget.
  - assert (store_ok m1 /\ keeps_unpooled m m1) as Hdrop.
    { destruct ps as [ps|].
      - destruct Hget as (kvs & _ & _ & Hok1 & _ & Hkeep).
        destruct (store_ok_held ps m1 Hok1) as (Hok1' & _ & _ & _ & Hkeep').
        split; [done|]. by eapply keeps_unpooled_trans.
      - destruct Hget as [_ ->]. split; [done|apply keeps_unpooled_refl]. }
    destruct route as [route|].
    + destruct ps as [ps|].
      * destruct Hget as (kvs & _ & _ & Hok1 & _ & Hkeep).
        destruct (store_ok_held ps m1 Hok1) as (_ & (s & arr & Hs & _) & _).
        unfold load. rewrite Hs. simpl.
        destruct (Route_handler route); intros [= <- <-]; done.
      * simpl. destruct (Route_handler route); intros [= <- <-]; done.
    + repeat match goal with
             | |- context [if ?b then _ else _] => destruct b
             | |- context [findCaseInsensitivePath ?n ?p ?b] =>
                 destruct (findCaseInsensitivePath n p b) as [? []]
             end; intros [= <- <-]; done.
  - destruct Hget as (Hok1 & Hkeep & _). by intros [= <- <-].
Qed.

Lemma ServeHTTP_store (ks : list string) (r : Router) (req : Request)
    (m m' : Mem) (out : res (list Action)) :
  store_ok m -> ServeHTTP ks r req m = (out, m') ->
  store_ok m' /\ keeps_unpooled m m'.
Proof.
  intros Hok. unfold ServeHTTP, bind.
  destruct (ServeHTTP_tree r req m) as [[[acts|]|msg] m1] eqn:Htree;
    apply (ServeHTTP_tree_store _ _ _ _ _ Hok) in Htree.
  - by intros [= <- <-].
  - destruct (ServeHTTP_allow ks r req); by intros [= <- <-].
  - by intros [= <- <-].
Qed.

Lemma Lookup_store (r : Router) (method path : string) (m m' : Mem)
    (out : res (option Route * option Params * bool)) :
  store_ok m -> Lookup r method path m = (out, m') ->
  store_ok m' /\ keeps_unpooled m m'.
Proof.
  intros Hok. unfold Lookup, bind.
  destruct (trees r !! method) as [root|];
    [|intros [= <- <-]; split; [done|apply keeps_unpooled_refl]].
  destruct (getValue _ _ _ m) as [[[[route ps] tsr]|msg] m1] eqn:Hget;
    apply (getValue_store _ _ _ _ _ _ Hok) in Hget.
  - assert (store_ok m1 /\ keeps_unpooled m m1) as Hdrop.
    { destruct ps as [ps|].
      - destruct Hget as (kvs & _ & _ & Hok1 & _ & Hkeep).
        destruct (store_ok_held ps m1 Hok1) as (Hok1' & _ & _ & _ & Hkeep').
        split; [done|]. by eapply keeps_unpooled_trans.
      - destruct Hget as [_ ->]. split; [done|apply keeps_unpooled_refl]. }
    destruct route as [route|]; [|by intros [= <- <-]].
    destruct ps as [ps|]; [|by intros [= <- <-]].
    destruct Hget as (kvs & _ & _ & Hok1 & _ & Hkeep).
    destruct (store_ok_held ps m1 Hok1) as (_ & (s & arr & Hs & _) & _).
    unfold load. rewrite Hs. by intros [= <- <-].
  - destruct Hget as (Hok1 & Hkeep & _). by intros [= <- <-].
Qed.

(** *** What the handler and the caller of [Lookup] read *)

(** With a buffer to be had that holds them, [getValue] binds the
    parameters that the walk found. *)
Lemma getValue_binds (r : Router) (root : node) (path : string)
    (route : option Route) (kvs : list Param) (tsr : bool) (m : Mem) :
  store_ok m -> paramsPool_New r = true -> buffers_hold r m (length kvs) ->
  lookup root path = (route, kvs, tsr) -> kvs <> [] ->
  exists ps m',
    getValue root path (Some (getParams r)) m = (Ok (route, Some ps, tsr), m')
    /\ store_ok (with_pooled ps m') /\ cell_view m' ps = kvs
    /\ keeps_unpooled m (with_pooled ps m').
Proof.
  intros Hok Hnew [Hmax Hpool] Hl Hne.
  destruct (getParams_returns r m Hnew) as (ps & m1 & Hget).
  { intros q Hq. destruct Hok as (_ & _ & HP & _).
    destruct (HP q Hq) as (s & _ & Hs & _). eauto. }
  destruct (getParams_cap _ _ _ _ Hget) as (s & Hs & Hlen & Hcap).
  assert (length kvs <= cap s)%nat as Hfits.
  { destruct Hcap as [->|(s0 & Hin & Hs0 & ->)]; [done|]. by eapply Hpool. }
  pose proof (getParams_store _ _ _ _ Hok Hget) as (Hok1 & Hview1 & Hkeep1).
  unfold getValue. rewrite Hl.
  destruct kvs as [|kv kvs]; [done|].
  remember (kv :: kvs) as l eqn:El. unfold bind. rewrite Hget.
  destruct (append_Params ps l m1) as [[[]|msg] m2] eqn:Happ;
    destruct (append_Params_store _ _ _ _ _ Hok1 Happ) as (Hok2 & Hkeep2 & s' & Hs' & H2);
    rewrite Hs in Hs'; injection Hs' as <-.
  - destruct H2 as [_ Hview2]. exists ps, m2. split; [done|]. split; [done|].
    split; [by rewrite Hview2, Hview1|]. by eapply keeps_unpooled_trans.
  - lia.
Qed.

(** X11: a request that the trie routes reaches the route's handler with
    exactly the parameters the walk bound, in pattern order, readable
    through [GetParams], provided the buffers that [getParams] can hand
    out hold that many parameters; a route without wildcards leaves the
    request's context and the store alone; the matched route is in the
    context exactly when [SaveMatchedRoute] is on. *)
Theorem ServeHTTP_routed (ks : list string) (r : Router) (req : Request)
    (root : node) (route : Route) (kvs : list Param) (tsr : bool)
    (h : Handler) (m : Mem) :
  store_ok m ->
  trees r !! Method req = Some root ->
  lookup root (Path (url req)) = (Some route, kvs, tsr) ->
  Route_handler route = Some h ->
  (kvs <> [] -> paramsPool_New r = true /\ buffers_hold r m (length kvs)) ->
  exists req' m',
    ServeHTTP ks r req m = (Ok [Handler_ServeHTTP h req'], m')
    /\ store_ok m'
    /\ Method req' = Method req /\ url req' = url req
    /\ GetRoute req' = (if SaveMatchedRoute r then Some route else GetRoute req)
    /\ (kvs = [] -> GetParams req' = GetParams req /\ m' = m)
    /\ (kvs <> [] ->
        params_of m' (GetParams req') = kvs
        /\ forall name,
             Params_Get m' (GetParams req') name = Params_Get_list kvs name).
Proof.
  intros Hok Htree Hl Hh Hnew. unfold ServeHTTP, ServeHTTP_tree, bind.
  rewrite Htree. destruct (decide (kvs = [])) as [->|Hne].
  - rewrite (getValue_unbound _ _ _ _ _ _ Hl). simpl. rewrite Hh. simpl.
    eexists _, _. split; [reflexivity|]. split; [done|].
    destruct (SaveMatchedRoute r); by repeat split.
  - destruct (Hnew Hne) as [Hset Hhold].
    destruct (getValue_binds r root _ _ _ _ m Hok Hset Hhold Hl Hne)
      as (ps & m1 & -> & Hok1 & Hview & _).
    destruct (store_ok_held ps m1 Hok1) as (_ & (s & arr & Hs & _) & _).
    unfold load. rewrite Hs. simpl. rewrite Hh. simpl.
    eexists _, _. split; [reflexivity|]. split; [done|].
    unfold cell_view in Hview. rewrite Hs in Hview.
    assert (forall req0, GetParams req0 = Some s ->
              params_of (with_pooled ps m1) (GetParams req0) = kvs
              /\ forall name, Params_Get (with_pooled ps m1) (GetParams req0) name
                              = Params_Get_list kvs name) as Hread.
    { intros req0 ->. split; [exact Hview|]. intros name. simpl.
      change (view _ s) with (view m1 s). by rewrite Hview. }
    destruct (SaveMatchedRoute r);
      (split; [done|split; [done|split; [done|split; [done|]]]]);
      intros _; by apply Hread.
Qed.

(** Over a well-formed store, a sequence of calls of [ServeHTTP] and
    [Lookup] keeps the store well-formed and the unpooled arrays as
    they are. *)
Lemma dispatch_steps_store (m m' : Mem) :
  store_ok m -> rtc dispatch_step m m' ->
  store_ok m' /\ keeps_unpooled m m'.
Proof.
  intros Hok Hsteps. induction Hsteps as [m|m m1 m2 Hstep _ IH].
  - split; [done|apply keeps_unpooled_refl].
  - assert (store_ok m1 /\ keeps_unpooled m m1) as [Hok1 Hkeep1].
    { destruct Hstep as [ks r req out m m1 H|r method path out m m1 H].
      - by eapply ServeHTTP_store.
      - by eapply Lookup_store. }
    destruct (IH Hok1) as [Hok2 Hkeep2]. split; [done|].
    by eapply keeps_unpooled_trans.
Qed.

(** X12: no sequence of calls of [ServeHTTP] and [Lookup] breaks a
    well-formed store, and none writes to an array that is not the
    backing array of a pooled buffer: such an array is never handed
    out again, and a slice over it reads the same afterwards. *)
Theorem dispatch_keeps_store (m m' : Mem) :
  store_ok m -> rtc dispatch_step m m' ->
  store_ok m'
  /\ forall s, unpooled m (data s) -> unpooled m' (data s) /\ view m' s = view m s.
Proof.
  intros Hok Hsteps.
  destruct (dispatch_steps_store m m' Hok Hsteps) as [Hok' Hkeep].
  split; [done|]. intros s Hs. destruct (Hkeep _ Hs) as [Hs' Harr].
  split; [done|]. unfold view. by rewrite Harr.
Qed.

(** X13: the parameters that [Lookup] returns are those the walk bound,
    provided the buffers that [getParams] can hand out hold that many,
    and they stay: [Lookup] does not put the buffer back, so whatever
    calls of [ServeHTTP] and [Lookup] follow, the returned slice reads
    the same. *)
Theorem Lookup_params_stable (r : Router) (method path : string)
    (root : node) (route : Route) (kvs : list Param) (tsr : bool) (m : Mem) :
  store_ok m -> paramsPool_New r = true -> buffers_hold r m (length kvs) ->
  trees r !! method = Some root ->
  lookup root path = (Some route, kvs, tsr) -> kvs <> [] ->
  exists s m',
    Lookup r method path m = (Ok (Some route, Some s, tsr), m')
    /\ view m' s = kvs
    /\ store_ok m'
    /\ forall m'', rtc dispatch_step m' m'' -> view m'' s = kvs.
Proof.
  intros Hok Hnew Hhold Htree Hl Hne. unfold Lookup, bind. rewrite Htree.
  destruct (getValue_binds r root _ _ _ _ m Hok Hnew Hhold Hl Hne)
    as (ps & m1 & -> & Hok1 & Hview & _).
  destruct (store_ok_held ps m1 Hok1) as (Hok1' & (s & arr & Hs & _) & _ & Hun & _).
  unfold load. rewrite Hs. exists s, m1. split; [done|].
  unfold cell_view in Hview. rewrite Hs in Hview.
  split; [done|]. split; [done|].
  intros m2 Hsteps.
  destruct (dispatch_steps_store m1 m2 Hok1' Hsteps) as [_ Hkeep].
  destruct (Hkeep (data s) (Hun s Hs)) as [_ Harr].
  unfold view in *. by rewrite Harr.
Qed.

Lemma ServeHTTP_allow_acts (ks : list string) (r : Router) (req : Request)
    (acts : list Action) :
  ServeHTTP_allow ks r req = Some acts -> acts <> [].
Proof.
  unfold ServeHTTP_allow.
  repeat match goal with
         | |- context [if ?b then _ else _] => destruct b
         end; by intros [= <-].
Qed.

(** X14: [ServeHTTP] answers.  Over a well-formed store, with a buffer
    to be had that holds the parameters when the walk binds any, and a
    handler on the route it finds, the call returns without a panic,
    has written a response or called a handler, and leaves the store
    well-formed. *)
Theorem ServeHTTP_answers (ks : list string) (r : Router) (req : Request)
    (m : Mem) :
  store_ok m ->
  (forall root route kvs tsr,
     trees r !! Method req = Some root ->
     lookup root (Path (url req)) = (route, kvs, tsr) ->
     (kvs <> [] -> paramsPool_New r = true /\ buffers_hold r m (length kvs))
     /\ forall rt, route = Some rt -> is_Some (Route_handler rt)) ->
  exists acts m',
    ServeHTTP ks r req m = (Ok acts, m') /\ acts <> [] /\ store_ok m'.
Proof.
  intros Hok Hgood.
  assert (forall acts m', ServeHTTP ks r req m = (Ok acts, m') -> acts <> [] ->
            exists acts m', ServeHTTP ks r req m = (Ok acts, m')
                            /\ acts <> [] /\ store_ok m') as Hdone.
  { intros acts m' H Hacts. exists acts, m'. split; [done|]. split; [done|].
    by destruct (ServeHTTP_store _ _ _ _ _ _ Hok H). }
  assert (forall m1, exists acts,
            match ServeHTTP_allow ks r req with
            | Some acts => ret acts
            | None => ret (ServeHTTP_404 r req)
            end m1 = (Ok acts, m1) /\ acts <> []) as Hrest.
  { intros m1. destruct (ServeHTTP_allow ks r req) as [acts|] eqn:Hallow.
    - exists acts. split; [done|]. by eapply ServeHTTP_allow_acts.
    - eexists. split; [done|]. unfold ServeHTTP_404. by destruct (NotFound r). }
  destruct (ServeHTTP ks r req m) as [[acts|msg] m'] eqn:Hserve.
  - apply (Hdone acts m'); [done|]. revert Hserve.
    unfold ServeHTTP, bind.
    destruct (ServeHTTP_tree r req m) as [[[acts0|]|msg] m1] eqn:Htree; [| |done].
    + intros [= <- <-]. revert Htree. unfold ServeHTTP_tree, bind.
      destruct (trees r !! Method req) as [root|]; [|done].
      destruct (getValue _ _ _ m) as [[[[[route|] ps] tsr]|msg] m2]; [| |done].
      * destruct ps as [ps|].
        -- unfold load. destruct (cells m2 !! ps); [|done]. simpl.
           destruct (Route_handler route); [|done]. by intros [= <- <-].
        -- simpl. destruct (Route_handler route); [|done]. by intros [= <- <-].
      * repeat match goal with
               | |- context [if ?b then _ else _] => destruct b
               | |- context [findCaseInsensitivePath ?n ?p ?b] =>
                   destruct (findCaseInsensitivePath n p b) as [? []]
               end; try done; by intros [= <- <-].
    + destruct (Hrest m1) as (acts1 & -> & Hacts). by intros [= <- <-].
  - exfalso. revert Hserve. unfold ServeHTTP, bind.
    destruct (ServeHTTP_tree r req m) as [[[acts0|]|msg0] m1] eqn:Htree; [done| |].
    + by destruct (Hrest m1) as (acts1 & -> & Hacts).
    + intros _. revert Htree. unfold ServeHTTP_tree, bind.
      destruct (trees r !! Method req) as [root|] eqn:Hroot; [|done].
      destruct (lookup root (Path (url req))) as [[route kvs] tsr] eqn:Hl.
      destruct (Hgood _ _ _ _ eq_refl Hl) as [Hnew Hh].
      destruct (decide (kvs = [])) as [->|Hne].
      * rewrite (getValue_unbound _ _ _ _ _ _ Hl).
        destruct route as [rt|].
        -- simpl. by destruct (Hh rt eq_refl) as [h ->].
        -- repeat match goal with
                  | |- context [if ?b then _ else _] => destruct b
                  | |- context [findCaseInsensitivePath ?n ?p ?b] =>
                      destruct (findCaseInsensitivePath n p b) as [? []]
                  end; done.
      * destruct (Hnew Hne) as [Hset Hhold].
        destruct (getValue_binds r root _ _ _ _ m Hok Hset Hhold Hl Hne)
          as (ps & m2 & -> & Hok2 & _).
        destruct (store_ok_held ps m2 Hok2) as (_ & (s & arr & Hs & _) & _).
        destruct route as [rt|].
        -- unfold load. rewrite Hs. simpl. by destruct (Hh rt eq_refl) as [h ->].
        -- repeat match goal with
                  | |- context [if ?b then _ else _] => destruct b
                  | |- context [findCaseInsensitivePath ?n ?p ?b] =>
                      destruct (findCaseInsensitivePath n p b) as [? []]
                  end; done.
Qed.


(** *** What dispatch answers *)

(** Closes a goal in which [H] finds a redirect among actions of
    other kinds. *)
Ltac redirect_among_others H :=
  repeat (apply elem_of_cons in H as [H|H]; [discriminate H|]);
  by apply elem_of_nil in H.

(** What [getValue] returns is what the walk found. *)
Lemma getValue_lookup (root : node) (path : string) (get : option (M loc))
    (route : option Route) (ps : option loc) (tsr : bool) (m m' : Mem) :
  getValue root path get m = (Ok (route, ps, tsr), m') ->
  exists kvs, lookup root path = (route, kvs, tsr).
Proof.
  unfold getValue. destruct (lookup root path) as [[route' kvs] tsr'].
  assert (ret (route', @None loc, tsr') m = (Ok (route, ps, tsr), m') ->
          exists kvs0, (route', kvs, tsr') = (route, kvs0, tsr)) as Hret.
  { intros [= <- <- <- <-]. eauto. }
  destruct get as [get|]; [|by destruct kvs].
  destruct kvs as [|kv kvs]; [done|].
  unfold bind. destruct (get m) as [[ps0|msg] m1]; [|done].
  destruct (append_Params ps0 (kv :: kvs) m1) as [[[]|msg] m2]; [|done].
  intros [= <- <- <- <-]. eauto.
Qed.

(** X15: [ServeHTTP] redirects only out of its first block: the method
    has a trie, the walk found no route, the method is not CONNECT and
    the path is not ["/"]; the redirect is the whole response, goes to
    the path with its trailing slash toggled or to the path that the
    case-insensitive walk found, and keeps the method and the query of
    the request. *)
Theorem ServeHTTP_redirects_only (ks : list string) (r : Router)
    (req rq : Request) (code : Z) (acts : list Action) (m m' : Mem) :
  ServeHTTP ks r req m = (Ok acts, m') ->
  http_Redirect rq code ∈ acts ->
  acts = [http_Redirect rq code]
  /\ Method req <> http.MethodConnect /\ Path (url req) <> "/"
  /\ Method rq = Method req /\ RawQuery (url rq) = RawQuery (url req)
  /\ exists root kvs tsr,
       trees r !! Method req = Some root
       /\ lookup root (Path (url req)) = (None, kvs, tsr)
       /\ ((tsr = true /\ RedirectTrailingSlash r = true
            /\ Path (url rq) = toggle_slash (Path (url req)))
           \/ (tsr && RedirectTrailingSlash r = false
               /\ RedirectFixedPath r = true
               /\ findCaseInsensitivePath root (CleanPath (Path (url req)))
                    (RedirectTrailingSlash r) = (Path (url rq), true))).
Proof.
  unfold ServeHTTP, bind. intros Hserve Hin.
  destruct (ServeHTTP_tree r req m) as [[[acts0|]|msg] m1] eqn:Htree;
    [| |discriminate].
  - injection Hserve as <- <-. revert Htree Hin. unfold ServeHTTP_tree, bind.
    destruct (trees r !! Method req) as [root|] eqn:Hroot; [|discriminate].
    destruct (getValue _ _ _ m) as [[[[[route|] ps] tsr]|msg] m2] eqn:Hget;
      [| |discriminate].
    + destruct ps as [ps|].
      * unfold load. destruct (cells m2 !! ps); [|discriminate]. simpl.
        destruct (Route_handler route); [|discriminate].
        intros [= <- <-] Hin. redirect_among_others Hin.
      * simpl. destruct (Route_handler route); [|discriminate].
        intros [= <- <-] Hin. redirect_among_others Hin.
    + destruct (getValue_lookup _ _ _ _ _ _ _ _ Hget) as [kvs Hl].
      destruct (String.eqb (Method req) http.MethodConnect) eqn:Hconnect;
        [discriminate|].
      destruct (String.eqb (Path (url req)) "/") eqn:Hslash; [discriminate|].
      apply String.eqb_neq in Hconnect, Hslash. simpl.
      destruct (tsr && RedirectTrailingSlash r) eqn:Hts.
      * intros [= <- <-] Hin. apply list_elem_of_singleton in Hin.
        injection Hin as -> ->. apply andb_true_iff in Hts as [-> Hts].
        repeat split; [done..|]. exists root, kvs, true. split; [done|].
        split; [done|]. left. done.
      * destruct (RedirectFixedPath r) eqn:Hfix; [|discriminate].
        destruct (findCaseInsensitivePath _ _ _) as [fixedPath [|]] eqn:Hfound;
          [|discriminate].
        intros [= <- <-] Hin. apply list_elem_of_singleton in Hin.
        injection Hin as -> ->.
        repeat split; [done..|]. exists root, kvs, tsr. split; [done|].
        split; [done|]. right. done.
  - destruct (ServeHTTP_allow ks r req) as [acts1|] eqn:Hallow;
      injection Hserve as <- <-.
    + destruct (ServeHTTP_allow_no_redirect _ _ _ _ _ _ Hallow Hin).
    + destruct (ServeHTTP_404_no_redirect _ _ _ _ Hin).
Qed.

(** X16: the automatic reply to OPTIONS.  When no route is registered
    under OPTIONS and [HandleOPTIONS] is on, an OPTIONS request is
    answered from [allowed] alone: with methods to list, the Allow
    header and then the [GlobalOPTIONS] handler, if there is one; with
    none, the 404 part, whatever [HandleMethodNotAllowed] says.  The
    store is not touched, and for the path ["*"] the header is the
    cached value. *)
Theorem ServeHTTP_auto_OPTIONS (ks : list string) (r : Router) (req : Request)
    (m : Mem) :
  Method req = http.MethodOptions ->
  HandleOPTIONS r = true ->
  trees r !! http.MethodOptions = None ->
  let allow := allowed ks r (Path (url req)) http.MethodOptions in
  (allow <> "" ->
   ServeHTTP ks r req m
   = (Ok (Header_Set "Allow" allow ::
          match GlobalOPTIONS r with
          | Some h => [Handler_ServeHTTP h req]
          | None => []
          end), m))
  /\ (allow = "" -> ServeHTTP ks r req m = (Ok (ServeHTTP_404 r req), m))
  /\ (Path (url req) = "*" -> allow = globalAllowed r).
Proof.
  intros Hmethod Hauto Htrie allow.
  unfold ServeHTTP, ServeHTTP_tree, ServeHTTP_allow, bind.
  rewrite Hmethod, Htrie, Hauto. simpl. fold allow.
  split; [|split].
  - intros Hallow. apply String.eqb_neq in Hallow. by rewrite Hallow.
  - intros Hallow. by rewrite Hallow.
  - intros Hpath. subst allow. rewrite Hpath. reflexivity.
Qed.

(** X17: a router on which nothing is registered, such as a new one,
    answers every request, OPTIONS and ["*"] included, with its
    [NotFound] handler or [http.NotFound], and does not touch the
    store. *)
Theorem ServeHTTP_without_routes (ks : list string) (r : Router) (req : Request)
    (m : Mem) :
  trees r = ∅ -> globalAllowed r = "" -> range_keys r ks ->
  ServeHTTP ks r req m = (Ok (ServeHTTP_404 r req), m).
Proof.
  intros Htrees Hcache [_ Hks].
  assert (ks = []) as ->.
  { destruct ks as [|k ks]; [done|].
    assert (is_Some (trees r !! k)) as [root Hroot] by (apply Hks; left).
    by rewrite Htrees, lookup_empty in Hroot. }
  assert (forall path reqMethod, allowed [] r path reqMethod = "") as Hallowed.
  { intros path reqMethod. unfold allowed.
    destruct (String.eqb path "*"); [|done].
    by destruct (String.eqb reqMethod ""). }
  unfold ServeHTTP, ServeHTTP_tree, ServeHTTP_allow, bind.
  rewrite Htrees, lookup_empty, !Hallowed. simpl.
  by destruct (String.eqb (Method req) http.MethodOptions && HandleOPTIONS r),
    (HandleMethodNotAllowed r).
Qed.

End StoreProperties.

(** ** The dispatcher at work *)

Section DemoFacts.

Import Demo.

Lemma site_GET_trie : trees site !! "GET" = Some site_GET.
Proof. reflexivity. Qed.

Lemma site_CONNECT_trie : trees site !! "CONNECT" = Some site_CONNECT.
Proof. reflexivity. Qed.

Lemma site_keys : keys site = ["GET"; "CONNECT"; "POST"].
Proof. reflexivity. Qed.

Lemma handle_step (method path : string) (h : nat)
    (opts : list Trie.RouteOption) (r : Router) :
  registration_step r (handle method path h opts r).
Proof.
  eapply (step_Handle (Pkg := trie_package) _ method path (Some h) opts r _ _
            (range_keys_keys _)).
  unfold handle. apply surjective_pairing.
Qed.

Lemma site_registered : registered site.
Proof.
  exists NewRouter. split; [done|]. split; [done|].
  unfold site. do 4 (eapply rtc_r; [|apply handle_step]). apply rtc_refl.
Qed.

(** Which tries of [site] have a route for /foo. *)
Lemma site_foo_matches (method : string) :
  matches site "/foo" method = true <-> method = "GET" \/ method = "POST".
Proof.
  split.
  - intros Hm.
    assert (method ∈ keys site) as Hin.
    { apply range_keys_keys. unfold matches in Hm.
      destruct (trees site !! method); [eauto|done]. }
    rewrite site_keys in Hin.
    apply elem_of_cons in Hin as [->|Hin]; [by left|].
    apply elem_of_cons in Hin as [->|Hin]; [by vm_compute in Hm|].
    apply list_elem_of_singleton in Hin as ->. by right.
  - intros [-> | ->]; reflexivity.
Qed.

(** GET /foo/ where only /foo is registered: 301 to /foo. *)
Lemma trailing_slash_redirect_at_site :
  ServeHTTP (keys site) site (request "GET" "/foo/") mem0
  = (Ok [http_Redirect (request "GET" "/foo") 301], mem0).
Proof.
  refine (proj1 (ServeHTTP_trailing_slash_redirect (keys site) site
                   (request "GET" "/foo/") site_GET None mem0 mem0
                   site_GET_trie _ _ _ _)).
  - reflexivity.
  - reflexivity.
  - discriminate.
  - discriminate.
Defined.

(** The redirect of GET /foo/ is a 301, that of POST /FOO a 308. *)
Lemma redirect_status_at_site :
  (ServeHTTP (keys site) site (request "GET" "/foo/") mem0
   = (Ok [http_Redirect (request "GET" "/foo") 301], mem0)
   /\ 301 = 301)
  /\ (ServeHTTP (keys site) site (request "POST" "/FOO") mem0
      = (Ok [http_Redirect (request "POST" "/foo") 308], mem0)
      /\ 308 = 308).
Proof.
  assert (ServeHTTP (keys site) site (request "GET" "/foo/") mem0
          = (Ok [http_Redirect (request "GET" "/foo") 301], mem0)) as HGET
    by reflexivity.
  assert (ServeHTTP (keys site) site (request "POST" "/FOO") mem0
          = (Ok [http_Redirect (request "POST" "/foo") 308], mem0)) as HPOST
    by reflexivity.
  split; (split; [done|]).
  - apply (ServeHTTP_redirect_status (Pkg := trie_package) (Rt := last_put)
             (keys site) site (request "GET" "/foo/") (request "GET" "/foo") 301
             [http_Redirect (request "GET" "/foo") 301] mem0 mem0 HGET);
      [left|reflexivity].
  - apply (ServeHTTP_redirect_status (Pkg := trie_package) (Rt := last_put)
             (keys site) site (request "POST" "/FOO") (request "POST" "/foo") 308
             [http_Redirect (request "POST" "/foo") 308] mem0 mem0 HPOST);
      [left|discriminate].
Defined.

(** DELETE /foo, registered under GET and POST. *)
Lemma allowed_at_site :
  allowed (keys site) site "/foo" "DELETE" = "GET, OPTIONS, POST".
Proof.
  refine (proj2 (proj2 (allowed_for_path (keys site) site "/foo" "DELETE" _ _)) _).
  - discriminate.
  - apply range_keys_keys.
  - exact site_foo_matches.
Defined.

(** The cache of [site]. *)
Lemma globalAllowed_at_site :
  globalAllowed site = allowed (keys site) site "*" ""
  /\ globalAllowed site = "CONNECT, GET, OPTIONS, POST".
Proof.
  split.
  - exact (proj1 (globalAllowed_cache site (keys site) site_registered
                    (range_keys_keys site))).
  - reflexivity.
Defined.

(** POST /FOO is redirected to /foo with 308. *)
Lemma fixed_path_redirect_at_site :
  ServeHTTP (keys site) site (request "POST" "/FOO") mem0
  = (Ok [http_Redirect (request "POST" "/foo") 308], mem0).
Proof.
  assert (trees site !! "POST" = Some (default Trie.new_node (trees site !! "POST")))
    as Htrie by reflexivity.
  refine (ServeHTTP_fixed_path_redirect (keys site) site (request "POST" "/FOO")
            _ None false "/foo" mem0 mem0 Htrie _ _ _ _ _ _).
  - reflexivity.
  - discriminate.
  - discriminate.
  - reflexivity.
  - reflexivity.
  - reflexivity.
Defined.

(** CONNECT /TUNNEL: the trie has no route, the corrector finds
    /tunnel, and the request is not redirected. *)
Lemma fixed_path_redirect_not_for_CONNECT :
  ~ fixed_path_redirect_unguarded (keys site) site (request "CONNECT" "/TUNNEL") mem0.
Proof.
  intros Hclaim.
  specialize (Hclaim site_CONNECT None false mem0 "/tunnel" site_CONNECT_trie).
  assert (ServeHTTP (keys site) site (request "CONNECT" "/TUNNEL") mem0
          = (Ok [http_NotFound (request "CONNECT" "/TUNNEL")], mem0)) as Hcode
    by reflexivity.
  rewrite Hcode in Hclaim.
  assert ((Ok [http_NotFound (request "CONNECT" "/TUNNEL")], mem0)
          = (Ok [http_Redirect (with_Path (request "CONNECT" "/TUNNEL") "/tunnel")
                   (redirect_code "CONNECT")], mem0)) as Habsurd.
  { apply Hclaim.
    - reflexivity.
    - reflexivity.
    - reflexivity.
    - reflexivity. }
  discriminate Habsurd.
Qed.

(** DELETE /foo: 405 with the Allow header. *)
Lemma fallback_at_site :
  ServeHTTP (keys site) site (request "DELETE" "/foo") mem0
  = (Ok [Header_Set "Allow" "GET, OPTIONS, POST";
         http_Error "Method Not Allowed" 405], mem0).
Proof.
  refine (proj1 (ServeHTTP_fallback (keys site) site (request "DELETE" "/foo")
                   mem0 mem0 _ _) _).
  - reflexivity.
  - intros (Hmethod & _). discriminate Hmethod.
  - split; [reflexivity|].
    assert (allowed (keys site) site "/foo" "DELETE" = "GET, OPTIONS, POST")
      as Hallow by reflexivity.
    intros Hempty. change (allowed (keys site) site "/foo" "DELETE" = "") in Hempty.
    rewrite Hallow in Hempty. discriminate Hempty.
Defined.

(** A second route named "user". *)
Lemma registration_panics_at_site :
  (Handle (keys site) "GET" "/people/:id" (Some 9%nat) [Trie.RouteName "user"] site).1
  = Panicked in_Handle "route name user is already registered"
  /\ panics_in in_Handle
       (Handle (keys site) "GET" "/people/:id" (Some 9%nat) [Trie.RouteName "user"]
          site).1.
Proof.
  split; [reflexivity|].
  apply (proj1 (registration_panics (Pkg := trie_package) (keys site) "GET"
                  "/people/:id" (Some 9%nat) [Trie.RouteName "user"] site)).
  right. right. split; [discriminate|]. eexists. reflexivity.
Defined.

(** With a method and a pattern that pass both checks, [Handle] still
    panics in its own body. *)
Lemma Handle_panics_on_taken_name :
  ~ Handle_checks_method_and_path_only (keys site) "GET" "/people/:id"
      (Some 9%nat) [Trie.RouteName "user"] site.
Proof.
  intros Hclaim.
  destruct (proj1 Hclaim) as [Hmethod|Hpath].
  - exists "route name user is already registered". reflexivity.
  - discriminate Hmethod.
  - vm_compute in Hpath. discriminate Hpath.
Qed.

(** A buffer left with two parameters comes back empty. *)
Lemma getParams_at_used :
  exists ps m' s,
    getParams site used = (Ok ps, m')
    /\ cells m' !! ps = Some s /\ len s = 0%nat /\ view m' s = [].
Proof.
  destruct (proj1 (getParams_hands_out_empty_buffer site used))
    as (ps & m' & Hget).
  - reflexivity.
  - intros ps Hps. apply list_elem_of_singleton in Hps as ->.
    eexists. reflexivity.
  - destruct (proj2 (getParams_hands_out_empty_buffer site used) ps m' Hget)
      as (s & Hs & Hlen & Hview & _).
    by exists ps, m', s.
Defined.

(** GET /foo at [site]: a route, nil [Params]. *)
Lemma Lookup_at_site :
  exists route,
    Lookup site "GET" "/foo" mem0 = (Ok (Some route, None, false), mem0).
Proof.
  eexists.
  refine (proj2 (Lookup_nil_Params site "GET" "/foo" mem0) site_GET _ false
            site_GET_trie _).
  reflexivity.
Defined.

(** C9, where the code breaks it: [ServeHTTP] puts the buffer back
    into the pool before it calls the handler, which holds the slice
    over the same backing array.  With GET /users/42 dispatched and its
    handler still running, the dispatch of GET /users/7 takes the
    buffer from the pool and writes into it: the first handler now
    reads "7" where it read "42". *)
Theorem params_overwritten_while_in_flight :
  let reqA := with_params (request "GET" "/users/42") held in
  let reqB := with_params (request "GET" "/users/7") held in
  ServeHTTP (keys site) site (request "GET" "/users/42") mem0
  = (Ok [Handler_ServeHTTP 3%nat reqA], after_first)
  /\ Params_Get after_first (GetParams reqA) "id" = "42"
  /\ ServeHTTP (keys site) site (request "GET" "/users/7") after_first
     = (Ok [Handler_ServeHTTP 3%nat reqB], after_second)
  /\ Params_Get after_second (GetParams reqB) "id" = "7"
  /\ Params_Get after_second (GetParams reqA) "id" = "7".
Proof. repeat split; reflexivity. Qed.

(** GET * on a router that has a route for GET only: no other method
    has a handler for the path, and the answer is a 405 whose Allow
    header is the cached list, the request method in it. *)
Lemma fallback_not_by_other_methods :
  ~ fallback_by_other_methods (keys only_GET) only_GET (request "GET" "*") mem0.
Proof.
  intros Hclaim.
  destruct (Hclaim mem0) as [_ H404].
  - reflexivity.
  - intros (Hmethod & _). discriminate Hmethod.
  - assert (ServeHTTP (keys only_GET) only_GET (request "GET" "*") mem0
            = (Ok [Header_Set "Allow" "GET, OPTIONS";
                   http_Error "Method Not Allowed" 405], mem0)) as Hcode
      by reflexivity.
    rewrite Hcode in H404.
    assert ((Ok [Header_Set "Allow" "GET, OPTIONS";
                 http_Error "Method Not Allowed" 405], mem0)
            = (Ok (ServeHTTP_404 only_GET (request "GET" "*")), mem0)) as Habsurd.
    { apply H404. intros (_ & method & Hprobed).
      assert (method ∈ keys only_GET) as Hin.
      { apply range_keys_keys. by eapply probed_registered. }
      change (method ∈ ["GET"]) in Hin.
      apply list_elem_of_singleton in Hin as ->.
      discriminate Hprobed. }
    discriminate Habsurd.
Qed.

End DemoFacts.

(** ** More of the router at work *)

Section RouterFacts.

Import Demo.

Lemma mem0_ok : store_ok mem0.
Proof.
  split; [|split; [|split; [|split]]]; simpl.
  - intros a [arr Ha]. by rewrite lookup_empty in Ha.
  - intros c [s Hs]. by rewrite lookup_empty in Hs.
  - intros ps Hps. by apply elem_of_nil in Hps.
  - apply NoDup_nil_2.
  - intros p q sp sq Hp. by apply elem_of_nil in Hp.
Qed.

(** [site] makes buffers for one parameter, and the empty pool holds
    no other. *)
Lemma site_buffers_hold : buffers_hold site mem0 1.
Proof.
  assert (maxParams site = 1%Z) as Hmax by reflexivity.
  split; [rewrite Hmax; simpl; lia|].
  intros ps s Hps. by apply elem_of_nil in Hps.
Qed.

Lemma range_keys_Permutation (r : Router) (ks ks' : list string) :
  range_keys r ks -> ks ≡ₚ ks' -> range_keys r ks'.
Proof.
  intros [Hnd Hks] Hperm. split; [by rewrite <- Hperm|].
  intros method. by rewrite <- Hperm.
Qed.

Lemma site_keys_again : range_keys site ["POST"; "GET"; "CONNECT"].
Proof.
  apply (range_keys_Permutation site (keys site)); [apply range_keys_keys|].
  rewrite site_keys. symmetry. apply (Permutation_cons_append ["GET"; "CONNECT"] "POST").
Qed.

Lemma Params_Get_at_second :
  Params_Get_list [ {| Key := "id"; Value := "42" |};
                    {| Key := "bookId"; Value := "7" |};
                    {| Key := "bookId"; Value := "8" |} ] "bookId" = "7".
Proof.
  refine (proj1 (proj2 (Params_Get_first_match _ "bookId"))
            [ {| Key := "id"; Value := "42" |} ]
            {| Key := "bookId"; Value := "7" |}
            [ {| Key := "bookId"; Value := "8" |} ] _ _ _).
  - reflexivity.
  - reflexivity.
  - intros q Hq. apply list_elem_of_singleton in Hq as ->. discriminate.
Defined.

Lemma allowed_at_site_in_any_order :
  allowed ["POST"; "GET"; "CONNECT"] site "/foo" "DELETE"
  = allowed (keys site) site "/foo" "DELETE".
Proof.
  exact (proj1 (allowed_order_independent (Pkg := trie_package) (Rt := last_put)
                  ["POST"; "GET"; "CONNECT"] (keys site) site
                  site_keys_again (range_keys_keys site)) "/foo" "DELETE").
Defined.

Lemma Handle_frame_at_site :
  trees (Handle (keys site) "PUT" "/foo" (Some 7%nat) [Trie.RouteName "put"] site).2
    !! "GET" = Some site_GET
  /\ routes (Handle (keys site) "PUT" "/foo" (Some 7%nat) [Trie.RouteName "put"] site).2
     !! "user" = routes site !! "user".
Proof.
  pose proof (Handle_frame (Pkg := trie_package) (keys site) "PUT" "/foo"
                (Some 7%nat) [Trie.RouteName "put"] site _ _
                (surjective_pairing _)) as (Htrees & Hroutes & _).
  split.
  - rewrite Htrees by discriminate. reflexivity.
  - apply Hroutes. discriminate.
Defined.

(** A pair is its first component and the rest. *)
Lemma pair_of_fst {A B : Type} (x : A * B) (a : A) : x.1 = a -> x = (a, x.2).
Proof. destruct x. simpl. by intros ->. Qed.

(** The first registration with a wildcard, on a new router. *)
Lemma Handle_registers_at_new :
  let r' := handle "GET" "/users/:id" 3 [Trie.RouteName "user"] NewRouter in
  maxParams r' = 1%Z
  /\ paramsPool_New r' = true
  /\ Router_URL r' "user" ["42"] = inl {| Path := "/users/:id"; RawQuery := "" |}.
Proof.
  intros r'.
  pose proof (Handle_registers (Pkg := trie_package) (Urls := pattern_urls)
                (keys (set_trees (<["GET" := new_node]> (trees NewRouter)) NewRouter))
                "GET" "/users/:id" (Some 3%nat) [Trie.RouteName "user"]
                NewRouter r'
                (pair_of_fst
                   (Handle (keys (set_trees (<["GET" := new_node]> (trees NewRouter))
                                    NewRouter))
                           "GET" "/users/:id" (Some 3%nat) [Trie.RouteName "user"]
                           NewRouter)
                   Registered eq_refl))
    as (_ & Hmax & Hnew & Hnamed & _).
  split; [exact Hmax|]. split.
  - apply Hnew. right. rewrite Hmax. reflexivity.
  - destruct Hnamed as [_ Hurl]; [discriminate|]. exact (Hurl ["42"]).
Defined.

(** A pattern that the trie of GET refuses, under a new name. *)
Lemma Handle_panic_residue_at_site :
  let r' := (Handle (keys site) "GET" "/users/:name" (Some 9%nat)
               [Trie.RouteName "u2"] site).2 in
  routes r' !! "u2"
  = Some (Trie.newRoute "/users/:name" (Some 9%nat) [Trie.RouteName "u2"])
  /\ (Handle (keys r') "GET" "/users/:name" (Some 9%nat) [Trie.RouteName "u2"] r').1
     = Panicked in_Handle "route name u2 is already registered".
Proof.
  intros r'.
  pose proof (Handle_panic_residue (Pkg := trie_package)
                (keys site) "GET" "/users/:name" (Some 9%nat) [Trie.RouteName "u2"]
                site r' in_addRoute "wildcard conflict in path '/users/:name'"
                (pair_of_fst
                   (Handle (keys site) "GET" "/users/:name" (Some 9%nat)
                           [Trie.RouteName "u2"] site)
                   (Panicked in_addRoute "wildcard conflict in path '/users/:name'")
                   eq_refl)) as (_ & _ & _ & _ & _ & Hname).
  destruct Hname as [Hthere Hretry]; [reflexivity|discriminate|].
  split; [exact Hthere|exact (Hretry (keys r'))].
Defined.

Lemma site_from_new : rtc registration_step NewRouter site.
Proof.
  unfold site. do 4 (eapply rtc_r; [|apply handle_step]). apply rtc_refl.
Qed.

Lemma named_routes_stay_at_site :
  (forall name route, routes site !! name = Some route ->
                      name <> "" /\ Route_name route = name)
  /\ forall args,
       Router_URL site "" args = inr ("route " +:+ Quote "" +:+ " does not exist").
Proof.
  destruct (named_routes_stay (Pkg := trie_package) (Urls := pattern_urls)
              NewRouter site) as (Hnamed & _ & Hempty).
  - intros name route Hroute. discriminate Hroute.
  - exact site_from_new.
  - split; [exact Hnamed|exact Hempty].
Defined.

Lemma paramsPool_New_at_site :
  (paramsPool_New site = true <-> (0 < maxParams site)%Z)
  /\ (maxParams NewRouter <= maxParams site)%Z.
Proof.
  apply (paramsPool_New_iff_maxParams (Pkg := trie_package) NewRouter site).
  - simpl. split; [discriminate|lia].
  - exact site_from_new.
Defined.

Lemma ServeFiles_at_site :
  ServeFiles (keys site) "/static" 8%nat site
  = (inl "path must end with /*filepath in path '/static'", site)
  /\ ServeFiles (keys site) "/static/*filepath" 8%nat site
     = (inr Registered,
        (Handle (keys site) "GET" "/static/*filepath" (Some 8%nat) [] site).2).
Proof.
  split.
  - apply (proj1 (proj2 (ServeFiles_spec (Pkg := trie_package)
                           (Files := numbered_files) (keys site) "/static" 8%nat site))).
    intros [p Hp].
    assert (String.length "/static" = String.length (p +:+ "/*filepath")) as Hlen
      by (by rewrite <- Hp).
    rewrite string_length_append in Hlen. simpl in Hlen. lia.
  - rewrite (proj2 (proj2 (ServeFiles_spec (Pkg := trie_package)
                             (Files := numbered_files) (keys site)
                             "/static/*filepath" 8%nat site))).
    + reflexivity.
    + exists "/static". reflexivity.
Defined.

Lemma shortcuts_drop_options_at_site :
  Router_Post (keys site) "/orders" (Some 5%nat) [Trie.RouteName "orders"] site
  = Router_Post (keys site) "/orders" (Some 5%nat) [] site
  /\ routes (Router_Post (keys site) "/orders" (Some 5%nat)
               [Trie.RouteName "orders"] site).2 !! "orders" = None.
Proof.
  destruct (shortcuts_drop_options (Pkg := trie_package) (keys site) "/orders"
              (Some 5%nat) [Trie.RouteName "orders"] site) as [Hall _].
  - intros handler. reflexivity.
  - apply Forall_cons in Hall as [_ Hall].
    apply Forall_cons in Hall as [_ Hall].
    apply Forall_cons in Hall as [[Hsame Hroutes] _].
    split; [exact Hsame|]. rewrite Hroutes. reflexivity.
Defined.

Lemma site_user_lookup :
  lookup site_GET "/users/42"
  = (Some (Trie.newRoute "/users/:id" (Some 3%nat) [Trie.RouteName "user"]),
     [ {| Key := "id"; Value := "42" |} ], false).
Proof. reflexivity. Qed.

Lemma ServeHTTP_routed_at_site :
  exists req' m',
    ServeHTTP (keys site) site (request "GET" "/users/42") mem0
    = (Ok [Handler_ServeHTTP 3%nat req'], m')
    /\ params_of m' (GetParams req') = [ {| Key := "id"; Value := "42" |} ]
    /\ Params_Get m' (GetParams req') "id" = "42".
Proof.
  destruct (ServeHTTP_routed (Pkg := trie_package) (Rt := last_put)
              (keys site) site (request "GET" "/users/42") site_GET _
              [ {| Key := "id"; Value := "42" |} ] false 3%nat
              mem0 mem0_ok site_GET_trie site_user_lookup eq_refl
              (fun _ => conj eq_refl site_buffers_hold))
    as (req' & m' & Hserve & _ & _ & _ & _ & _ & Hparams).
  exists req', m'. split; [exact Hserve|].
  destruct Hparams as [Hview Hget]; [discriminate|].
  split; [exact Hview|exact (Hget "id")].
Defined.

Lemma after_Lookup_ok : store_ok after_Lookup.
Proof.
  refine (proj1 (Lookup_store (Pkg := trie_package) (Rt := last_put)
                   site "GET" "/users/42" mem0 after_Lookup
                   (Lookup site "GET" "/users/42" mem0).1 mem0_ok _)).
  reflexivity.
Qed.

Lemma dispatch_keeps_store_at_site :
  store_ok after_Lookup_and_dispatch
  /\ view after_Lookup_and_dispatch held = [ {| Key := "id"; Value := "42" |} ].
Proof.
  destruct (dispatch_keeps_store (Pkg := trie_package) (Rt := last_put)
              after_Lookup after_Lookup_and_dispatch after_Lookup_ok) as [Hok Hkeep].
  - apply rtc_once.
    apply (step_ServeHTTP (keys site) site (request "GET" "/users/7")
             (ServeHTTP (keys site) site (request "GET" "/users/7") after_Lookup).1
             after_Lookup after_Lookup_and_dispatch).
    reflexivity.
  - split; [exact Hok|].
    destruct (Hkeep held) as [_ Hview].
    + split; [simpl; lia|]. intros ps s Hps. by apply elem_of_nil in Hps.
    + rewrite Hview. reflexivity.
Defined.

Lemma Lookup_params_stable_at_site :
  exists s m',
    Lookup site "GET" "/users/42" mem0
    = (Ok (Some (Trie.newRoute "/users/:id" (Some 3%nat) [Trie.RouteName "user"]),
           Some s, false), m')
    /\ view m' s = [ {| Key := "id"; Value := "42" |} ]
    /\ forall m'', rtc dispatch_step m' m'' ->
                   view m'' s = [ {| Key := "id"; Value := "42" |} ].
Proof.
  destruct (Lookup_params_stable (Pkg := trie_package) (Rt := last_put)
              site "GET" "/users/42" site_GET _
              [ {| Key := "id"; Value := "42" |} ] false mem0
              mem0_ok eq_refl site_buffers_hold site_GET_trie site_user_lookup)
    as (s & m' & HLookup & Hview & _ & Hstay); [discriminate|].
  exists s, m'. split; [exact HLookup|]. split; [exact Hview|exact Hstay].
Defined.

Lemma ServeHTTP_answers_at_site :
  exists acts m',
    ServeHTTP (keys site) site (request "GET" "/users/42") mem0 = (Ok acts, m')
    /\ acts <> [] /\ store_ok m'.
Proof.
  apply (ServeHTTP_answers (Pkg := trie_package) (Rt := last_put)
           (keys site) site (request "GET" "/users/42") mem0 mem0_ok).
  intros root route kvs tsr Hroot Hl.
  assert (root = site_GET) as ->.
  { assert (Some root = Some site_GET) as [= ->]; [|done].
    rewrite <- Hroot. exact site_GET_trie. }
  assert ((route, kvs, tsr)
          = (Some (Trie.newRoute "/users/:id" (Some 3%nat) [Trie.RouteName "user"]),
             [ {| Key := "id"; Value := "42" |} ], false)) as [= -> -> _].
  { rewrite <- Hl. exact site_user_lookup. }
  split.
  - intros _. split; [reflexivity|exact site_buffers_hold].
  - intros rt [= <-]. eexists. reflexivity.
Defined.

Lemma ServeHTTP_redirects_only_at_site :
  ServeHTTP (keys site) site (request "GET" "/foo/") mem0
  = (Ok [http_Redirect (request "GET" "/foo") 301], mem0)
  /\ exists root kvs tsr,
       trees site !! "GET" = Some root
       /\ lookup root "/foo/" = (None, kvs, tsr).
Proof.
  assert (ServeHTTP (keys site) site (request "GET" "/foo/") mem0
          = (Ok [http_Redirect (request "GET" "/foo") 301], mem0)) as Hserve
    by reflexivity.
  split; [exact Hserve|].
  destruct (ServeHTTP_redirects_only (Pkg := trie_package) (Rt := last_put)
              (keys site) site (request "GET" "/foo/") (request "GET" "/foo") 301
              [http_Redirect (request "GET" "/foo") 301] mem0 mem0 Hserve)
    as (_ & _ & _ & _ & _ & root & kvs & tsr & Hroot & Hl & _).
  - left.
  - exists root, kvs, tsr. split; [exact Hroot|exact Hl].
Defined.

Lemma ServeHTTP_auto_OPTIONS_at_site :
  ServeHTTP (keys site) site (request "OPTIONS" "/foo") mem0
  = (Ok [Header_Set "Allow" "GET, OPTIONS, POST"], mem0).
Proof.
  assert (allowed (keys site) site "/foo" http.MethodOptions = "GET, OPTIONS, POST")
    as Hallow by reflexivity.
  pose proof (ServeHTTP_auto_OPTIONS (Pkg := trie_package) (Rt := last_put)
                (keys site) site (request "OPTIONS" "/foo") mem0
                eq_refl eq_refl eq_refl) as (Hreply & _ & _).
  change (Path (url (request "OPTIONS" "/foo"))) with "/foo" in Hreply.
  rewrite Hallow in Hreply. apply Hreply. discriminate.
Defined.

Lemma NewRouter_answers_not_found :
  ServeHTTP [] NewRouter (request "OPTIONS" "*") mem0
  = (Ok [http_NotFound (request "OPTIONS" "*")], mem0).
Proof.
  apply (ServeHTTP_without_routes (Pkg := trie_package) (Rt := last_put)
           [] NewRouter (request "OPTIONS" "*") mem0).
  - reflexivity.
  - reflexivity.
  - split; [apply NoDup_nil_2|]. intros method. split.
    + intros Hin. by apply elem_of_nil in Hin.
    + intros [root Hroot]. discriminate Hroot.
Defined.



End RouterFacts.
